(** * Registry 2.0: version collation, entry store and file map

    A shallow embedding of the registry sources:
    - [sql.c]      : [rpm_vercomp], the VERSION collation, and the schema
                     of [create_tables] / [init_db];
    - [centry.c]   : [reg_strcat], [reg_listcat], [reg_strategy_op],
                     [reg_entry_create], [reg_entry_delete],
                     [reg_entry_search] with [reg_all_objects],
                     [reg_entry_installed], [reg_entry_active],
                     [reg_entry_owner], [reg_entry_map], [reg_entry_unmap],
                     [reg_entry_files];
    - [entryobj.c] : [entry_obj_prop], [entry_obj_map], [entry_obj_unmap],
                     [entry_obj_files], [entry_obj_cmd];
    - [entry.c]    : [entry_create], [entry_to_obj], [entry_delete],
                     [entry_close], [entry_search], [entry_exists],
                     [entry_cmd];
    - [util.c]     : [unique_name], [parse_flags], [get_object],
                     [set_object], [recast];
    - [registry.c] : [registry_db].

    C strings are represented by the [string] of the bytes that precede the
    terminating NUL, so a pointer into a C string is the suffix it points
    at, the test for the terminating NUL is the test that the suffix is
    empty, and [p++] drops the first byte. *)

From Stdlib Require Import ZArith Lia List Bool Ascii String.
From Stdlib Require Import Numbers.DecimalString Numbers.DecimalNat.
From Stdlib Require Import Lists.Finite Sorting.Permutation.
Import ListNotations.

Local Open Scope string_scope.
Local Open Scope Z_scope.

(* ================================================================= *)
(** ** sql.c : the version comparator *)

Module Vercomp.

(** A [char] promoted to [int].  Only bytes of alphabetic or numeric
    segments are ever subtracted, and those are below 128, so the
    signedness of [char] does not matter. *)
Definition code (c : ascii) : Z := Z.of_nat (nat_of_ascii c).

(** [<ctype.h>] in the "C" locale. *)
Definition isdigit (c : ascii) : bool :=
  (48 <=? code c) && (code c <=? 57).

Definition isalpha (c : ascii) : bool :=
  ((65 <=? code c) && (code c <=? 90)) || ((97 <=? code c) && (code c <=? 122)).

Definition isalnum (c : ascii) : bool := isalpha c || isdigit c.

Definition NUL : ascii := Ascii.zero.

(** The byte [p] points at. *)
Definition deref (p : string) : ascii :=
  match p with
  | EmptyString => NUL
  | String c _ => c
  end.

(** [p] points at the terminating NUL. *)
Definition at_end (p : string) : bool :=
  match p with
  | EmptyString => true
  | String _ _ => false
  end.

(** [while ( *ptr != 0 && !isalnum( *ptr)) ptr++;] *)
Fixpoint skip_nonalnum (ptr : string) : string :=
  match ptr with
  | EmptyString => ptr
  | String c ptr' => if isalnum c then ptr else skip_nonalnum ptr'
  end.

(** [while ( *eptr != 0 && isalpha( *eptr)) eptr++;]
    The result is the pair of the bytes in [ptr, eptr) and of [eptr]. *)
Fixpoint scan_alpha (eptr : string) : string * string :=
  match eptr with
  | EmptyString => (EmptyString, eptr)
  | String c eptr' =>
      if isalpha c
      then let '(seg, e) := scan_alpha eptr' in (String c seg, e)
      else (EmptyString, eptr)
  end.

(** [while ( *eptr != 0 && isdigit( *eptr)) { count++; eptr++; }] *)
Fixpoint scan_digits (eptr : string) (count : Z) : string * string * Z :=
  match eptr with
  | EmptyString => (EmptyString, eptr, count)
  | String c eptr' =>
      if isdigit c
      then let '(seg, e, n) := scan_digits eptr' (count + 1) in
           (String c seg, e, n)
      else (EmptyString, eptr, count)
  end.

(** [while (ptr != eptr && *ptr == '0') { ptr++; count--; }]
    on the bytes of [ptr, eptr). *)
Fixpoint skip_zeros (seg : string) (count : Z) : string * Z :=
  match seg with
  | EmptyString => (seg, count)
  | String c seg' =>
      if Ascii.eqb c "0"%char then skip_zeros seg' (count - 1) else (seg, count)
  end.

(** [while (ptrA != eptrA && ptrB != eptrB && *ptrA == *ptrB) { ptrA++; ptrB++; }
     if (ptrA != eptrA && ptrB != eptrB) return *ptrA - *ptrB;]
    [Some d] is the returned difference, [None] is falling through. *)
Fixpoint lexcmp (segA segB : string) : option Z :=
  match segA, segB with
  | String a segA', String b segB' =>
      if Ascii.eqb a b then lexcmp segA' segB' else Some (code a - code b)
  | _, _ => None
  end.

(** The code after the main loop. *)
Definition after_loop (ptrA ptrB : string) : Z :=
  if at_end ptrA && at_end ptrB then 0
  else if negb (at_end ptrA) then 1
  else -1.

(** One pass through the body of the main [while] loop: [inl r] when the
    body executes [return r], [inr (ptrA, ptrB)] when it reaches its end
    with the pointers moved to [eptrA] and [eptrB]. *)
Definition loop_body (ptrA ptrB : string) : Z + string * string :=
  let ptrA := skip_nonalnum ptrA in
  let ptrB := skip_nonalnum ptrB in
  if negb (isdigit (deref ptrB)) && isdigit (deref ptrA) then inl 1
  else if (isdigit (deref ptrA) && isalpha (deref ptrB))
          || (isalpha (deref ptrA) && isdigit (deref ptrB))
  then inl (-1)
  else if isalpha (deref ptrA) then
    let '(segA, eptrA) := scan_alpha ptrA in
    let '(segB, eptrB) := scan_alpha ptrB in
    match lexcmp segA segB with
    | Some d => inl d
    | None => inr (eptrA, eptrB)
    end
  else
    let '(segA, eptrA, countA) := scan_digits ptrA 0 in
    let '(segB, eptrB, countB) := scan_digits ptrB 0 in
    let '(segA, countA) := skip_zeros segA countA in
    let '(segB, countB) := skip_zeros segB countB in
    if countA >? countB then inl 1
    else if countB >? countA then inl (-1)
    else
      match lexcmp segA segB with
      | Some d => inl d
      | None => inr (eptrA, eptrB)
      end.

(** The main [while] loop of [rpm_vercomp] and the code after it; one unit
    of fuel per test of the loop condition. *)
Fixpoint vercomp_loop (fuel : nat) (ptrA ptrB : string) : option Z :=
  match fuel with
  | O => None
  | S fuel' =>
      if at_end ptrA || at_end ptrB then Some (after_loop ptrA ptrB)
      else
        match loop_body ptrA ptrB with
        | inl r => Some r
        | inr (ptrA', ptrB') => vercomp_loop fuel' ptrA' ptrB'
        end
  end.

(** [rpm_vercomp].  Every iteration of the loop moves [ptrA] forward, so
    [length versionA] iterations and the final test are enough
    (see [vercomp_loop_total]). *)
Definition rpm_vercomp (versionA versionB : string) : option Z :=
  if String.eqb versionA versionB then Some 0
  else vercomp_loop (S (String.length versionA)) versionA versionB.

(** [sql_version], the VERSION collation.  The engine hands it two texts
    by address and length; it hands the addresses on to [rpm_vercomp],
    which reads each text up to the first zero byte, and makes no use of
    the lengths.  So [a] and [b] are the bytes that lie at the two
    addresses up to the first zero byte, whatever [alen] and [blen] are. *)
Definition sql_version (alen : Z) (a : string) (blen : Z) (b : string)
  : option Z :=
  rpm_vercomp a b.

(** The three outcomes of a comparison. *)
Inductive ordering := Less | Equal | Greater.

Definition ordering_of (r : Z) : ordering :=
  if r <? 0 then Less else if r =? 0 then Equal else Greater.

(** "Inverses": less against greater, equal against equal. *)
Definition inverse (o : ordering) : ordering :=
  match o with
  | Less => Greater
  | Equal => Equal
  | Greater => Less
  end.

Definition compare (a b : string) : option ordering :=
  option_map ordering_of (rpm_vercomp a b).

(** *** What the specification says about numeric segments *)

(** "strip leading zero characters" *)
Fixpoint strip_leading_zeros (s : string) : string :=
  match s with
  | String c s' => if Ascii.eqb c "0"%char then strip_leading_zeros s' else s
  | EmptyString => EmptyString
  end.

(** "byte-wise comparison": the first position, within the shorter of the
    two runs, at which the bytes differ. *)
Fixpoint first_mismatch (s t : string) : option (ascii * ascii) :=
  match s, t with
  | String x s', String y t' =>
      if Ascii.eqb x y then first_mismatch s' t' else Some (x, y)
  | _, _ => None
  end.

(** A version that does not end in a separator: it is empty or its last
    byte is alphanumeric. *)
Fixpoint ends_alnum (s : string) : bool :=
  match s with
  | EmptyString => true
  | String c s' =>
      match s' with
      | EmptyString => isalnum c
      | String _ _ => ends_alnum s'
      end
  end.

(** Every byte of [s] is of the class [cls]. *)
Fixpoint all_of (cls : ascii -> bool) (s : string) : bool :=
  match s with
  | EmptyString => true
  | String c s' => cls c && all_of cls s'
  end.

End Vercomp.

(* ================================================================= *)
(** ** The storage engine, as far as the registry uses it

    [create_tables] and [init_db] (sql.c) fix the schema:
<<
    registry.ports (name, portfile, url, location, epoch,
                    version COLLATE VERSION, revision COLLATE VERSION,
                    variants, state, date,
                    UNIQUE (name, epoch, version, revision, variants),
                    UNIQUE (url, epoch, version, revision, variants))
    registry.files (port_id, path UNIQUE, mtime)
    TEMPORARY entry_procs (entry_id UNIQUE, proc UNIQUE)
>>
    and the indexes [port_name (name, epoch, version, revision, variants)],
    [port_url (url, epoch, version, revision, variants)],
    [port_state (state)] and [file_port (port_id)].

    None of the registry functions opens a transaction (their BEGIN, COMMIT
    and ROLLBACK are comments), so every statement runs in autocommit mode:
    a statement that completes is committed, a statement that fails changes
    nothing.  The model covers an attached registry whose tables exist;
    failures of the engine itself (I/O, memory) are outside it, so
    [sqlite3_prepare] and the [sqlite3_bind_*] calls succeed.

    Two things the engine does not promise are parameters of a
    connection.  The statements have no ORDER BY, so the order in which a
    SELECT yields its rows is the engine's choice ([scan]).  And
    [sql_version] reads the texts it is given up to the first zero byte,
    while a text inside an index entry has no terminator: what it reads
    there goes on through the columns that follow, through the rowid, and
    into whatever the memory holds behind the entry ([memory]). *)

Module Sqlite.

Inductive rc :=
| SQLITE_OK | SQLITE_ERROR | SQLITE_CONSTRAINT | SQLITE_CORRUPT
| SQLITE_ROW | SQLITE_DONE.

(** The registry only ever stores text in [registry.ports] (every value is
    bound with [sqlite3_bind_text] or written as a quoted literal), so a
    column holds NULL ([None]) or a text. *)
Record port := mkPort {
  rowid : Z;
  name : option string;
  portfile : option string;
  url : option string;
  location : option string;
  epoch : option string;
  version : option string;
  revision : option string;
  variants : option string;
  state : option string;
  date : option string
}.

Record file := mkFile {
  file_rowid : Z;
  port_id : Z;
  path : string;
  mtime : option Z
}.

Record entry_proc := mkProc {
  proc_rowid : Z;
  entry_id : Z;
  proc : string
}.

(** The operators [reg_strategy_op] can put in a condition. *)
Inductive operator := OpEq | OpGlob | OpRegexp.

(** The indexes of [registry.ports] that hold version and revision: the
    two the UNIQUE constraints make, and [port_name] and [port_url]. *)
Inductive index := Autoindex_1 | Autoindex_2 | Port_name | Port_url.

(** One connection: the attached registry, the temporary table of
    [init_db], the counters behind [sqlite3_changes] and
    [sqlite3_last_insert_rowid], the two pattern operators a query can
    use (the built-in GLOB, and REGEXP, which [init_db] registers as
    [sql_regexp]: 0, 1, or -1 for an invalid pattern), and the two
    parameters: [memory ix id] are the bytes behind the columns of the
    entry of row [id] in the index [ix], up to the first zero byte, as far
    as the rowid does not fix them (see [entry_tail]); [scan conds p] is
    the place of the row [p] in the order in which a SELECT with the
    conditions [conds] yields its rows. *)
Record sqlite3 := mkDb {
  ports : list port;
  files : list file;
  entry_procs : list entry_proc;
  changes : Z;
  last_insert_rowid : Z;
  glob : string -> string -> bool;
  sql_regexp : string -> string -> Z;
  memory : index -> Z -> string;
  scan : list (string * operator * string) -> port -> Z
}.

Definition set_ports (db : sqlite3) (l : list port) (n r : Z) : sqlite3 :=
  mkDb l (files db) (entry_procs db) n r (glob db) (sql_regexp db)
       (memory db) (scan db).

Definition set_files (db : sqlite3) (l : list file) (n r : Z) : sqlite3 :=
  mkDb (ports db) l (entry_procs db) n r (glob db) (sql_regexp db)
       (memory db) (scan db).

Definition set_entry_procs (db : sqlite3) (l : list entry_proc) (n r : Z)
  : sqlite3 :=
  mkDb (ports db) (files db) l n r (glob db) (sql_regexp db)
       (memory db) (scan db).

(** *** The texts the collations are given *)

(** The bytes of a column in a record: a NULL has none. *)
Definition text_of (v : option string) : string :=
  match v with
  | Some s => s
  | None => EmptyString
  end.

(** [sqlite3_column_bytes], the length the engine hands to a collation. *)
Definition bytes_of (v : string) : Z := Z.of_nat (String.length v).

(** An entry of one of the four indexes is the record
    [(name or url, epoch, version, revision, variants, rowid)]: the texts
    one after the other with no terminator, then the rowid.  A rowid from
    2 to 127 is the one byte of that value, a rowid from 128 to 255 is two
    bytes of which the first is zero; for every other rowid the bytes, and
    for every rowid but those from 128 to 255 the bytes behind it, are
    those of [memory]. *)
Definition entry_tail (db : sqlite3) (ix : index) (id : Z) : string :=
  if (128 <=? id) && (id <=? 255) then EmptyString
  else if (2 <=? id) && (id <=? 127)
  then String (ascii_of_nat (Z.to_nat id)) (memory db ix id)
  else memory db ix id.

(** The bytes at the address of the version, and of the revision, of the
    entry of row [p] in the index [ix], up to the first zero byte. *)
Definition stored_version (db : sqlite3) (ix : index) (p : port) : string :=
  text_of (version p) ++ text_of (revision p) ++ text_of (variants p)
    ++ entry_tail db ix (rowid p).

Definition stored_revision (db : sqlite3) (ix : index) (p : port) : string :=
  text_of (revision p) ++ text_of (variants p) ++ entry_tail db ix (rowid p).

(** *** Collations.  A NULL is equal to nothing, itself included. *)
Definition binary_eq (a b : option string) : bool :=
  match a, b with
  | Some x, Some y => String.eqb x y
  | _, _ => false
  end.

(** The VERSION collation in a WHERE clause: the engine copies the column
    of the row into a terminated buffer and calls [sql_version] with it
    and the literal, in this order; it takes them equal when the call
    returns 0. *)
Definition version_eq (a b : option string) : bool :=
  match a, b with
  | Some x, Some y =>
      match Vercomp.sql_version (bytes_of x) x (bytes_of y) y with
      | Some 0 => true
      | _ => false
      end
  | _, _ => false
  end.

(** The VERSION collation on an index entry: [sql_version] is called with
    the address of the field [x] inside the entry, where the bytes
    [stored] lie, and with the terminated text [y] that is looked for or
    written, in this order. *)
Definition stored_eq (stored : string) (x y : option string) : bool :=
  match x, y with
  | Some x, Some y =>
      match Vercomp.sql_version (bytes_of x) stored (bytes_of y) y with
      | Some 0 => true
      | _ => false
      end
  | _, _ => false
  end.

(** [UNIQUE (name, epoch, version, revision, variants)]: the row [new]
    that is being written has the key of the entry of the stored row [old]
    in [Autoindex_1]. *)
Definition same_name_key (db : sqlite3) (new old : port) : bool :=
  binary_eq (name new) (name old)
  && binary_eq (epoch new) (epoch old)
  && stored_eq (stored_version db Autoindex_1 old) (version old) (version new)
  && stored_eq (stored_revision db Autoindex_1 old) (revision old)
               (revision new)
  && binary_eq (variants new) (variants old).

(** [UNIQUE (url, epoch, version, revision, variants)], in [Autoindex_2]. *)
Definition same_url_key (db : sqlite3) (new old : port) : bool :=
  binary_eq (url new) (url old)
  && binary_eq (epoch new) (epoch old)
  && stored_eq (stored_version db Autoindex_2 old) (version old) (version new)
  && stored_eq (stored_revision db Autoindex_2 old) (revision old)
               (revision new)
  && binary_eq (variants new) (variants old).

(** Before the engine deletes or rewrites a row it looks up the entry of
    the row in an index with the values of the row itself; the lookup is
    decided by the comparison of these values with that entry, which has
    to say "equal" (two NULLs are equal here). *)
Definition found_eq (stored : string) (x : option string) : bool :=
  match x with
  | Some _ => stored_eq stored x x
  | None => true
  end.

Definition entry_found (db : sqlite3) (ix : index) (p : port) : bool :=
  found_eq (stored_version db ix p) (version p)
  && found_eq (stored_revision db ix p) (revision p).

(** The rowid given to a new row: one more than the largest in the table,
    1 in an empty table. *)
Definition next_rowid (ids : list Z) : Z :=
  fold_right Z.max 0 ids + 1.

(** What [sqlite3_step] returns once the statement has run, and, after an
    error, what [sqlite3_reset] returns (a statement prepared with
    [sqlite3_prepare] reports the specific code only there). *)
Inductive step_result :=
| Step_DONE
| Step_ERROR (reset_code : rc).

(** [INSERT INTO registry.ports (name, version, revision, variants, epoch)
     VALUES (?, ?, ?, ?, ?)]: refused when the comparison of the new row
    with the entry of a stored row in the index of a UNIQUE constraint
    says "equal"; the other columns of the new row are NULL. *)
Definition insert_port (db : sqlite3)
    (name version revision variants epoch : string) : sqlite3 * step_result :=
  let row := mkPort (next_rowid (map rowid (ports db))) (Some name) None None None
                    (Some epoch) (Some version) (Some revision)
                    (Some variants) None None in
  if existsb (fun old => same_name_key db row old || same_url_key db row old)
             (ports db)
  then (db, Step_ERROR SQLITE_CONSTRAINT)
  else (set_ports db (ports db ++ [row]) 1 (rowid row), Step_DONE).

(** The row [id] is there and the engine does not find its entry in one
    of the four indexes. *)
Definition entry_lost (db : sqlite3) (id : Z) : bool :=
  existsb (fun p => (rowid p =? id)
                    && negb (forallb (fun ix => entry_found db ix p)
                               [Autoindex_1; Autoindex_2; Port_name; Port_url]))
          (ports db).

(** [DELETE FROM registry.ports WHERE rowid=?]: the row goes, with its
    entries in the four indexes; when the engine does not find one of
    them the statement fails and changes nothing. *)
Definition delete_port (db : sqlite3) (id : Z) : sqlite3 * step_result :=
  if entry_lost db id then (db, Step_ERROR SQLITE_CORRUPT)
  else
    let kept := filter (fun p => negb (rowid p =? id)) (ports db) in
    (set_ports db kept
       (Z.of_nat (List.length (ports db)) - Z.of_nat (List.length kept))
       (last_insert_rowid db),
     Step_DONE).

(** [INSERT INTO registry.files (port_id, path) VALUES (?, ?)] *)
Definition insert_file (db : sqlite3) (id : Z) (p : string)
  : sqlite3 * step_result :=
  if existsb (fun f => String.eqb (path f) p) (files db)
  then (db, Step_ERROR SQLITE_CONSTRAINT)
  else
    let new := next_rowid (map file_rowid (files db)) in
    (set_files db (files db ++ [mkFile new id p None]) 1 new, Step_DONE).

(** [DELETE FROM registry.files WHERE port_id=? AND path=?] *)
Definition delete_file (db : sqlite3) (id : Z) (p : string)
  : sqlite3 * step_result :=
  let kept := filter (fun f => negb ((port_id f =? id) && String.eqb (path f) p))
                     (files db) in
  (set_files db kept
     (Z.of_nat (List.length (files db)) - Z.of_nat (List.length kept))
     (last_insert_rowid db),
   Step_DONE).

(** [SELECT proc FROM entry_procs WHERE entry_id=?], first row. *)
Definition select_proc (db : sqlite3) (id : Z) : option string :=
  option_map proc (find (fun r => entry_id r =? id) (entry_procs db)).

(** [INSERT INTO entry_procs (entry_id,proc) VALUES (?,?)] *)
Definition insert_proc (db : sqlite3) (id : Z) (nm : string)
  : sqlite3 * step_result :=
  if existsb (fun r => (entry_id r =? id) || String.eqb (proc r) nm)
             (entry_procs db)
  then (db, Step_ERROR SQLITE_CONSTRAINT)
  else
    let new := next_rowid (map proc_rowid (entry_procs db)) in
    (set_entry_procs db (entry_procs db ++ [mkProc new id nm]) 1 new,
     Step_DONE).

(** A column of [registry.ports] by name; [None] when there is no such
    column (the statement then fails to prepare). *)
Definition column (key : string) (p : port) : option (option string) :=
  if String.eqb key "name" then Some (name p)
  else if String.eqb key "portfile" then Some (portfile p)
  else if String.eqb key "url" then Some (url p)
  else if String.eqb key "location" then Some (location p)
  else if String.eqb key "epoch" then Some (epoch p)
  else if String.eqb key "version" then Some (version p)
  else if String.eqb key "revision" then Some (revision p)
  else if String.eqb key "variants" then Some (variants p)
  else if String.eqb key "date" then Some (date p)
  else if String.eqb key "state" then Some (state p)
  else None.

Definition is_column (key : string) : bool :=
  existsb (String.eqb key)
    ["name"; "portfile"; "url"; "location"; "epoch"; "version"; "revision";
     "variants"; "date"; "state"].

(** The column's collation decides what [=] means. *)
Definition column_eq (key : string) (v : option string) (lit : string) : bool :=
  if String.eqb key "version" || String.eqb key "revision"
  then version_eq v (Some lit)
  else binary_eq v (Some lit).

(** One condition [key op 'val'] on one row; [None] is a failing
    statement (an invalid REGEXP pattern). *)
Definition eval_cond (db : sqlite3) (p : port)
    (cond : string * operator * string) : option bool :=
  let '(key, op, lit) := cond in
  match column key p with
  | None => None
  | Some None => Some false
  | Some (Some v) =>
      match op with
      | OpEq => Some (column_eq key (Some v) lit)
      | OpGlob => Some (glob db lit v)
      | OpRegexp =>
          let r := sql_regexp db v lit in
          if r =? 1 then Some true else if r =? 0 then Some false else None
      end
  end.

(** [c1 AND c2 AND ...], left to right. *)
Fixpoint eval_where (db : sqlite3) (p : port)
    (conds : list (string * operator * string)) : option bool :=
  match conds with
  | [] => Some true
  | c :: conds' =>
      match eval_cond db p c with
      | None => None
      | Some false => Some false
      | Some true => eval_where db p conds'
      end
  end.

(** The rows of [l] that satisfy the WHERE clause, or [None] when the
    statement fails. *)
Fixpoint select_rows (db : sqlite3) (l : list port)
    (conds : list (string * operator * string)) : option (list port) :=
  match l with
  | [] => Some []
  | p :: l' =>
      match eval_where db p conds, select_rows db l' conds with
      | Some true, Some rows => Some (p :: rows)
      | Some false, Some rows => Some rows
      | _, _ => None
      end
  end.

(** Rows in the order of their places: [p] goes before the first row
    whose place is not before its own. *)
Fixpoint place (rank : port -> Z) (p : port) (l : list port) : list port :=
  match l with
  | [] => [p]
  | q :: l' => if rank p <=? rank q then p :: l else q :: place rank p l'
  end.

Definition in_order (rank : port -> Z) (l : list port) : list port :=
  fold_right (place rank) [] l.

(** [SELECT rowid FROM registry.ports WHERE ...]: the rowids [sqlite3_step]
    yields one by one, in the order of the engine, or [None] when the
    statement fails. *)
Definition select_rowid (db : sqlite3)
    (conds : list (string * operator * string)) : option (list Z) :=
  if forallb (fun c => is_column (fst (fst c))) conds
  then option_map (fun rows => map rowid (in_order (scan db conds) rows))
                  (select_rows db (ports db) conds)
  else None.

End Sqlite.

(* ================================================================= *)
(** ** centry.c *)

Module CEntry.

(** A result that C leaves undefined (a read of an object that was never
    assigned, a write past an allocation) is [Undefined]. *)
Inductive outcome (A : Type) :=
| Defined (a : A)
| Undefined.
Arguments Defined {A} a.
Arguments Undefined {A}.

(** The text of an error.  The engine's own message ([sqlite3_errmsg]) is
    not modelled, the query it is reported with is. *)
Inductive text :=
| Literal (s : string)
| Sqlite_message (query : option string)
| Could_not_find (type name : string)
| Already_exists (type name : string).

(** [reg_error]; a field nobody has assigned yet is [None]. *)
Record reg_error := mkError {
  code : option string;
  description : option text
}.

Definition no_error : reg_error := mkError None None.

(** [reg_entry]: the row identity.  Its [db] field is the one connection
    of the session. *)
Record reg_entry := mkEntry { rowid : Z }.

(** Copying [n] bytes of an array of pointers keeps the first
    [n / sizeof(void* )] of them; the rest of the new array is
    indeterminate. *)
Definition sizeof_pointer : Z := 8.

(** [reg_strcat]: [dst] holds [dst_len] bytes in an allocation of
    [dst_space] bytes, which is doubled at most once; [None] when the
    copy of [src] and its NUL does not fit in it. *)
Definition reg_strcat (dst : string) (dst_len dst_space : Z) (src : string)
  : option (string * Z * Z) :=
  let src_len := Z.of_nat (String.length src) in
  let dst_space' :=
    if dst_len + src_len >=? dst_space then dst_space * 2 else dst_space in
  if dst_len + src_len + 1 <=? dst_space'
  then Some (dst ++ src, dst_len + src_len, dst_space')
  else None.

(** [reg_listcat]: when the array is full, a new one of twice the space is
    allocated and [memcpy(new_dst, old_dst, *dst_len)] copies [dst_len]
    bytes of the old one into it. *)
Definition reg_listcat {A : Type} (dst : list (option A)) (dst_len dst_space : Z)
    (src : A) : list (option A) * Z * Z :=
  if dst_len =? dst_space then
    let kept := Z.to_nat (dst_len / sizeof_pointer) in
    ((firstn kept dst ++ repeat None (List.length dst - kept)%nat
        ++ [Some src])%list,
     dst_len + 1, dst_space * 2)
  else ((dst ++ [Some src])%list, dst_len + 1, dst_space).

(** [reg_strategy_op] *)
Definition reg_strategy_op (strategy : Z) (err : reg_error)
  : option (Sqlite.operator * string) * reg_error :=
  if strategy =? 0 then (Some (Sqlite.OpEq, "="), err)
  else if strategy =? 1 then (Some (Sqlite.OpGlob, " GLOB "), err)
  else if strategy =? 2 then (Some (Sqlite.OpRegexp, " REGEXP "), err)
  else (None, mkError (Some "registry::invalid-strategy")
                      (Some (Literal "invalid matching strategy specified"))).

(** [reg_sqlite_error] *)
Definition reg_sqlite_error (query : option string) : reg_error :=
  mkError (Some "registry::sqlite-error") (Some (Sqlite_message query)).

(** [reg_entry_create] *)
Definition reg_entry_create (db : Sqlite.sqlite3)
    (name version revision variants epoch : string) (err : reg_error)
  : Sqlite.sqlite3 * option reg_entry * reg_error :=
  let query := "INSERT INTO registry.ports (name, version, revision, variants, epoch) VALUES (?, ?, ?, ?, ?)" in
  match Sqlite.insert_port db name version revision variants epoch with
  | (db', Sqlite.Step_DONE) =>
      let rowid := Sqlite.last_insert_rowid db' in
      (db', Some (mkEntry rowid), err)
  | (db', Sqlite.Step_ERROR _) =>
      (db', None, reg_sqlite_error (Some query))
  end.

(** The [for] loop of [reg_entry_delete], from index [i] on; [entries] are
    the entries from that index to [entry_count]. *)
Fixpoint reg_entry_delete_from (db : Sqlite.sqlite3) (entries : list reg_entry)
    (i : Z) (err : reg_error) : Sqlite.sqlite3 * Z * reg_error :=
  match entries with
  | [] => (db, i, err)
  | e :: entries' =>
      match Sqlite.delete_port db (rowid e) with
      | (db', Sqlite.Step_DONE) =>
          if Sqlite.changes db' =? 0
          then (db', i,
                mkError (Some "registry::invalid-entry")
                        (Some (Literal "an invalid entry was passed")))
          else reg_entry_delete_from db' entries' (i + 1) err
      | (db', Sqlite.Step_ERROR _) =>
          (db', i,
           reg_sqlite_error (Some "DELETE FROM registry.ports WHERE rowid=?"))
      end
  end.

(** [reg_entry_delete]: returns the number actually deleted. *)
Definition reg_entry_delete (db : Sqlite.sqlite3) (entries : list reg_entry)
    (err : reg_error) : Sqlite.sqlite3 * Z * reg_error :=
  reg_entry_delete_from db entries 0 err.

(** [%q]: every single quote is doubled. *)
Fixpoint sql_quote (s : string) : string :=
  match s with
  | EmptyString => EmptyString
  | String c s' =>
      if Ascii.eqb c "'"%char then String c (String c (sql_quote s'))
      else String c (sql_quote s')
  end.

(** The query under construction: its text with the bookkeeping of
    [reg_strcat], and the conditions the text stands for. *)
Record query_buffer := mkQuery {
  query : string;
  query_len : Z;
  query_space : Z;
  conditions : list (string * Sqlite.operator * string)
}.

(** The loop of [reg_entry_search] that builds the query, from index [i]
    on, [n] iterations to go.  [keys] and [vals] are the caller's arrays;
    a slot the caller never assigned is [None]. *)
Fixpoint reg_entry_search_build (keys vals : list (option string))
    (op : Sqlite.operator * string) (n : nat) (i : nat) (kwd : string)
    (q : query_buffer) : outcome query_buffer :=
  match n with
  | O => Defined q
  | S n' =>
      match nth_error keys i, nth_error vals i with
      | Some (Some key), Some (Some val) =>
          let cond := kwd ++ key ++ snd op ++ "'" ++ sql_quote val ++ "'" in
          match reg_strcat (query q) (query_len q) (query_space q) cond with
          | Some (text, len, space) =>
              reg_entry_search_build keys vals op n' (S i) " AND "
                (mkQuery text len space
                   (conditions q ++ [(key, fst op, val)])%list)
          | None => Undefined
          end
      | _, _ => Undefined
      end
  end.

(** The loop of [reg_all_objects] over the rows of the statement, with
    [reg_stmt_to_entry] as the cast. *)
Fixpoint reg_all_objects_rows (ids : list Z) (results : list (option reg_entry))
    (result_count result_space : Z) : list (option reg_entry) * Z :=
  match ids with
  | [] => (results, result_count)
  | id :: ids' =>
      let '(results', count', space') :=
        reg_listcat results result_count result_space (mkEntry id) in
      reg_all_objects_rows ids' results' count' space'
  end.

(** [reg_all_objects] for the queries of [reg_entry_search]: the number of
    objects (-1 after an error) and the array of them. *)
Definition reg_all_objects (db : Sqlite.sqlite3) (q : query_buffer)
    (err : reg_error) : Z * list (option reg_entry) * reg_error :=
  match Sqlite.select_rowid db (conditions q) with
  | Some ids =>
      let '(results, count) := reg_all_objects_rows ids [] 0 10 in
      (count, results, err)
  | None => (-1, [], reg_sqlite_error (Some (query q)))
  end.

(** [reg_entry_search] *)
Definition reg_entry_search (db : Sqlite.sqlite3)
    (keys vals : list (option string)) (key_count : Z) (strategy : Z)
    (err : reg_error) : outcome (Z * list (option reg_entry) * reg_error) :=
  match reg_strategy_op strategy err with
  | (None, err') => Defined (-1, [], err')
  | (Some op, err') =>
      match reg_strcat "" 0 32 "SELECT rowid FROM registry.ports" with
      | None => Undefined
      | Some (text, len, space) =>
          match reg_entry_search_build keys vals op (Z.to_nat key_count) 0
                  " WHERE " (mkQuery text len space []) with
          | Undefined => Undefined
          | Defined q => Defined (reg_all_objects db q err')
          end
      end
  end.

(** The [for] loop of [reg_entry_map], from index [i] on. *)
Fixpoint reg_entry_map_from (db : Sqlite.sqlite3) (entry : reg_entry)
    (files : list string) (i : Z) (err : reg_error)
  : Sqlite.sqlite3 * Z * reg_error :=
  match files with
  | [] => (db, i, err)
  | f :: files' =>
      match Sqlite.insert_file db (rowid entry) f with
      | (db', Sqlite.Step_DONE) => reg_entry_map_from db' entry files' (i + 1) err
      | (db', Sqlite.Step_ERROR Sqlite.SQLITE_CONSTRAINT) =>
          (db', i,
           mkError (Some "registry::already-owned")
                   (Some (Literal "mapped file is already owned by another entry")))
      | (db', Sqlite.Step_ERROR _) =>
          (db', i,
           reg_sqlite_error
             (Some "INSERT INTO registry.files (port_id, path) VALUES (?, ?)"))
      end
  end.

(** [reg_entry_map]: returns the number of files mapped. *)
Definition reg_entry_map (db : Sqlite.sqlite3) (entry : reg_entry)
    (files : list string) (err : reg_error) : Sqlite.sqlite3 * Z * reg_error :=
  reg_entry_map_from db entry files 0 err.

(** The [for] loop of [reg_entry_unmap], from index [i] on.  When nothing
    was deleted the code assigns [errPtr->code] twice and leaves
    [errPtr->description] as it was. *)
Fixpoint reg_entry_unmap_from (db : Sqlite.sqlite3) (entry : reg_entry)
    (files : list string) (i : Z) (err : reg_error)
  : Sqlite.sqlite3 * Z * reg_error :=
  match files with
  | [] => (db, i, err)
  | f :: files' =>
      match Sqlite.delete_file db (rowid entry) f with
      | (db', Sqlite.Step_DONE) =>
          if Sqlite.changes db' =? 0 then
            let err1 := mkError (Some "registry::not-owned") (description err) in
            let err2 := mkError (Some "this entry does not own the given file")
                                (description err1) in
            (db', i, err2)
          else reg_entry_unmap_from db' entry files' (i + 1) err
      | (db', Sqlite.Step_ERROR _) =>
          (db', i,
           reg_sqlite_error
             (Some "DELETE FROM registry.files WHERE port_id=? AND path=?"))
      end
  end.

(** [reg_entry_unmap]: returns the number of files unmapped. *)
Definition reg_entry_unmap (db : Sqlite.sqlite3) (entry : reg_entry)
    (files : list string) (err : reg_error) : Sqlite.sqlite3 * Z * reg_error :=
  reg_entry_unmap_from db entry files 0 err.

End CEntry.

(* ================================================================= *)
(** ** The scripting host, util.c and registry.c *)

Module Util.

Inductive status := TCL_OK | TCL_ERROR.

(** What a command leaves as the interpreter's result. *)
Inductive result :=
| String_result (s : string)
| List_result (l : list string)
| Wrong_num_args (message : string)
| Bad_index (what key : string)
| Sqlite_result (query : option string)
| Error_text (t : CEntry.text).

(** The reply of a command: its status, the result, and the error code
    set with [Tcl_SetErrorCode]. *)
Record reply := mkReply {
  reply_status : status;
  reply_result : result;
  reply_code : option string
}.

(** A command of the interpreter: an entry object ([objProc] is
    [entry_obj_cmd], [objClientData] the [reg_entry]), or any other
    command. *)
Inductive command :=
| Entry_obj_cmd (clientData : CEntry.reg_entry)
| Other_cmd.

(** The session: the command table and the association data
    ["registry::db"] and ["registry::attached"]. *)
Record Tcl_Interp := mkInterp {
  commands : list (string * command);
  db : Sqlite.sqlite3;
  attached : bool
}.

Definition set_db (interp : Tcl_Interp) (d : Sqlite.sqlite3) : Tcl_Interp :=
  mkInterp (commands interp) d (attached interp).

Definition set_commands (interp : Tcl_Interp) (l : list (string * command))
  : Tcl_Interp :=
  mkInterp l (db interp) (attached interp).

Definition Tcl_GetCommandInfo (interp : Tcl_Interp) (name : string)
  : option command :=
  option_map snd (find (fun c => String.eqb (fst c) name) (commands interp)).

Definition Tcl_DeleteCommand (interp : Tcl_Interp) (name : string)
  : Tcl_Interp :=
  set_commands interp
    (filter (fun c => negb (String.eqb (fst c) name)) (commands interp)).

(** A command of the same name is deleted first. *)
Definition Tcl_CreateObjCommand (interp : Tcl_Interp) (name : string)
    (c : command) : Tcl_Interp :=
  set_commands interp
    ((filter (fun c => negb (String.eqb (fst c) name)) (commands interp))
       ++ [(name, c)]).

(** [Tcl_GetIndexFromObj] without TCL_EXACT: an exact match, or else the
    only entry of which the non-empty key is an abbreviation. *)
Fixpoint index_where {A : Type} (f : A -> bool) (l : list A) (i : nat)
  : list nat :=
  match l with
  | [] => []
  | x :: l' => if f x then i :: index_where f l' (S i) else index_where f l' (S i)
  end.

Definition Tcl_GetIndexFromObj (table : list string) (key : string)
  : option nat :=
  match index_where (String.eqb key) table 0 with
  | i :: _ => Some i
  | [] =>
      match key, index_where (String.prefix key) table 0 with
      | String _ _, [i] => Some i
      | _, _ => None
      end
  end.

(** [sprintf(result, "%s%d", prefix, i)] *)
Definition name_of (prefix : string) (i : nat) : string :=
  prefix ++ NilEmpty.string_of_uint (Nat.to_uint i).

(** [unique_name]: the loop over [i]; the fuel bounds the number of names
    tried. *)
Fixpoint unique_name_from (fuel : nat) (interp : Tcl_Interp) (prefix : string)
    (i : nat) : option string :=
  match fuel with
  | O => None
  | S fuel' =>
      match Tcl_GetCommandInfo interp (name_of prefix i) with
      | None => Some (name_of prefix i)
      | Some _ => unique_name_from fuel' interp prefix (S i)
      end
  end.

(** Among the first [n + 1] names at least one is free when the
    interpreter has [n] commands. *)
Definition unique_name (interp : Tcl_Interp) (prefix : string)
  : option string :=
  unique_name_from (S (List.length (commands interp))) interp prefix 0.

(** [get_object] with [entry_obj_cmd] as [proc]. *)
Definition get_object (interp : Tcl_Interp) (name type : string)
    (err : CEntry.reg_error) : option CEntry.reg_entry * CEntry.reg_error :=
  match Tcl_GetCommandInfo interp name with
  | Some (Entry_obj_cmd e) => (Some e, err)
  | _ =>
      (None, CEntry.mkError (Some "registry::not-found")
                            (Some (CEntry.Could_not_find type name)))
  end.

(** [set_object] with [entry_obj_cmd] as [proc].  The code tests
    [info.objProc == proc] whatever [Tcl_GetCommandInfo] returned; when no
    command has the name, [info] was never written, and the model takes
    the test to fail (the name is free, which is the case the callers
    prepare with [unique_name]). *)
Definition set_object (interp : Tcl_Interp) (name : string)
    (value : CEntry.reg_entry) (type : string) (err : CEntry.reg_error)
  : Tcl_Interp * bool * CEntry.reg_error :=
  match Tcl_GetCommandInfo interp name with
  | Some (Entry_obj_cmd _) =>
      (interp, false,
       CEntry.mkError (Some "registry::duplicate-object")
                      (Some (CEntry.Already_exists type name)))
  | _ => (Tcl_CreateObjCommand interp name (Entry_obj_cmd value), true, err)
  end.

(** [registry_db]: the connection of the session; with [attached] set,
    only when a registry is attached. *)
Definition registry_db (interp : Tcl_Interp) (attached : bool)
  : option Sqlite.sqlite3 :=
  if attached && negb (Util.attached interp) then None else Some (db interp).

End Util.

(* ================================================================= *)
(** ** entryobj.c *)

Module EntryObj.

Import Util.

(** The double quote character, as a string. *)
Definition dquote : string := String (Ascii.ascii_of_nat 34) EmptyString.

(** The conversion of a [sqlite_int64] argument to the [int] parameter of
    [sqlite3_bind_int]. *)
Definition to_int (x : Z) : Z := (x + 2 ^ 31) mod 2 ^ 32 - 2 ^ 31.

(** The loop of [entry_obj_map] over [objv[2]], [objv[3]], ... *)
Fixpoint entry_obj_map_from (db : Sqlite.sqlite3) (entry : CEntry.reg_entry)
    (paths : list string) : Sqlite.sqlite3 * reply :=
  match paths with
  | [] => (db, mkReply TCL_OK (String_result "") None)
  | path :: paths' =>
      match Sqlite.insert_file db (to_int (CEntry.rowid entry)) path with
      | (db', Sqlite.Step_DONE) => entry_obj_map_from db' entry paths'
      | (db', Sqlite.Step_ERROR _) =>
          (db', mkReply TCL_ERROR
                  (Sqlite_result
                     (Some "INSERT INTO files (port_id, path) VALUES (?, ?)"))
                  None)
      end
  end.

(** [entry_obj_map]: [${entry} map ?file ...?] *)
Definition entry_obj_map (interp : Tcl_Interp) (entry : CEntry.reg_entry)
    (objv : list string) : Tcl_Interp * reply :=
  let '(db', r) := entry_obj_map_from (db interp) entry (skipn 2 objv) in
  (set_db interp db', r).

(** The loop of [entry_obj_unmap] over [objv[2]], [objv[3]], ... *)
Fixpoint entry_obj_unmap_from (db : Sqlite.sqlite3) (entry : CEntry.reg_entry)
    (paths : list string) : Sqlite.sqlite3 * reply :=
  match paths with
  | [] => (db, mkReply TCL_OK (String_result "") None)
  | path :: paths' =>
      match Sqlite.delete_file db (to_int (CEntry.rowid entry)) path with
      | (db', Sqlite.Step_DONE) =>
          if Sqlite.changes db' =? 0
          then (db', mkReply TCL_ERROR
                       (String_result (path ++ " is not mapped to this entry"))
                       None)
          else entry_obj_unmap_from db' entry paths'
      | (db', Sqlite.Step_ERROR Sqlite.SQLITE_CONSTRAINT) =>
          (db', mkReply TCL_ERROR
                  (String_result
                     ("an existing port owns " ++ dquote ++ path ++ dquote))
                  None)
      | (db', Sqlite.Step_ERROR _) =>
          (db', mkReply TCL_ERROR
                  (Sqlite_result
                     (Some "DELETE FROM files WHERE port_id=? AND path=?"))
                  None)
      end
  end.

(** [entry_obj_unmap]: [${entry} unmap ?file ...?] *)
Definition entry_obj_unmap (interp : Tcl_Interp) (entry : CEntry.reg_entry)
    (objv : list string) : Tcl_Interp * reply :=
  let '(db', r) := entry_obj_unmap_from (db interp) entry (skipn 2 objv) in
  (set_db interp db', r).

End EntryObj.

(* ================================================================= *)
(** ** entry.c *)

Module Entry.

Import Util.
Import CEntry.

Definition entry_props : list string :=
  ["name"; "portfile"; "url"; "location"; "epoch"; "version"; "revision";
   "variants"; "date"; "state"].

(** [registry_failed] reads both fields of the error. *)
Definition registry_failed (err : reg_error) : outcome reply :=
  match description err, code err with
  | Some d, Some c => Defined (mkReply TCL_ERROR (Error_text d) (Some c))
  | _, _ => Undefined
  end.

Definition get_entry (interp : Tcl_Interp) (name : string) (err : reg_error)
  : option reg_entry * reg_error :=
  get_object interp name "entry" err.

Definition set_entry (interp : Tcl_Interp) (name : string) (entry : reg_entry)
    (err : reg_error) : Tcl_Interp * bool * reg_error :=
  set_object interp name entry "entry" err.

Definition not_open : reply :=
  mkReply TCL_ERROR (String_result "registry is not open") None.

(** [entry_create]:
    [registry::entry create portname version revision variants epoch] *)
Definition entry_create (interp : Tcl_Interp) (objv : list string)
  : outcome (Tcl_Interp * reply) :=
  let db := registry_db interp true in
  match objv with
  | [_; _; name; version; revision; variants; epoch] =>
      match db with
      | None => Defined (interp, not_open)
      | Some db =>
          let '(db1, entry, error) :=
            reg_entry_create db name version revision variants epoch no_error in
          let interp1 := set_db interp db1 in
          match entry with
          | Some entry =>
              match unique_name interp1 "registry::entry" with
              | None => Undefined
              | Some name =>
                  match set_entry interp1 name entry error with
                  | (interp2, true, _) =>
                      Defined (interp2, mkReply TCL_OK (String_result name) None)
                  | (interp2, false, error') =>
                      let '(db2, _, _) :=
                        reg_entry_delete (Util.db interp2) [entry] no_error in
                      match registry_failed error' with
                      | Defined r => Defined (set_db interp2 db2, r)
                      | Undefined => Undefined
                      end
                  end
              end
          | None =>
              match registry_failed error with
              | Defined r => Defined (interp1, r)
              | Undefined => Undefined
              end
          end
      end
  | _ =>
      Defined (interp,
               mkReply TCL_ERROR
                 (Wrong_num_args "name version revision variants epoch") None)
  end.

(** [entry_to_obj]: the name of the command that stands for [entry]. *)
Definition entry_to_obj (interp : Tcl_Interp) (entry : reg_entry)
    (err : reg_error) : outcome (Tcl_Interp * option string * reg_error) :=
  match registry_db interp false with
  | None => Defined (interp, None, err)
  | Some db =>
      match Sqlite.select_proc db (rowid entry) with
      | Some name => Defined (interp, Some name, err)
      | None =>
          match unique_name interp "registry::entry" with
          | None => Undefined
          | Some name =>
              match set_entry interp name entry err with
              | (interp1, true, err1) =>
                  let '(db1, _) :=
                    Sqlite.insert_proc (Util.db interp1) (rowid entry) name in
                  Defined (set_db interp1 db1, Some name, err1)
              | (interp1, false, err1) => Defined (interp1, None, err1)
              end
          end
      end
  end.

(** [recast] with [entry_to_obj] as the cast: [None] for the objects when
    a cast failed (the caller's array is then never assigned).  An element
    of [inv] that is indeterminate cannot be read. *)
Fixpoint recast_entry_to_obj (interp : Tcl_Interp)
    (inv : list (option reg_entry)) (err : reg_error)
  : outcome (Tcl_Interp * option (list string) * reg_error) :=
  match inv with
  | [] => Defined (interp, Some [], err)
  | None :: _ => Undefined
  | Some entry :: inv' =>
      match entry_to_obj interp entry err with
      | Undefined => Undefined
      | Defined (interp1, None, err1) => Defined (interp1, None, err1)
      | Defined (interp1, Some obj, err1) =>
          match recast_entry_to_obj interp1 inv' err1 with
          | Defined (interp2, Some objs, err2) =>
              Defined (interp2, Some (obj :: objs), err2)
          | other => other
          end
      end
  end.

(** The keys of [objv[2]], [objv[4]], ..., checked against [entry_props]:
    the first key that is not recognized, if any. *)
Fixpoint first_bad_key (args : list string) : option string :=
  match args with
  | key :: _ :: args' =>
      match Tcl_GetIndexFromObj entry_props key with
      | Some _ => first_bad_key args'
      | None => Some key
      end
  | _ => None
  end.

(** [for (i=0; i<key_count; i+=2) { keys[i] = objv[2*i+2];
    vals[i] = objv[2*i+3]; }] on arrays fresh from [malloc], [n] tests of
    the loop condition to go. *)
Fixpoint fill_keys (objv : list string) (key_count : nat) (n : nat) (i : nat)
    (keys vals : list (option string))
  : list (option string) * list (option string) :=
  match n with
  | O => (keys, vals)
  | S n' =>
      if (i <? key_count)%nat then
        fill_keys objv key_count n' (i + 2)%nat
          (firstn i keys ++ nth_error objv (2 * i + 2) :: skipn (S i) keys)%list
          (firstn i vals ++ nth_error objv (2 * i + 3) :: skipn (S i) vals)%list
      else (keys, vals)
  end.

(** [entry_search]: [registry::entry search ?key value ...?] *)
Definition entry_search (interp : Tcl_Interp) (objv : list string)
  : outcome (Tcl_Interp * reply) :=
  let objc := List.length objv in
  let db := registry_db interp true in
  if Nat.eqb (objc mod 2) 1 then
    Defined (interp,
             mkReply TCL_ERROR (Wrong_num_args "search ?key value ...?") None)
  else
    match db with
    | None => Defined (interp, not_open)
    | Some db =>
        let key_count := (objc / 2 - 1)%nat in
        match first_bad_key (skipn 2 objv) with
        | Some key =>
            Defined (interp, mkReply TCL_ERROR (Bad_index "search key" key) None)
        | None =>
            let '(keys, vals) :=
              fill_keys objv key_count (S key_count) 0
                (repeat None key_count) (repeat None key_count) in
            match reg_entry_search db keys vals (Z.of_nat key_count) 0
                    no_error with
            | Undefined => Undefined
            | Defined (entry_count, entries, error) =>
                if entry_count >=? 0 then
                  match recast_entry_to_obj interp entries error with
                  | Defined (interp1, Some objs, _) =>
                      Defined (interp1, mkReply TCL_OK (List_result objs) None)
                  | _ => Undefined
                  end
                else
                  match registry_failed error with
                  | Defined r => Defined (interp, r)
                  | Undefined => Undefined
                  end
            end
        end
    end.

(** The loop of [entry_close] over [objv[2]], [objv[3]], ... *)
Fixpoint entry_close_from (interp : Tcl_Interp) (procs : list string)
  : outcome (Tcl_Interp * reply) :=
  match procs with
  | [] => Defined (interp, mkReply TCL_OK (String_result "") None)
  | proc :: procs' =>
      match get_entry interp proc no_error with
      | (None, error) =>
          match registry_failed error with
          | Defined r => Defined (interp, r)
          | Undefined => Undefined
          end
      | (Some _, _) => entry_close_from (Tcl_DeleteCommand interp proc) procs'
      end
  end.

(** [entry_close]: [registry::entry close ?entry ...?] *)
Definition entry_close (interp : Tcl_Interp) (objv : list string)
  : outcome (Tcl_Interp * reply) :=
  entry_close_from interp (skipn 2 objv).

End Entry.

(* ================================================================= *)
(** ** The vocabulary of the specification, and sample registries *)

Module Spec.

Import Sqlite.

(** The FileOwnership rows as (path, owner) pairs. *)
Definition bindings (db : sqlite3) : list (string * Z) :=
  map (fun f => (path f, port_id f)) (files db).

(** [path] is owned by some entry. *)
Definition owned (db : sqlite3) (p : string) : bool :=
  existsb (fun f => String.eqb (path f) p) (files db).

(** [path] is owned by the entry of identity [id]. *)
Definition owned_by (db : sqlite3) (id : Z) (p : string) : bool :=
  existsb (fun f => (port_id f =? id) && String.eqb (path f) p) (files db).

(** The registry has an entry of identity [id]. *)
Definition has_entry (db : sqlite3) (id : Z) : bool :=
  existsb (fun p => rowid p =? id) (ports db).

(** The rows [DELETE ... WHERE port_id=id AND path=p] keeps. *)
Definition keeps (id : Z) (p : string) (f : file) : bool :=
  negb ((port_id f =? id) && String.eqb (path f) p).

(** The rows left when every path of [done] has been unmapped from
    [id]. *)
Definition without (id : Z) (done : list string) (f : file) : bool :=
  negb ((port_id f =? id) && existsb (String.eqb (path f)) done).

(** What the two unmap loops have in common: the paths of [pre] are owned
    by the entry and distinct, [q] is not owned by the entry when its turn
    comes. *)
Definition first_unowned (db : sqlite3) (id : Z) (pre : list string)
    (q : string) : Prop :=
  NoDup pre
  /\ (forall p, In p pre -> owned_by db id p = true)
  /\ (owned_by db id q = false \/ In q pre).

(** The row that [create] writes. *)
Definition new_port (id : Z) (name version revision variants epoch : string)
  : port :=
  mkPort id (Some name) None None None (Some epoch) (Some version)
         (Some revision) (Some variants) None None.

(** The error codes of centry.c. *)
Definition already_owned : CEntry.reg_error :=
  CEntry.mkError (Some "registry::already-owned")
    (Some (CEntry.Literal "mapped file is already owned by another entry")).



(** C3 as the specification states it, for one call of [reg_entry_map]:
    when a path of the batch is already owned, the call fails with the
    already-owned error and the entry owns no path of the batch
    afterwards. *)
Definition map_all_or_nothing (db : sqlite3) (entry : CEntry.reg_entry)
    (batch : list string) : Prop :=
  (exists p, In p batch /\ owned db p = true) ->
  let '(db', _, err) := CEntry.reg_entry_map db entry batch CEntry.no_error in
  CEntry.code err = Some "registry::already-owned"
  /\ forall p, In p batch -> owned_by db' (CEntry.rowid entry) p = false.



(** The engine of the samples.  Behind every index entry the memory
    holds the byte "U" and then a zero byte; a statement yields the rows
    by state (NULL, then "active", then the others), rows of one state in
    the order of the table, as an engine does that reads them off the
    index [port_state]. *)
Definition heap : index -> Z -> string := fun _ _ => "U".

Definition by_state (conds : list (string * operator * string)) (p : port)
  : Z :=
  match state p with
  | None => 0
  | Some s => if String.eqb s "active" then 1 else 2
  end.

(** A registry with no rows. *)
Definition empty_db : sqlite3 :=
  mkDb [] [] [] 0 0 (fun _ _ => false) (fun _ _ => 0) heap by_state.

(** A registry where entry 2 owns "/usr/bin/y". *)
Definition db_y_owned : sqlite3 :=
  mkDb [new_port 1 "vim" "7.1.000" "0" "" "0";
        new_port 2 "zlib" "1.2.3" "1" "" "0"]
       [mkFile 1 2 "/usr/bin/y" None] [] 0 0
       (fun _ _ => false) (fun _ _ => 0) heap by_state.

(** A registry where entry 1 owns "/usr/bin/x". *)
Definition db_x_owned : sqlite3 :=
  mkDb [new_port 1 "vim" "7.1.000" "0" "" "0"]
       [mkFile 1 1 "/usr/bin/x" None] [] 0 0
       (fun _ _ => false) (fun _ _ => 0) heap by_state.

(** A session whose command "registry::entry0" stands for entry 1 of
    [db_x_owned]. *)
Definition session_entry0 : Util.Tcl_Interp :=
  Util.mkInterp [("registry::entry0", Util.Entry_obj_cmd (CEntry.mkEntry 1))]
                db_x_owned true.

(** A row with a state. *)
Definition port_in_state (id : Z)
    (name version revision variants epoch state : string) : port :=
  mkPort id (Some name) None None None (Some epoch) (Some version)
         (Some revision) (Some variants) (Some state) None.

(** The registry of tests/entry.tcl, which is the end-to-end scenario of
    the specification. *)
Definition db_five : sqlite3 :=
  mkDb [port_in_state 1 "vim" "7.1.000" "0" "multibyte +" "0" "installed";
        port_in_state 2 "vim" "7.1.002" "0" "" "0" "installed";
        port_in_state 3 "vim" "7.1.002" "0" "multibyte +" "0" "active";
        port_in_state 4 "zlib" "1.2.3" "1" "" "0" "active";
        port_in_state 5 "pcre" "7.1" "1" "utf8 +" "0" "installed"]
       [] [] 0 0 (fun _ _ => false) (fun _ _ => 0) heap by_state.


(** A row satisfies [key = 'lit'] under the collation of the column. *)
Definition satisfies (p : port) (cond : string * string) : bool :=
  match column (fst cond) p with
  | Some (Some v) => column_eq (fst cond) (Some v) (snd cond)
  | _ => false
  end.

(** The rowids of the rows that satisfy every condition. *)
Definition matching (db : sqlite3) (conds : list (string * string)) : list Z :=
  map rowid (filter (fun p => forallb (satisfies p) conds) (ports db)).

(** A session with the attached registry [db] and no entry objects. *)
Definition session (db : sqlite3) : Util.Tcl_Interp :=
  Util.mkInterp [] db true.

End Spec.

(* ================================================================= *)
(** ** More statements of the storage engine *)

Module Statements.

Import Sqlite.

(** [SELECT port_id FROM files WHERE path=?], first row. *)
Definition select_port_id (db : sqlite3) (p : string) : option Z :=
  option_map port_id (find (fun f => String.eqb (path f) p) (files db)).

(** [SELECT path FROM files WHERE port_id=?], every row. *)
Definition select_path (db : sqlite3) (id : Z) : list string :=
  map path (filter (fun f => port_id f =? id) (files db)).

(** What the first [sqlite3_step] of a SELECT of one column gives: the
    statement does not prepare, there is no row, or the column of the
    first row (NULL is [None]). *)
Inductive select_result :=
| Select_error
| Select_done
| Select_row (v : option string).

(** [SELECT <key> FROM registry.ports WHERE rowid='<id>'] *)
Definition select_column (db : sqlite3) (key : string) (id : Z)
  : select_result :=
  match find (fun p => rowid p =? id) (ports db) with
  | Some p =>
      match column key p with
      | Some v => Select_row v
      | None => Select_error
      end
  | None => if is_column key then Select_done else Select_error
  end.

(** The row [p] with the text [v] in the column [key]. *)
Definition set_column (key v : string) (p : port) : port :=
  if String.eqb key "name" then
    mkPort (rowid p) (Some v) (portfile p) (url p) (location p) (epoch p)
           (version p) (revision p) (variants p) (state p) (date p)
  else if String.eqb key "portfile" then
    mkPort (rowid p) (name p) (Some v) (url p) (location p) (epoch p)
           (version p) (revision p) (variants p) (state p) (date p)
  else if String.eqb key "url" then
    mkPort (rowid p) (name p) (portfile p) (Some v) (location p) (epoch p)
           (version p) (revision p) (variants p) (state p) (date p)
  else if String.eqb key "location" then
    mkPort (rowid p) (name p) (portfile p) (url p) (Some v) (epoch p)
           (version p) (revision p) (variants p) (state p) (date p)
  else if String.eqb key "epoch" then
    mkPort (rowid p) (name p) (portfile p) (url p) (location p) (Some v)
           (version p) (revision p) (variants p) (state p) (date p)
  else if String.eqb key "version" then
    mkPort (rowid p) (name p) (portfile p) (url p) (location p) (epoch p)
           (Some v) (revision p) (variants p) (state p) (date p)
  else if String.eqb key "revision" then
    mkPort (rowid p) (name p) (portfile p) (url p) (location p) (epoch p)
           (version p) (Some v) (variants p) (state p) (date p)
  else if String.eqb key "variants" then
    mkPort (rowid p) (name p) (portfile p) (url p) (location p) (epoch p)
           (version p) (revision p) (Some v) (state p) (date p)
  else if String.eqb key "date" then
    mkPort (rowid p) (name p) (portfile p) (url p) (location p) (epoch p)
           (version p) (revision p) (variants p) (state p) (Some v)
  else if String.eqb key "state" then
    mkPort (rowid p) (name p) (portfile p) (url p) (location p) (epoch p)
           (version p) (revision p) (variants p) (Some v) (date p)
  else p.

(** The columns of the two UNIQUE constraints. *)
Definition in_name_key (key : string) : bool :=
  existsb (String.eqb key) ["name"; "epoch"; "version"; "revision"; "variants"].

Definition in_url_key (key : string) : bool :=
  existsb (String.eqb key) ["url"; "epoch"; "version"; "revision"; "variants"].

(** The written row [new] would have, in a constraint that the written
    column [key] belongs to, the key of a row of another identity. *)
Definition collides (db : sqlite3) (key : string) (id : Z) (new : port)
  : bool :=
  existsb (fun old => negb (rowid old =? id)
                      && ((in_name_key key && same_name_key db new old)
                          || (in_url_key key && same_url_key db new old)))
          (ports db).

(** The engine rewrites the entries of the row [p] in the indexes that
    hold the written column [key], and does not find one of them. *)
Definition stale (db : sqlite3) (key : string) (p : port) : bool :=
  (in_name_key key
   && negb (entry_found db Autoindex_1 p && entry_found db Port_name p))
  || (in_url_key key
      && negb (entry_found db Autoindex_2 p && entry_found db Port_url p)).

(** [UPDATE registry.ports SET <key>='<value>' WHERE rowid='<id>']: the
    statement does not prepare when there is no such column, and changes
    nothing when the engine does not find an index entry it has to
    rewrite, or when a written row violates a UNIQUE constraint that the
    column belongs to. *)
Definition update_column (db : sqlite3) (key : string) (id : Z)
    (value : string) : sqlite3 * step_result :=
  if is_column key then
    if existsb (fun p => (rowid p =? id) && stale db key p) (ports db)
    then (db, Step_ERROR SQLITE_CORRUPT)
    else if existsb (fun p => (rowid p =? id)
                         && collides db key id (set_column key value p))
               (ports db)
    then (db, Step_ERROR SQLITE_CONSTRAINT)
    else
      (set_ports db
         (map (fun p => if rowid p =? id then set_column key value p else p)
              (ports db))
         (Z.of_nat (List.length (filter (fun p => rowid p =? id) (ports db))))
         (last_insert_rowid db),
       Step_DONE)
  else (db, Step_ERROR SQLITE_ERROR).

End Statements.

(* ================================================================= *)
(** ** centry.c, the functions around the search and the file map *)

Module CEntryQueries.

Import CEntry.

(** A [char*] argument that may be NULL; the arrays of
    [reg_entry_installed] and [reg_entry_active] hold it as it is, and
    [None] stands for the NULL there. *)
Definition nullable := option string.

(** The choice of [key_count] in [reg_entry_installed] and
    [reg_entry_active]. *)
Definition installed_key_count (name version : nullable) : Z :=
  match name, version with
  | None, _ => 1
  | Some _, None => 2
  | Some _, Some _ => 3
  end.

(** The [values] array once the arguments are stored in it. *)
Definition installed_values (state : string) (name version : nullable)
  : list (option string) :=
  match name, version with
  | None, _ => [Some state; None; None]
  | Some _, None => [Some state; name; None]
  | Some _, Some _ => [Some state; name; version]
  end.

(** [reg_entry_installed]: its call is
    [reg_entry_search(db, keys, values, 0, key_count, entries, errPtr)],
    against the parameters [(db, keys, vals, key_count, strategy, ...)]. *)
Definition reg_entry_installed (db : Sqlite.sqlite3) (name version : nullable)
    (err : reg_error) : outcome (Z * list (option reg_entry) * reg_error) :=
  let keys := [Some "state"; Some "name"; Some "version"] in
  let values := installed_values "installed" name version in
  let key_count := installed_key_count name version in
  reg_entry_search db keys values 0 key_count err.

(** [reg_entry_active], with the same call. *)
Definition reg_entry_active (db : Sqlite.sqlite3) (name version : nullable)
    (err : reg_error) : outcome (Z * list (option reg_entry) * reg_error) :=
  let keys := [Some "state"; Some "name"; Some "version"] in
  let values := installed_values "active" name version in
  let key_count := installed_key_count name version in
  reg_entry_search db keys values 0 key_count err.

(** [reg_entry_owner]: 1 and the owning entry, or 1 and NULL when the path
    has no owner. *)
Definition reg_entry_owner (db : Sqlite.sqlite3) (path : string)
    (err : reg_error) : Z * option reg_entry * reg_error :=
  match Statements.select_port_id db path with
  | Some id => (1, Some (mkEntry id), err)
  | None => (1, None, err)
  end.

(** The [while (1)] loop of [reg_entry_files], one unit of fuel per
    [sqlite3_step].  [rest] are the rows the statement has still to
    yield, [all] the rows it yields from its start.  A row is added to the
    array and the loop continues.  After the last row the step returns
    SQLITE_DONE, and the [break] of that case leaves the [switch], not the
    loop: the statement is stepped again, and an engine that resets a
    statement stepped after SQLITE_DONE yields the rows from the start.
    The only exit of the loop is the [default] case, an error of the
    engine, which the model does not have.  [None] is a loop that has not
    ended when the fuel has. *)
Fixpoint reg_entry_files_loop (fuel : nat) (all rest : list string)
    (result : list (option string)) (result_count result_space : Z)
  : option (list (option string) * Z) :=
  match fuel with
  | O => None
  | S fuel' =>
      match rest with
      | element :: rest' =>
          let '(result', count', space') :=
            reg_listcat result result_count result_space element in
          reg_entry_files_loop fuel' all rest' result' count' space'
      | [] =>
          reg_entry_files_loop fuel' all all result result_count result_space
      end
  end.

(** [reg_entry_files]: the number of paths and the array of them, were the
    loop to end. *)
Definition reg_entry_files (fuel : nat) (db : Sqlite.sqlite3)
    (entry : reg_entry) (err : reg_error)
  : option (Z * list (option string) * reg_error) :=
  let paths := Statements.select_path db (rowid entry) in
  match reg_entry_files_loop fuel paths paths [] 0 10 with
  | Some (result, count) => Some (count, result, err)
  | None => None
  end.

End CEntryQueries.

(* ================================================================= *)
(** ** entryobj.c, the entry object command *)

Module EntryObjCmd.

Import Util.

(** [%lld] *)
Definition lld (x : Z) : string := NilEmpty.string_of_int (Z.to_int x).

Definition select_query (prop : string) (id : Z) : string :=
  "SELECT " ++ prop ++ " FROM registry.ports WHERE rowid='" ++ lld id ++ "'".

Definition update_query (prop value : string) (id : Z) : string :=
  "UPDATE registry.ports SET " ++ prop ++ "='" ++ CEntry.sql_quote value
    ++ "' WHERE rowid='" ++ lld id ++ "'".

(** [entry_obj_prop]: [${entry} prop name ?value?].  A NULL column reads
    as the empty string. *)
Definition entry_obj_prop (interp : Tcl_Interp) (entry : CEntry.reg_entry)
    (objv : list string) : Tcl_Interp * reply :=
  match objv with
  | [_; prop] =>
      match Tcl_GetIndexFromObj Entry.entry_props prop with
      | Some _ =>
          match Statements.select_column (db interp) prop
                  (CEntry.rowid entry) with
          | Statements.Select_row v =>
              (interp,
               mkReply TCL_OK
                 (String_result (match v with Some s => s | None => "" end))
                 None)
          | _ =>
              (interp,
               mkReply TCL_ERROR
                 (Sqlite_result
                    (Some (select_query prop (CEntry.rowid entry)))) None)
          end
      | None => (interp, mkReply TCL_ERROR (Bad_index "prop" prop) None)
      end
  | [_; prop; value] =>
      match Tcl_GetIndexFromObj Entry.entry_props prop with
      | Some _ =>
          match Statements.update_column (db interp) prop
                  (CEntry.rowid entry) value with
          | (db', Sqlite.Step_DONE) =>
              (set_db interp db', mkReply TCL_OK (String_result "") None)
          | (db', Sqlite.Step_ERROR _) =>
              (set_db interp db',
               mkReply TCL_ERROR
                 (Sqlite_result
                    (Some (update_query prop value (CEntry.rowid entry))))
                 None)
          end
      | None => (interp, mkReply TCL_ERROR (Bad_index "prop" prop) None)
      end
  | _ => (interp, mkReply TCL_ERROR (Wrong_num_args "?value?") None)
  end.

(** [entry_obj_files]: [${entry} files] *)
Definition entry_obj_files (interp : Tcl_Interp) (entry : CEntry.reg_entry)
    (objv : list string) : Tcl_Interp * reply :=
  match objv with
  | [_; _] =>
      (interp,
       mkReply TCL_OK
         (List_result (Statements.select_path (db interp) (CEntry.rowid entry)))
         None)
  | _ => (interp, mkReply TCL_ERROR (Wrong_num_args "files") None)
  end.

(** The names of [entry_cmds], in the order of the table. *)
Definition entry_cmds : list string :=
  ["name"; "portfile"; "url"; "location"; "epoch"; "version"; "revision";
   "variants"; "date"; "state"; "map"; "unmap"; "files"].

(** [entry_obj_cmd]: [${entry} cmd ?arg ...?] *)
Definition entry_obj_cmd (interp : Tcl_Interp) (clientData : CEntry.reg_entry)
    (objv : list string) : Tcl_Interp * reply :=
  match objv with
  | _ :: cmd :: _ =>
      match Tcl_GetIndexFromObj entry_cmds cmd with
      | Some cmd_index =>
          if (cmd_index <? 10)%nat then entry_obj_prop interp clientData objv
          else if (cmd_index =? 10)%nat then
            EntryObj.entry_obj_map interp clientData objv
          else if (cmd_index =? 11)%nat then
            EntryObj.entry_obj_unmap interp clientData objv
          else entry_obj_files interp clientData objv
      | None => (interp, mkReply TCL_ERROR (Bad_index "cmd" cmd) None)
      end
  | _ => (interp, mkReply TCL_ERROR (Wrong_num_args "cmd ?arg ...?") None)
  end.

End EntryObjCmd.

(* ================================================================= *)
(** ** entry.c, the other commands of [registry::entry] *)

Module EntryCmd.

Import Util.
Import CEntry.

(** [recast] with [obj_to_entry] as the cast: the entries behind the
    names, or [None] with the error of the first name that is no entry
    object. *)
Fixpoint recast_obj_to_entry (interp : Tcl_Interp) (inv : list string)
    (err : reg_error) : option (list reg_entry) * reg_error :=
  match inv with
  | [] => (Some [], err)
  | obj :: inv' =>
      match Entry.get_entry interp obj err with
      | (None, err1) => (None, err1)
      | (Some entry, err1) =>
          match recast_obj_to_entry interp inv' err1 with
          | (Some entries, err2) => (Some (entry :: entries), err2)
          | (None, err2) => (None, err2)
          end
      end
  end.

(** [entry_delete]: [registry::entry delete ?entry ...?].  The commands
    of the deleted entries stay in the command table (their [reg_entry]
    is freed by [reg_entry_delete]). *)
Definition entry_delete (interp : Tcl_Interp) (objv : list string)
  : outcome (Tcl_Interp * reply) :=
  match registry_db interp true with
  | None => Defined (interp, Entry.not_open)
  | Some db =>
      match recast_obj_to_entry interp (skipn 2 objv) no_error with
      | (Some entries, error) =>
          let '(db', count, error') := reg_entry_delete db entries error in
          if count =? 0 then
            match Entry.registry_failed error' with
            | Defined r => Defined (set_db interp db', r)
            | Undefined => Undefined
            end
          else
            Defined (set_db interp db',
                     mkReply TCL_OK (String_result "") None)
      | (None, error) =>
          match Entry.registry_failed error with
          | Defined r => Defined (interp, r)
          | Undefined => Undefined
          end
      end
  end.

(** [entry_exists]: [registry::entry exists name].  The boolean result
    is given by its string, "1" or "0". *)
Definition entry_exists (interp : Tcl_Interp) (objv : list string)
  : Tcl_Interp * reply :=
  match objv with
  | [_; _; name] =>
      match Entry.get_entry interp name no_error with
      | (None, _) => (interp, mkReply TCL_OK (String_result "0") None)
      | (Some _, _) => (interp, mkReply TCL_OK (String_result "1") None)
      end
  | _ => (interp, mkReply TCL_ERROR (Wrong_num_args "name") None)
  end.

(** The names of [entry_cmds] of entry.c, in the order of the table. *)
Definition entry_cmds : list string :=
  ["create"; "delete"; "close"; "search"; "exists"].

(** [entry_cmd]: [registry::entry cmd ?arg ...?] *)
Definition entry_cmd (interp : Tcl_Interp) (objv : list string)
  : outcome (Tcl_Interp * reply) :=
  match objv with
  | _ :: cmd :: _ =>
      match Tcl_GetIndexFromObj entry_cmds cmd with
      | Some 0%nat => Entry.entry_create interp objv
      | Some 1%nat => entry_delete interp objv
      | Some 2%nat => Entry.entry_close interp objv
      | Some 3%nat => Entry.entry_search interp objv
      | Some _ => Defined (entry_exists interp objv)
      | None => Defined (interp, mkReply TCL_ERROR (Bad_index "cmd" cmd) None)
      end
  | _ =>
      Defined (interp, mkReply TCL_ERROR (Wrong_num_args "cmd ?arg ...?") None)
  end.

End EntryCmd.

(* ================================================================= *)
(** ** util.c, the parser of flags *)

Module Flags.

Import Util.

(** [option_spec]: the name of an option and its flag. *)
Record option_spec := mkOption {
  option : string;
  flag : Z
}.

(** The first byte of the argument is not ['-']. *)
Definition not_a_flag (arg : string) : bool :=
  match arg with
  | String c _ => negb (Ascii.eqb c "-"%char)
  | EmptyString => true
  end.

(** The [for] loop of [parse_flags] from the index [i] on, [args] being
    [objv[i]], [objv[i+1]], ...: the status, the index the loop stops at,
    and the flags.  [END_FLAGS] is the constant of util.h. *)
Fixpoint parse_flags_from (END_FLAGS : Z) (options : list option_spec)
    (args : list string) (i : nat) (flags : Z) : status * nat * Z :=
  match args with
  | [] => (TCL_OK, i, flags)
  | arg :: args' =>
      if not_a_flag arg then (TCL_OK, i, flags)
      else
        match Tcl_GetIndexFromObj (map option options) arg with
        | Some index =>
            let f := flag (nth index options (mkOption "" 0)) in
            if f =? END_FLAGS then (TCL_OK, S i, flags)
            else parse_flags_from END_FLAGS options args' (S i) (Z.lor flags f)
        | None => (TCL_ERROR, i, flags)
        end
  end.

(** [parse_flags]: the status, the new value of [*start] (unchanged after
    an error) and the value of [*flags]. *)
Definition parse_flags (END_FLAGS : Z) (objv : list string) (start : nat)
    (options : list option_spec) : status * nat * Z :=
  match parse_flags_from END_FLAGS options (skipn start objv) start 0 with
  | (TCL_OK, i, flags) => (TCL_OK, i, flags)
  | (TCL_ERROR, _, flags) => (TCL_ERROR, start, flags)
  end.

End Flags.

(* ================================================================= *)
(** * Properties of the version comparator *)

Module VercompFacts.

Import Vercomp.

Lemma isdigit_isalpha (c : ascii) : isdigit c = true -> isalpha c = false.
Proof.
  destruct c as [[] [] [] [] [] [] [] []]; intros H; try reflexivity;
    discriminate H.
Qed.

Lemma isdigit_isalnum (c : ascii) : isdigit c = true -> isalnum c = true.
Proof.
  intros H. unfold isalnum. rewrite H. apply orb_true_r.
Qed.

Lemma isalpha_isalnum (c : ascii) : isalpha c = true -> isalnum c = true.
Proof.
  intros H. unfold isalnum. rewrite H. reflexivity.
Qed.

Lemma at_end_app (s t : string) : at_end (s ++ t) = at_end s && at_end t.
Proof. destruct s; reflexivity. Qed.

Lemma skip_nonalnum_app (s r : string) :
  all_of (fun c => negb (isalnum c)) s = true ->
  skip_nonalnum (s ++ r) = skip_nonalnum r.
Proof.
  induction s as [|c s IH]; simpl; intros H.
  - reflexivity.
  - apply andb_true_iff in H as [Hc Hs].
    apply negb_true_iff in Hc. rewrite Hc. auto.
Qed.

Lemma skip_nonalnum_fix (r : string) :
  isalnum (deref r) = true -> skip_nonalnum r = r.
Proof.
  destruct r as [|c r]; simpl; intros H.
  - reflexivity.
  - now rewrite H.
Qed.

Lemma scan_digits_app (d r : string) (n : Z) :
  all_of isdigit d = true -> isdigit (deref r) = false ->
  scan_digits (d ++ r) n = (d, r, n + Z.of_nat (String.length d)).
Proof.
  revert n. induction d as [|c d IH]; simpl; intros n Hd Hr.
  - destruct r as [|c r]; simpl in *.
    + f_equal. lia.
    + rewrite Hr. f_equal. lia.
  - apply andb_true_iff in Hd as [Hc Hd]. rewrite Hc.
    rewrite (IH (n + 1) Hd Hr). f_equal. lia.
Qed.

Lemma scan_alpha_app (a r : string) :
  all_of isalpha a = true -> isalpha (deref r) = false ->
  scan_alpha (a ++ r) = (a, r).
Proof.
  induction a as [|c a IH]; simpl; intros Ha Hr.
  - destruct r as [|c r]; simpl in *; [reflexivity | now rewrite Hr].
  - apply andb_true_iff in Ha as [Hc Ha]. rewrite Hc.
    now rewrite (IH Ha Hr).
Qed.

Lemma skip_zeros_strip (seg : string) (n : Z) :
  skip_zeros seg n =
  (strip_leading_zeros seg,
   n - Z.of_nat (String.length seg)
     + Z.of_nat (String.length (strip_leading_zeros seg))).
Proof.
  revert n. induction seg as [|c seg IH]; intros n.
  - simpl. f_equal. lia.
  - cbn [skip_zeros strip_leading_zeros].
    destruct (Ascii.eqb c "0").
    + rewrite IH. f_equal. cbn [String.length]. lia.
    + f_equal. lia.
Qed.

Lemma lexcmp_first_mismatch (s t : string) :
  lexcmp s t =
  option_map (fun p => code (fst p) - code (snd p)) (first_mismatch s t).
Proof.
  revert t. induction s as [|x s IH]; intros [|y t]; simpl; try reflexivity.
  destruct (Ascii.eqb x y); [apply IH | reflexivity].
Qed.

(** *** Termination *)

Lemma skip_nonalnum_length (p : string) :
  (String.length (skip_nonalnum p) <= String.length p)%nat.
Proof.
  induction p as [|c p IH]; simpl.
  - lia.
  - destruct (isalnum c); simpl; lia.
Qed.

Lemma skip_nonalnum_head (p : string) :
  skip_nonalnum p = EmptyString \/ isalnum (deref (skip_nonalnum p)) = true.
Proof.
  induction p as [|c p IH]; simpl.
  - now left.
  - destruct (isalnum c) eqn:E; [right; exact E | exact IH].
Qed.

Lemma scan_alpha_length (p : string) :
  (String.length (snd (scan_alpha p)) <= String.length p)%nat.
Proof.
  induction p as [|c p IH]; simpl.
  - lia.
  - destruct (isalpha c); [|simpl; lia].
    destruct (scan_alpha p) as [seg e]. simpl in *. lia.
Qed.

Lemma scan_digits_length (p : string) (n : Z) :
  (String.length (snd (fst (scan_digits p n))) <= String.length p)%nat.
Proof.
  revert n. induction p as [|c p IH]; intros n; simpl.
  - lia.
  - destruct (isdigit c); [|simpl; lia].
    specialize (IH (n + 1)).
    destruct (scan_digits p (n + 1)) as [[seg e] m]. simpl in *. lia.
Qed.

(** A pass through the loop body that does not return moves [ptrA]
    forward. *)
Lemma loop_body_length (ptrA ptrB a b : string) :
  ptrA <> EmptyString ->
  loop_body ptrA ptrB = inr (a, b) ->
  (String.length a < String.length ptrA)%nat.
Proof.
  intros Hne. unfold loop_body.
  pose proof (skip_nonalnum_length ptrA) as Hskip.
  pose proof (skip_nonalnum_head ptrA) as Hhead.
  set (pA := skip_nonalnum ptrA) in *.
  set (pB := skip_nonalnum ptrB).
  destruct (negb (isdigit (deref pB)) && isdigit (deref pA)); [discriminate|].
  destruct (isdigit (deref pA) && isalpha (deref pB)
            || isalpha (deref pA) && isdigit (deref pB)); [discriminate|].
  assert (Hlen : (0 < String.length ptrA)%nat)
    by (destruct ptrA; [contradiction | simpl; lia]).
  destruct (isalpha (deref pA)) eqn:Halpha.
  - destruct pA as [|c pA']; [discriminate|].
    cbn [deref] in Halpha. cbn [scan_alpha]. rewrite Halpha.
    pose proof (scan_alpha_length pA') as HlenA.
    destruct (scan_alpha pA') as [segA eptrA].
    destruct (scan_alpha pB) as [segB eptrB].
    destruct (lexcmp (String c segA) segB); [discriminate|].
    intros H. inversion H; subst. cbn [snd String.length] in *. lia.
  - assert (Hdec : (String.length (snd (fst (scan_digits pA 0)))
                    < String.length ptrA)%nat).
    { destruct pA as [|c pA'].
      - simpl. lia.
      - destruct Hhead as [Hhead|Hhead]; [discriminate|].
        cbn [deref] in Hhead, Halpha. unfold isalnum in Hhead.
        rewrite Halpha in Hhead. cbn [orb] in Hhead.
        cbn [scan_digits]. rewrite Hhead.
        pose proof (scan_digits_length pA' (0 + 1)) as Hd.
        destruct (scan_digits pA' (0 + 1)) as [[seg e] m].
        cbn [fst snd String.length] in *. lia. }
    destruct (scan_digits pA 0) as [[segA eptrA] countA].
    destruct (scan_digits pB 0) as [[segB eptrB] countB].
    destruct (skip_zeros segA countA) as [segA' countA'].
    destruct (skip_zeros segB countB) as [segB' countB'].
    destruct (countA' >? countB'); [discriminate|].
    destruct (countB' >? countA'); [discriminate|].
    destruct (lexcmp segA' segB'); [discriminate|].
    intros H. inversion H; subst. exact Hdec.
Qed.

Lemma at_end_false (p : string) : at_end p = false -> p <> EmptyString.
Proof. destruct p; [discriminate | discriminate]. Qed.

Lemma vercomp_loop_total (fuel : nat) (ptrA ptrB : string) :
  (String.length ptrA < fuel)%nat ->
  exists r, vercomp_loop fuel ptrA ptrB = Some r.
Proof.
  revert ptrA ptrB.
  induction fuel as [|fuel IH]; intros ptrA ptrB Hlen; [lia|].
  cbn [vercomp_loop].
  destruct (at_end ptrA || at_end ptrB) eqn:Hend; [eauto|].
  apply orb_false_iff in Hend as [HA _]. apply at_end_false in HA.
  destruct (loop_body ptrA ptrB) as [r | [a b]] eqn:Hbody; [eauto|].
  apply loop_body_length in Hbody; [|exact HA].
  apply IH. lia.
Qed.

(** [rpm_vercomp] is total. *)
Lemma rpm_vercomp_total (versionA versionB : string) :
  exists r, rpm_vercomp versionA versionB = Some r.
Proof.
  unfold rpm_vercomp. destruct (String.eqb versionA versionB); [eauto|].
  apply vercomp_loop_total. lia.
Qed.

(** More fuel does not change the result. *)
Lemma vercomp_loop_more_fuel (fuel fuel' : nat) (ptrA ptrB : string) (r : Z) :
  vercomp_loop fuel ptrA ptrB = Some r -> (fuel <= fuel')%nat ->
  vercomp_loop fuel' ptrA ptrB = Some r.
Proof.
  revert fuel' ptrA ptrB.
  induction fuel as [|fuel IH]; intros fuel' ptrA ptrB H Hle; [discriminate|].
  destruct fuel' as [|fuel']; [lia|].
  cbn [vercomp_loop] in *.
  destruct (at_end ptrA || at_end ptrB); [exact H|].
  destruct (loop_body ptrA ptrB) as [r0 | [a b]]; [exact H|].
  apply IH; [exact H | lia].
Qed.

Lemma vercomp_loop_enough (fuel : nat) (ptrA ptrB : string) :
  (String.length ptrA < fuel)%nat ->
  vercomp_loop fuel ptrA ptrB
  = vercomp_loop (S (String.length ptrA)) ptrA ptrB.
Proof.
  intros Hlen.
  destruct (vercomp_loop_total (S (String.length ptrA)) ptrA ptrB) as [r Hr];
    [lia|].
  rewrite Hr. apply (vercomp_loop_more_fuel _ _ _ _ _ Hr). lia.
Qed.

(** *** Numeric segments *)

(** One iteration of the loop on two numeric segments: the leading zeros
    of each are stripped, the longer of the two remaining digit runs
    decides, runs of equal length are compared byte by byte, and equal
    runs move both pointers past their segments. *)
Lemma numeric_step (fuel : nat) (sa sb da db ra rb : string) :
  all_of (fun c => negb (isalnum c)) sa = true ->
  all_of (fun c => negb (isalnum c)) sb = true ->
  all_of isdigit da = true -> da <> EmptyString ->
  all_of isdigit db = true -> db <> EmptyString ->
  isdigit (deref ra) = false -> isdigit (deref rb) = false ->
  vercomp_loop (S fuel) (sa ++ da ++ ra) (sb ++ db ++ rb) =
    (let ta := strip_leading_zeros da in
     let tb := strip_leading_zeros db in
     if (String.length tb <? String.length ta)%nat then Some 1
     else if (String.length ta <? String.length tb)%nat then Some (-1)
     else match first_mismatch ta tb with
          | Some (x, y) => Some (code x - code y)
          | None => vercomp_loop fuel ra rb
          end).
Proof.
  intros Hsa Hsb Hda Hna Hdb Hnb Hra Hrb.
  destruct da as [|ca da']; [contradiction|].
  destruct db as [|cb db']; [contradiction|].
  pose proof Hda as Hca. pose proof Hdb as Hcb.
  cbn [all_of] in Hca, Hcb.
  apply andb_true_iff in Hca as [Hca _].
  apply andb_true_iff in Hcb as [Hcb _].
  cbn [vercomp_loop].
  rewrite !at_end_app. cbn [at_end]. rewrite !andb_false_r. cbn [orb].
  unfold loop_body.
  rewrite (skip_nonalnum_app sa), (skip_nonalnum_app sb) by assumption.
  rewrite (skip_nonalnum_fix (String ca da' ++ ra)),
          (skip_nonalnum_fix (String cb db' ++ rb))
    by (now apply isdigit_isalnum).
  replace (deref (String ca da' ++ ra)) with ca by reflexivity.
  replace (deref (String cb db' ++ rb)) with cb by reflexivity.
  rewrite Hca, Hcb, (isdigit_isalpha ca Hca), (isdigit_isalpha cb Hcb).
  cbn [negb andb orb].
  rewrite (scan_digits_app (String ca da') ra),
          (scan_digits_app (String cb db') rb) by assumption.
  rewrite !skip_zeros_strip.
  cbv zeta.
  set (ta := strip_leading_zeros (String ca da')).
  set (tb := strip_leading_zeros (String cb db')).
  set (la := String.length (String ca da')).
  set (lb := String.length (String cb db')).
  rewrite !Z.gtb_ltb.
  destruct (Nat.ltb_spec (String.length tb) (String.length ta)) as [H1|H1].
  - destruct (Z.ltb_spec (0 + Z.of_nat lb - Z.of_nat lb + Z.of_nat (String.length tb))
                         (0 + Z.of_nat la - Z.of_nat la + Z.of_nat (String.length ta)));
      [reflexivity | lia].
  - destruct (Z.ltb_spec (0 + Z.of_nat lb - Z.of_nat lb + Z.of_nat (String.length tb))
                         (0 + Z.of_nat la - Z.of_nat la + Z.of_nat (String.length ta)));
      [lia|].
    destruct (Nat.ltb_spec (String.length ta) (String.length tb)) as [H2|H2].
    + destruct (Z.ltb_spec (0 + Z.of_nat la - Z.of_nat la + Z.of_nat (String.length ta))
                           (0 + Z.of_nat lb - Z.of_nat lb + Z.of_nat (String.length tb)));
        [reflexivity | lia].
    + destruct (Z.ltb_spec (0 + Z.of_nat la - Z.of_nat la + Z.of_nat (String.length ta))
                           (0 + Z.of_nat lb - Z.of_nat lb + Z.of_nat (String.length tb)));
        [lia|].
      rewrite lexcmp_first_mismatch.
      destruct (first_mismatch ta tb) as [[x y]|]; reflexivity.
Qed.

(** *** Alphabetic segments *)

(** One iteration of the loop on two alphabetic segments: the bytes are
    compared up to the length of the shorter segment, and when they agree
    that far both pointers move past their whole segments. *)
Lemma alpha_step (fuel : nat) (sa sb a b ra rb : string) :
  all_of (fun c => negb (isalnum c)) sa = true ->
  all_of (fun c => negb (isalnum c)) sb = true ->
  all_of isalpha a = true -> a <> EmptyString ->
  all_of isalpha b = true -> b <> EmptyString ->
  isalpha (deref ra) = false -> isalpha (deref rb) = false ->
  vercomp_loop (S fuel) (sa ++ a ++ ra) (sb ++ b ++ rb) =
    match first_mismatch a b with
    | Some (x, y) => Some (code x - code y)
    | None => vercomp_loop fuel ra rb
    end.
Proof.
  intros Hsa Hsb Ha Hna Hb Hnb Hra Hrb.
  destruct a as [|ca a']; [contradiction|].
  destruct b as [|cb b']; [contradiction|].
  pose proof Ha as Hca. pose proof Hb as Hcb.
  cbn [all_of] in Hca, Hcb.
  apply andb_true_iff in Hca as [Hca _].
  apply andb_true_iff in Hcb as [Hcb _].
  assert (Hda : isdigit ca = false).
  { destruct (isdigit ca) eqn:E; [|reflexivity].
    apply isdigit_isalpha in E. congruence. }
  assert (Hdb : isdigit cb = false).
  { destruct (isdigit cb) eqn:E; [|reflexivity].
    apply isdigit_isalpha in E. congruence. }
  cbn [vercomp_loop].
  rewrite !at_end_app. cbn [at_end]. rewrite !andb_false_r. cbn [orb].
  unfold loop_body.
  rewrite (skip_nonalnum_app sa), (skip_nonalnum_app sb) by assumption.
  rewrite (skip_nonalnum_fix (String ca a' ++ ra)),
          (skip_nonalnum_fix (String cb b' ++ rb))
    by (now apply isalpha_isalnum).
  replace (deref (String ca a' ++ ra)) with ca by reflexivity.
  replace (deref (String cb b' ++ rb)) with cb by reflexivity.
  rewrite Hca, Hcb, Hda, Hdb. cbn [negb andb orb].
  rewrite (scan_alpha_app (String ca a') ra),
          (scan_alpha_app (String cb b') rb) by assumption.
  rewrite lexcmp_first_mismatch.
  destruct (first_mismatch (String ca a') (String cb b')) as [[x y]|];
    reflexivity.
Qed.

Lemma first_mismatch_prefix (a s : string) : first_mismatch a (a ++ s) = None.
Proof.
  induction a as [|c a IH]; simpl.
  - reflexivity.
  - now rewrite Ascii.eqb_refl.
Qed.

Lemma first_mismatch_prefix_l (a s : string) : first_mismatch (a ++ s) a = None.
Proof.
  induction a as [|c a IH]; simpl.
  - now destruct s.
  - now rewrite Ascii.eqb_refl.
Qed.

Lemma all_of_app (cls : ascii -> bool) (s t : string) :
  all_of cls (s ++ t) = all_of cls s && all_of cls t.
Proof.
  induction s as [|c s IH]; simpl.
  - reflexivity.
  - now rewrite IH, andb_assoc.
Qed.

Lemma eqb_app_nonempty (a s : string) :
  s <> EmptyString -> String.eqb a (a ++ s) = false.
Proof.
  intros Hs. apply String.eqb_neq. intros E.
  apply Hs. induction a as [|c a IH]; simpl in E.
  - now symmetry.
  - injection E as E. auto.
Qed.

Lemma append_empty (a : string) : a ++ "" = a.
Proof. induction a; simpl; congruence. Qed.

(** Two versions made of one alphabetic segment each, one a proper prefix
    of the other, compare equal, in either order. *)
Lemma alpha_prefix_compares_equal (a s : string) :
  all_of isalpha a = true -> a <> EmptyString ->
  all_of isalpha s = true -> s <> EmptyString ->
  rpm_vercomp a (a ++ s) = Some 0 /\ rpm_vercomp (a ++ s) a = Some 0.
Proof.
  intros Ha Hna Hs Hns.
  assert (Has : all_of isalpha (a ++ s) = true)
    by (now rewrite all_of_app, Ha, Hs).
  assert (Hnas : a ++ s <> EmptyString)
    by (destruct a; [contradiction | discriminate]).
  unfold rpm_vercomp. split.
  - rewrite eqb_app_nonempty by assumption.
    pose proof (alpha_step (String.length a) "" "" a (a ++ s) "" ""
                  eq_refl eq_refl Ha Hna Has Hnas eq_refl eq_refl) as H.
    cbn [append] in H. rewrite !append_empty in H.
    rewrite H, first_mismatch_prefix.
    destruct a; [contradiction | reflexivity].
  - rewrite String.eqb_sym, eqb_app_nonempty by assumption.
    pose proof (alpha_step (String.length (a ++ s)) "" "" (a ++ s) a "" ""
                  eq_refl eq_refl Has Hnas Ha Hna eq_refl eq_refl) as H.
    cbn [append] in H. rewrite !append_empty in H.
    rewrite H, first_mismatch_prefix_l.
    destruct a; [contradiction | reflexivity].
Qed.

(** C8.  What the code does where the claim expects "greater": of "ab" and
    "abc", whose alphabetic segments differ only by one being a proper
    prefix of the other, neither compares greater; the comparator returns
    0 for both orders. *)
Theorem alpha_prefix_segment_equal :
  rpm_vercomp "ab" "abc" = Some 0 /\ rpm_vercomp "abc" "ab" = Some 0
  /\ compare "ab" "abc" = Some Equal /\ compare "abc" "ab" = Some Equal.
Proof.
  repeat split; reflexivity.
Qed.

(** *** Symmetry *)

(** [compare a a] is [Equal]. *)
Lemma rpm_vercomp_refl (a : string) : rpm_vercomp a a = Some 0.
Proof.
  unfold rpm_vercomp. now rewrite String.eqb_refl.
Qed.

(** C2.  What the code does where the claim expects inverse results: it
    returns 0 for ("1.a", "1.") and -1 for ("1.", "1.a"), and 1 for
    ("1.0", "1.") and 0 for ("1.", "1.0"). *)
Theorem compare_not_antisymmetric :
  compare "1.a" "1." = Some Equal /\ compare "1." "1.a" = Some Less
  /\ compare "1.0" "1." = Some Greater /\ compare "1." "1.0" = Some Equal.
Proof.
  repeat split; reflexivity.
Qed.

Lemma lexcmp_sym (s t : string) : lexcmp t s = option_map Z.opp (lexcmp s t).
Proof.
  revert t. induction s as [|x s IH]; intros [|y t]; simpl; try reflexivity.
  rewrite Ascii.eqb_sym. destruct (Ascii.eqb x y); [apply IH|].
  simpl. f_equal. lia.
Qed.

(** With an alphanumeric byte in front of both pointers, swapping the
    arguments of the loop body negates what it returns and swaps the
    pointers it leaves. *)
Lemma loop_body_sym (ptrA ptrB : string) :
  isalnum (deref (skip_nonalnum ptrA)) = true ->
  isalnum (deref (skip_nonalnum ptrB)) = true ->
  loop_body ptrB ptrA
  = match loop_body ptrA ptrB with
    | inl r => inl (- r)
    | inr (a, b) => inr (b, a)
    end.
Proof.
  unfold loop_body.
  set (pA := skip_nonalnum ptrA). set (pB := skip_nonalnum ptrB).
  destruct pA as [|x pA']; [discriminate|].
  destruct pB as [|y pB']; [discriminate|].
  cbn [deref]. unfold isalnum. intros Hx Hy.
  destruct (isdigit x) eqn:Dx; destruct (isdigit y) eqn:Dy.
  - rewrite (isdigit_isalpha x Dx), (isdigit_isalpha y Dy).
    cbn [negb andb orb].
    destruct (scan_digits (String x pA') 0) as [[segA eptrA] countA].
    destruct (scan_digits (String y pB') 0) as [[segB eptrB] countB].
    destruct (skip_zeros segA countA) as [segA' countA'].
    destruct (skip_zeros segB countB) as [segB' countB'].
    rewrite !Z.gtb_ltb.
    destruct (Z.ltb_spec countA' countB'); destruct (Z.ltb_spec countB' countA');
      try reflexivity; try lia.
    rewrite (lexcmp_sym segA' segB').
    destruct (lexcmp segA' segB'); reflexivity.
  - rewrite orb_false_r in Hy. rewrite (isdigit_isalpha x Dx), Hy.
    reflexivity.
  - rewrite orb_false_r in Hx. rewrite (isdigit_isalpha y Dy), Hx.
    reflexivity.
  - rewrite orb_false_r in Hx, Hy. rewrite Hx, Hy. cbn [negb andb orb].
    destruct (scan_alpha (String x pA')) as [segA eptrA].
    destruct (scan_alpha (String y pB')) as [segB eptrB].
    rewrite (lexcmp_sym segA segB).
    destruct (lexcmp segA segB); reflexivity.
Qed.

Lemma ends_alnum_tail (c : ascii) (p : string) :
  ends_alnum (String c p) = true -> ends_alnum p = true.
Proof. destruct p; [reflexivity | exact (fun H => H)]. Qed.

Lemma ends_alnum_skip (p : string) :
  ends_alnum p = true -> ends_alnum (skip_nonalnum p) = true.
Proof.
  induction p as [|c p IH]; intros H.
  - reflexivity.
  - cbn [skip_nonalnum]. destruct (isalnum c); [exact H|].
    apply IH. exact (ends_alnum_tail c p H).
Qed.

Lemma ends_alnum_head (p : string) :
  ends_alnum p = true -> p <> EmptyString ->
  isalnum (deref (skip_nonalnum p)) = true.
Proof.
  induction p as [|c p IH]; intros H Hne; [contradiction|].
  cbn [skip_nonalnum]. destruct (isalnum c) eqn:E; [exact E|].
  destruct p as [|c' p'].
  - cbn in H. congruence.
  - apply IH; [exact H | discriminate].
Qed.

Lemma ends_alnum_scan_alpha (p : string) :
  ends_alnum p = true -> ends_alnum (snd (scan_alpha p)) = true.
Proof.
  induction p as [|c p IH]; intros H.
  - reflexivity.
  - cbn [scan_alpha]. destruct (isalpha c); [|exact H].
    specialize (IH (ends_alnum_tail c p H)).
    destruct (scan_alpha p) as [seg e]. exact IH.
Qed.

Lemma ends_alnum_scan_digits (p : string) (n : Z) :
  ends_alnum p = true -> ends_alnum (snd (fst (scan_digits p n))) = true.
Proof.
  revert n. induction p as [|c p IH]; intros n H.
  - reflexivity.
  - cbn [scan_digits]. destruct (isdigit c); [|exact H].
    specialize (IH (n + 1) (ends_alnum_tail c p H)).
    destruct (scan_digits p (n + 1)) as [[seg e] m]. exact IH.
Qed.

Lemma loop_body_ends_alnum (ptrA ptrB a b : string) :
  ends_alnum ptrA = true -> ends_alnum ptrB = true ->
  loop_body ptrA ptrB = inr (a, b) ->
  ends_alnum a = true /\ ends_alnum b = true.
Proof.
  intros HA HB. unfold loop_body.
  apply ends_alnum_skip in HA. apply ends_alnum_skip in HB.
  set (pA := skip_nonalnum ptrA) in *. set (pB := skip_nonalnum ptrB) in *.
  destruct (negb (isdigit (deref pB)) && isdigit (deref pA)); [discriminate|].
  destruct (isdigit (deref pA) && isalpha (deref pB)
            || isalpha (deref pA) && isdigit (deref pB)); [discriminate|].
  destruct (isalpha (deref pA)).
  - pose proof (ends_alnum_scan_alpha pA HA) as EA.
    pose proof (ends_alnum_scan_alpha pB HB) as EB.
    destruct (scan_alpha pA) as [segA eptrA].
    destruct (scan_alpha pB) as [segB eptrB].
    destruct (lexcmp segA segB); [discriminate|].
    intros H. inversion H; subst. auto.
  - pose proof (ends_alnum_scan_digits pA 0 HA) as EA.
    pose proof (ends_alnum_scan_digits pB 0 HB) as EB.
    destruct (scan_digits pA 0) as [[segA eptrA] countA].
    destruct (scan_digits pB 0) as [[segB eptrB] countB].
    destruct (skip_zeros segA countA) as [segA' countA'].
    destruct (skip_zeros segB countB) as [segB' countB'].
    destruct (countA' >? countB'); [discriminate|].
    destruct (countB' >? countA'); [discriminate|].
    destruct (lexcmp segA' segB'); [discriminate|].
    intros H. inversion H; subst. auto.
Qed.

Lemma vercomp_loop_sym (fuel : nat) :
  forall ptrA ptrB : string,
  ends_alnum ptrA = true -> ends_alnum ptrB = true ->
  (String.length ptrA < fuel)%nat -> (String.length ptrB < fuel)%nat ->
  vercomp_loop fuel ptrB ptrA = option_map Z.opp (vercomp_loop fuel ptrA ptrB).
Proof.
  induction fuel as [|fuel IH]; intros ptrA ptrB HA HB HlenA HlenB; [lia|].
  cbn [vercomp_loop]. rewrite (orb_comm (at_end ptrB)).
  destruct (at_end ptrA || at_end ptrB) eqn:Hend.
  - destruct ptrA, ptrB; try discriminate; reflexivity.
  - apply orb_false_iff in Hend as [EA EB].
    apply at_end_false in EA. apply at_end_false in EB.
    pose proof (loop_body_sym ptrA ptrB (ends_alnum_head _ HA EA)
                  (ends_alnum_head _ HB EB)) as Hsym.
    destruct (loop_body ptrA ptrB) as [r | [a b]] eqn:Hbody; rewrite Hsym.
    + reflexivity.
    + destruct (loop_body_ends_alnum _ _ _ _ HA HB Hbody) as [Ha Hb].
      pose proof (loop_body_length _ _ _ _ EA Hbody).
      pose proof (loop_body_length _ _ _ _ EB Hsym).
      apply IH; try assumption; lia.
Qed.

Lemma ordering_of_opp (r : Z) : ordering_of (- r) = inverse (ordering_of r).
Proof.
  unfold ordering_of.
  destruct (Z.ltb_spec (- r) 0); destruct (Z.ltb_spec r 0);
    destruct (Z.eqb_spec (- r) 0); destruct (Z.eqb_spec r 0);
    try reflexivity; lia.
Qed.

(** On versions that do not end in a separator the comparator is
    antisymmetric: swapping the arguments negates the result. *)
Theorem rpm_vercomp_antisymmetric (a b : string) :
  ends_alnum a = true -> ends_alnum b = true ->
  rpm_vercomp b a = option_map Z.opp (rpm_vercomp a b)
  /\ compare b a = option_map inverse (compare a b).
Proof.
  intros Ha Hb.
  assert (H : rpm_vercomp b a = option_map Z.opp (rpm_vercomp a b)).
  { unfold rpm_vercomp. rewrite (String.eqb_sym b a).
    destruct (String.eqb a b); [reflexivity|].
    set (fuel := S (Nat.max (String.length a) (String.length b))).
    rewrite <- (vercomp_loop_enough fuel b a), <- (vercomp_loop_enough fuel a b)
      by (unfold fuel; lia).
    apply vercomp_loop_sym; try assumption; unfold fuel; lia. }
  split; [exact H|].
  unfold compare. rewrite H.
  destruct (rpm_vercomp a b) as [r|]; [|reflexivity].
  cbn [option_map]. now rewrite ordering_of_opp.
Qed.

Lemma rpm_vercomp_antisymmetric_witness :
  (ends_alnum "1.2.3" = true /\ ends_alnum "1.2.10" = true)
  /\ compare "1.2.10" "1.2.3" = Some Greater.
Proof.
  split; [split; reflexivity|].
  exact (proj2 (rpm_vercomp_antisymmetric "1.2.3" "1.2.10" eq_refl eq_refl)).
Defined.

End VercompFacts.


(* ================================================================= *)
(** * Properties of the command table *)

Module HostFacts.

Import Util.

(** [unique_name] returns: it finds a free name within its fuel. *)
Lemma append_inj (p s t : string) : p ++ s = p ++ t -> s = t.
Proof.
  induction p as [|c p IH]; simpl; intros H; [exact H|].
  injection H as H. auto.
Qed.

Lemma name_of_inj (prefix : string) (i j : nat) :
  name_of prefix i = name_of prefix j -> i = j.
Proof.
  unfold name_of. intros H. apply append_inj in H.
  apply Unsigned.to_uint_inj.
  assert (E : Some (Nat.to_uint i) = Some (Nat.to_uint j))
    by (rewrite <- !NilEmpty.usu; now rewrite H).
  now injection E.
Qed.

Lemma unique_name_from_some (fuel : nat) :
  forall (interp : Tcl_Interp) (prefix : string) (i : nat) (name : string),
  unique_name_from fuel interp prefix i = Some name ->
  Tcl_GetCommandInfo interp name = None.
Proof.
  induction fuel as [|fuel IH]; intros interp prefix i name H; [discriminate|].
  cbn [unique_name_from] in H.
  destruct (Tcl_GetCommandInfo interp (name_of prefix i)) eqn:E.
  - eapply IH. exact H.
  - now inversion H; subst.
Qed.

Lemma unique_name_from_none (fuel : nat) :
  forall (interp : Tcl_Interp) (prefix : string) (i : nat),
  unique_name_from fuel interp prefix i = None ->
  forall j, In j (seq i fuel) ->
            In (name_of prefix j) (map fst (commands interp)).
Proof.
  induction fuel as [|fuel IH]; intros interp prefix i H j Hin; [destruct Hin|].
  cbn [unique_name_from] in H. cbn [seq] in Hin.
  destruct (Tcl_GetCommandInfo interp (name_of prefix i)) eqn:E;
    [|discriminate].
  destruct Hin as [<- | Hin].
  - unfold Tcl_GetCommandInfo in E.
    destruct (find _ (commands interp)) as [c0|] eqn:F; [|discriminate].
    apply find_some in F as [Hin Heq]. apply String.eqb_eq in Heq.
    rewrite <- Heq. now apply in_map.
  - eapply IH; eassumption.
Qed.

Lemma unique_name_total (interp : Tcl_Interp) (prefix : string) :
  exists name,
    unique_name interp prefix = Some name
    /\ Tcl_GetCommandInfo interp name = None.
Proof.
  unfold unique_name.
  destruct (unique_name_from (S (List.length (commands interp))) interp prefix 0)
    as [name|] eqn:E.
  - exists name. split; [reflexivity|]. eapply unique_name_from_some; eauto.
  - exfalso.
    pose proof (unique_name_from_none _ _ _ _ E) as Hall.
    set (n := List.length (commands interp)) in *.
    assert (Hnd : NoDup (map (name_of prefix) (seq 0 (S n)))).
    { apply Injective_map_NoDup; [|apply seq_NoDup].
      intros i j. apply name_of_inj. }
    assert (Hincl : incl (map (name_of prefix) (seq 0 (S n)))
                         (map fst (commands interp))).
    { intros x Hx. apply in_map_iff in Hx as (j & <- & Hj). now apply Hall. }
    pose proof (NoDup_incl_length Hnd Hincl) as Hlen.
    rewrite !length_map, length_seq in Hlen. unfold n in Hlen. lia.
Qed.


Lemma find_command_deleted (l : list (string * command)) (proc : string) :
  find (fun c => String.eqb (fst c) proc)
       (filter (fun c => negb (String.eqb (fst c) proc)) l) = None.
Proof.
  induction l as [|c l IH]; simpl.
  - reflexivity.
  - destruct (String.eqb (fst c) proc) eqn:E; simpl; [|rewrite E]; exact IH.
Qed.

Lemma find_command_other (l : list (string * command)) (proc other : string) :
  other <> proc ->
  find (fun c => String.eqb (fst c) other)
       (filter (fun c => negb (String.eqb (fst c) proc)) l)
  = find (fun c => String.eqb (fst c) other) l.
Proof.
  intros Hne. induction l as [|c l IH]; simpl.
  - reflexivity.
  - destruct (String.eqb (fst c) proc) eqn:E; simpl.
    + apply String.eqb_eq in E.
      destruct (String.eqb (fst c) other) eqn:E'; [|exact IH].
      apply String.eqb_eq in E'. congruence.
    + now rewrite IH.
Qed.

Lemma find_command_created (l : list (string * command)) (name : string)
    (c : command) :
  find (fun x => String.eqb (fst x) name)
       (filter (fun x => negb (String.eqb (fst x) name)) l ++ [(name, c)])
  = Some (name, c).
Proof.
  induction l as [|x l IH]; simpl.
  - now rewrite String.eqb_refl.
  - destruct (String.eqb (fst x) name) eqn:E; simpl; [|rewrite E]; exact IH.
Qed.


Lemma set_db_same (interp : Tcl_Interp) : set_db interp (db interp) = interp.
Proof. now destruct interp. Qed.

End HostFacts.

(* ================================================================= *)
(** * Properties of the file map *)

Module FileMapFacts.

Import Sqlite CEntry Spec.

Lemma insert_file_done (db db' : sqlite3) (id : Z) (p : string) :
  insert_file db id p = (db', Step_DONE) ->
  owned db p = false
  /\ bindings db' = (bindings db ++ [(p, id)])%list
  /\ ports db' = ports db /\ entry_procs db' = entry_procs db.
Proof.
  unfold insert_file, owned, bindings.
  destruct (existsb _ (files db)) eqn:E; intros H; inversion H; subst; clear H.
  cbn. rewrite map_app. cbn. auto.
Qed.

Lemma insert_file_error (db db' : sqlite3) (id : Z) (p : string) (c : rc) :
  insert_file db id p = (db', Step_ERROR c) ->
  c = SQLITE_CONSTRAINT /\ db' = db /\ owned db p = true.
Proof.
  unfold insert_file, owned.
  destruct (existsb _ (files db)) eqn:E; intros H; inversion H; subst; auto.
Qed.

Lemma owned_bindings (db : sqlite3) (p : string) :
  owned db p = existsb (fun b => String.eqb (fst b) p) (bindings db).
Proof.
  unfold owned, bindings. induction (files db) as [|f l IH]; simpl.
  - reflexivity.
  - now rewrite IH.
Qed.

Lemma owned_by_bindings (db : sqlite3) (id : Z) (p : string) :
  owned_by db id p =
  existsb (fun b => (snd b =? id) && String.eqb (fst b) p) (bindings db).
Proof.
  unfold owned_by, bindings. induction (files db) as [|f l IH]; simpl.
  - reflexivity.
  - now rewrite IH.
Qed.

(** The loop of [reg_entry_map]: it binds a prefix of the batch and stops
    at the first path that is already owned. *)
Lemma reg_entry_map_from_spec (files : list string) :
  forall (db : sqlite3) (entry : reg_entry) (i : Z) (err : reg_error)
         (db' : sqlite3) (n : Z) (err' : reg_error),
  reg_entry_map_from db entry files i err = (db', n, err') ->
  exists k : nat,
    (k <= List.length files)%nat
    /\ n = i + Z.of_nat k
    /\ bindings db' =
       (bindings db ++ map (fun p => (p, rowid entry)) (firstn k files))%list
    /\ ports db' = ports db
    /\ entry_procs db' = entry_procs db
    /\ (k = List.length files -> err' = err)
    /\ ((k < List.length files)%nat ->
        err' = already_owned /\ owned db' (nth k files "") = true).
Proof.
  induction files as [|f files IH]; intros db entry i err db' n err' H.
  - cbn in H. inversion H; subst; clear H. exists 0%nat. cbn.
    rewrite app_nil_r. repeat split; auto; lia.
  - cbn [reg_entry_map_from] in H.
    destruct (insert_file db (rowid entry) f) as [db1 [|c]] eqn:Hins.
    + apply insert_file_done in Hins as (Hfree & Hb & Hp & He).
      apply IH in H as (k & Hk & Hn & Hb' & Hp' & He' & Hok & Hfail).
      exists (S k). cbn [List.length firstn map nth].
      repeat split.
      * lia.
      * lia.
      * rewrite Hb', Hb, <- app_assoc. reflexivity.
      * congruence.
      * congruence.
      * intros E. apply Hok. lia.
      * apply Hfail. lia.
      * apply Hfail. lia.
    + apply insert_file_error in Hins as (Hc & Hdb & Hown). subst c db1.
      inversion H; subst; clear H.
      exists 0%nat. cbn [List.length firstn map nth].
      rewrite app_nil_r. repeat split; auto; try lia.
Qed.

Lemma owned_after_insert (db db' : sqlite3) (id : Z) (p q : string) :
  insert_file db id p = (db', Step_DONE) ->
  owned db q = true -> owned db' q = true.
Proof.
  intros H Hq. apply insert_file_done in H as (_ & Hb & _).
  rewrite owned_bindings in *. rewrite Hb, existsb_app, Hq. reflexivity.
Qed.

(** A batch that contains an owned path does not go through. *)
Lemma reg_entry_map_from_fails (files : list string) :
  forall (db : sqlite3) (entry : reg_entry) (i : Z) (err : reg_error),
  (exists p, In p files /\ owned db p = true) ->
  snd (fst (reg_entry_map_from db entry files i err))
  < i + Z.of_nat (List.length files).
Proof.
  induction files as [|f files IH]; intros db entry i err (p & Hin & Hp).
  - destruct Hin.
  - cbn [reg_entry_map_from].
    destruct (insert_file db (rowid entry) f) as [db1 [|c]] eqn:Hins.
    + pose proof (insert_file_done _ _ _ _ Hins) as (Hfree & _).
      destruct Hin as [->|Hin]; [congruence|].
      assert (Hlt := IH db1 entry (i + 1) err
                       (ex_intro _ p (conj Hin (owned_after_insert _ _ _ _ _ Hins Hp)))).
      cbn [List.length]. lia.
    + apply insert_file_error in Hins as (-> & -> & _).
      cbn [fst snd List.length]. lia.
Qed.

(** The Tcl command runs the same statements as [reg_entry_map], with the
    rowid converted to [int]. *)
Lemma entry_obj_map_from_db (paths : list string) :
  forall (db : sqlite3) (entry : reg_entry) (i : Z) (err : reg_error),
  fst (EntryObj.entry_obj_map_from db entry paths)
  = fst (fst (reg_entry_map_from db (mkEntry (EntryObj.to_int (rowid entry)))
                paths i err)).
Proof.
  induction paths as [|p paths IH]; intros db entry i err.
  - reflexivity.
  - cbn [EntryObj.entry_obj_map_from reg_entry_map_from rowid].
    destruct (insert_file db (EntryObj.to_int (rowid entry)) p)
      as [db1 [|c]] eqn:Hins.
    + apply IH.
    + apply insert_file_error in Hins as (-> & -> & _). reflexivity.
Qed.

(** It succeeds exactly when [reg_entry_map] maps the whole batch. *)
Lemma entry_obj_map_from_status (paths : list string) :
  forall (db : sqlite3) (entry : reg_entry) (i : Z) (err : reg_error),
  Util.reply_status (snd (EntryObj.entry_obj_map_from db entry paths))
  = if snd (fst (reg_entry_map_from db
                   (mkEntry (EntryObj.to_int (rowid entry))) paths i err))
       <? i + Z.of_nat (List.length paths)
    then Util.TCL_ERROR else Util.TCL_OK.
Proof.
  induction paths as [|p paths IH]; intros db entry i err.
  - cbn. rewrite Z.add_0_r, Z.ltb_irrefl. reflexivity.
  - cbn [EntryObj.entry_obj_map_from reg_entry_map_from rowid].
    destruct (insert_file db (EntryObj.to_int (rowid entry)) p)
      as [db1 [|c]] eqn:Hins.
    + rewrite (IH db1 entry (i + 1) err). cbn [List.length].
      replace (i + 1 + Z.of_nat (List.length paths))
        with (i + Z.of_nat (S (List.length paths))) by lia.
      reflexivity.
    + apply insert_file_error in Hins as (-> & -> & _).
      cbn [fst snd Util.reply_status List.length].
      destruct (Z.ltb_spec i (i + Z.of_nat (S (List.length paths))));
        [reflexivity | lia].
Qed.

(** C3, counterexample.  Entry 2 owns "/usr/bin/y"; mapping
    ["/usr/bin/x"; "/usr/bin/y"] to entry 1 fails on the second path and
    leaves the first one bound to entry 1. *)
Lemma map_is_not_all_or_nothing :
  ~ map_all_or_nothing db_y_owned (mkEntry 1) ["/usr/bin/x"; "/usr/bin/y"].
Proof.
  intros H. unfold map_all_or_nothing in H.
  assert (Hex : exists p, In p ["/usr/bin/x"; "/usr/bin/y"]
                          /\ owned db_y_owned p = true).
  { exists "/usr/bin/y". split; [right; left; reflexivity | reflexivity]. }
  specialize (H Hex). vm_compute in H. destruct H as [_ H].
  specialize (H "/usr/bin/x" (or_introl eq_refl)). discriminate H.
Qed.

(** C3, as amended.  [map] binds the paths of the batch one at a time, in
    order.  It stops at the first path that is already owned by any entry
    (the mapping entry and the paths bound earlier in the same call
    count), fails there with the already-owned error and returns the
    number of paths it has bound; the paths listed before the offending
    one stay bound to the entry, the offending path and the paths after it
    are not bound by the call, and nothing else in the registry changes.
    A batch that contains an owned path always fails.  The Tcl command
    [map] changes the registry in the same way. *)
Theorem map_binds_prefix (db : sqlite3) (entry : reg_entry)
    (batch : list string) (err : reg_error)
    (db' : sqlite3) (n : Z) (err' : reg_error) :
  reg_entry_map db entry batch err = (db', n, err') ->
  0 <= n <= Z.of_nat (List.length batch)
  /\ bindings db' =
     (bindings db
        ++ map (fun p => (p, rowid entry)) (firstn (Z.to_nat n) batch))%list
  /\ ports db' = ports db
  /\ (n = Z.of_nat (List.length batch) -> err' = err)
  /\ (n < Z.of_nat (List.length batch) ->
      err' = already_owned
      /\ owned db' (nth (Z.to_nat n) batch "") = true)
  /\ ((exists p, In p batch /\ owned db p = true) ->
      n < Z.of_nat (List.length batch))
  /\ (EntryObj.to_int (rowid entry) = rowid entry ->
      forall (interp : Util.Tcl_Interp) (cmd sub : string),
        Util.db interp = db ->
        fst (EntryObj.entry_obj_map interp entry (cmd :: sub :: batch))
        = Util.set_db interp db'
        /\ Util.reply_status
             (snd (EntryObj.entry_obj_map interp entry (cmd :: sub :: batch)))
           = if n <? Z.of_nat (List.length batch)
             then Util.TCL_ERROR else Util.TCL_OK).
Proof.
  intros H. unfold reg_entry_map in H.
  pose proof (reg_entry_map_from_spec _ _ _ _ _ _ _ _ H)
    as (k & Hk & Hn & Hb & Hp & _ & Hok & Hfail).
  rewrite Z.add_0_l in Hn. subst n. rewrite Nat2Z.id.
  refine (conj _ (conj Hb (conj Hp (conj _ (conj _ (conj _ _)))))).
  - lia.
  - intros E. apply Hok. lia.
  - intros E. apply Hfail. lia.
  - intros Hex.
    pose proof (reg_entry_map_from_fails batch db entry 0 err Hex) as Hlt.
    rewrite H in Hlt. cbn [fst snd] in Hlt. lia.
  - intros Hint interp cmd sub Hdb.
    unfold EntryObj.entry_obj_map. cbn [skipn]. subst db.
    pose proof (entry_obj_map_from_db batch (Util.db interp) entry 0 err) as E1.
    pose proof (entry_obj_map_from_status batch (Util.db interp) entry 0 err)
      as E2.
    rewrite Hint in E1, E2. destruct entry as [id]. cbn [rowid] in *.
    rewrite H in E1, E2. cbn [fst snd] in E1, E2. rewrite Z.add_0_l in E2.
    destruct (EntryObj.entry_obj_map_from (Util.db interp) (mkEntry id) batch)
      as [d r]. cbn [fst snd] in *. subst d. split; [reflexivity | exact E2].
Qed.

(** The amended claim on the batch of the counterexample: one path is
    bound, the call reports the already-owned error. *)
Lemma map_binds_prefix_witness :
  exists db',
    reg_entry_map db_y_owned (mkEntry 1) ["/usr/bin/x"; "/usr/bin/y"] no_error
    = (db', 1, already_owned)
    /\ bindings db' = [("/usr/bin/y", 2); ("/usr/bin/x", 1)]
    /\ ports db' = ports db_y_owned.
Proof.
  eexists. split; [reflexivity|].
  destruct (map_binds_prefix db_y_owned (mkEntry 1)
              ["/usr/bin/x"; "/usr/bin/y"] no_error _ _ _ eq_refl)
    as (_ & Hb & Hp & _).
  split; [exact Hb | exact Hp].
Defined.

(** *** Unmapping *)

Lemma filter_all {A : Type} (g : A -> bool) (l : list A) :
  forallb g l = true -> filter g l = l.
Proof.
  induction l as [|x l IH]; simpl; intros H.
  - reflexivity.
  - apply andb_true_iff in H as [Hx Hl]. rewrite Hx. f_equal. auto.
Qed.

Lemma filter_length_lt {A : Type} (g : A -> bool) (l : list A) :
  forallb g l = false -> (List.length (filter g l) < List.length l)%nat.
Proof.
  induction l as [|x l IH]; simpl; intros H.
  - discriminate.
  - pose proof (filter_length_le g l) as Hle.
    destruct (g x); simpl in *; [apply IH in H|]; lia.
Qed.

Lemma filter_twice {A : Type} (g h : A -> bool) (l : list A) :
  filter h (filter g l) = filter (fun x => g x && h x) l.
Proof.
  induction l as [|x l IH]; simpl.
  - reflexivity.
  - destruct (g x); simpl; [destruct (h x)|]; now rewrite IH.
Qed.

Lemma owned_by_forallb (db : sqlite3) (id : Z) (p : string) :
  forallb (keeps id p) (files db) = negb (owned_by db id p).
Proof.
  unfold owned_by, keeps. induction (files db) as [|f l IH]; simpl.
  - reflexivity.
  - rewrite IH, negb_orb. reflexivity.
Qed.

Lemma delete_file_owned (db : sqlite3) (id : Z) (p : string) :
  owned_by db id p = true ->
  exists db',
    delete_file db id p = (db', Step_DONE)
    /\ (changes db' =? 0) = false
    /\ files db' = filter (keeps id p) (files db)
    /\ ports db' = ports db.
Proof.
  intros H. unfold delete_file. fold (keeps id p).
  eexists. split; [reflexivity|]. cbn. repeat split.
  pose proof (owned_by_forallb db id p) as E. rewrite H in E.
  apply filter_length_lt in E. apply Z.eqb_neq. lia.
Qed.

Lemma delete_file_not_owned (db : sqlite3) (id : Z) (p : string) :
  owned_by db id p = false ->
  exists db',
    delete_file db id p = (db', Step_DONE)
    /\ (changes db' =? 0) = true
    /\ files db' = files db
    /\ ports db' = ports db.
Proof.
  intros H. unfold delete_file. fold (keeps id p).
  pose proof (owned_by_forallb db id p) as E. rewrite H in E.
  apply filter_all in E.
  eexists. split; [reflexivity|]. cbn. rewrite E. repeat split.
  apply Z.eqb_eq. lia.
Qed.


(** After the rows of ([id], [p]) are gone, [p] is not owned by [id], and
    every other path is owned as before. *)
Lemma owned_by_after_delete (db db' : sqlite3) (id : Z) (p q : string) :
  files db' = filter (keeps id p) (files db) ->
  owned_by db' id q = if String.eqb p q then false else owned_by db id q.
Proof.
  unfold owned_by, keeps. intros ->.
  induction (files db) as [|f l IH]; simpl.
  - now destruct (String.eqb p q).
  - destruct (port_id f =? id) eqn:Eid; simpl.
    + destruct (String.eqb (path f) p) eqn:Ep; simpl.
      * rewrite IH. apply String.eqb_eq in Ep. subst p.
        destruct (String.eqb (path f) q); reflexivity.
      * rewrite Eid. simpl. rewrite IH.
        destruct (String.eqb p q) eqn:Epq; [|reflexivity].
        apply String.eqb_eq in Epq. subst q. now rewrite Ep.
    + rewrite Eid. simpl. exact IH.
Qed.

Lemma without_nil (id : Z) (l : list file) : filter (without id []) l = l.
Proof.
  apply filter_all. apply forallb_forall. intros f _.
  unfold without. cbn. now rewrite andb_false_r.
Qed.

Lemma without_cons (id : Z) (p : string) (done : list string) (l : list file) :
  filter (without id done) (filter (keeps id p) l)
  = filter (without id (p :: done)) l.
Proof.
  rewrite filter_twice. apply filter_ext. intros f.
  unfold keeps, without. cbn [existsb].
  destruct (port_id f =? id); cbn; [|reflexivity].
  now rewrite negb_orb.
Qed.

Lemma first_unowned_step (db db' : sqlite3) (id : Z) (p : string)
    (pre : list string) (q : string) :
  first_unowned db id (p :: pre) q ->
  files db' = filter (keeps id p) (files db) ->
  first_unowned db' id pre q.
Proof.
  intros (Hnd & Hown & Hq) Hfiles.
  inversion Hnd as [|? ? Hnotin Hnd']; subst.
  repeat split.
  - exact Hnd'.
  - intros p' Hin. rewrite (owned_by_after_delete db db' id p p' Hfiles).
    destruct (String.eqb p p') eqn:E.
    + apply String.eqb_eq in E. subst p'. contradiction.
    + apply Hown. now right.
  - rewrite (owned_by_after_delete db db' id p q Hfiles).
    destruct (String.eqb p q) eqn:E; [now left|].
    destruct Hq as [Hq | [Hq | Hq]]; auto.
    subst q. rewrite String.eqb_refl in E. discriminate.
Qed.

Lemma reg_entry_unmap_from_spec (pre : list string) :
  forall (db : sqlite3) (entry : reg_entry) (q : string) (post : list string)
         (i : Z) (err : reg_error),
  first_unowned db (rowid entry) pre q ->
  exists db',
    reg_entry_unmap_from db entry (pre ++ q :: post) i err
    = (db', i + Z.of_nat (List.length pre),
       mkError (Some "this entry does not own the given file")
               (description err))
    /\ files db' = filter (without (rowid entry) pre) (files db)
    /\ ports db' = ports db.
Proof.
  induction pre as [|p pre IH]; intros db entry q post i err Hfirst.
  - destruct Hfirst as (_ & _ & [Hq | []]).
    destruct (delete_file_not_owned db (rowid entry) q Hq)
      as (db1 & Hdel & Hch & Hf & Hp).
    exists db1. cbn [app reg_entry_unmap_from List.length].
    rewrite Hdel, Hch, without_nil, Z.add_0_r. auto.
  - pose proof Hfirst as (_ & Hown & _).
    destruct (delete_file_owned db (rowid entry) p (Hown p (or_introl eq_refl)))
      as (db1 & Hdel & Hch & Hf & Hp).
    destruct (IH db1 entry q post (i + 1) err
                (first_unowned_step _ _ _ _ _ _ Hfirst Hf))
      as (db' & Hrun & Hf' & Hp').
    exists db'. cbn [app reg_entry_unmap_from List.length].
    rewrite Hdel, Hch, Hrun, Hf', Hf, without_cons.
    repeat split; [f_equal; f_equal; lia | congruence].
Qed.

Lemma entry_obj_unmap_from_spec (pre : list string) :
  forall (db : sqlite3) (entry : reg_entry) (q : string) (post : list string),
  first_unowned db (EntryObj.to_int (rowid entry)) pre q ->
  exists db',
    EntryObj.entry_obj_unmap_from db entry (pre ++ q :: post)
    = (db', Util.mkReply Util.TCL_ERROR
              (Util.String_result (q ++ " is not mapped to this entry")) None)
    /\ files db' = filter (without (EntryObj.to_int (rowid entry)) pre) (files db)
    /\ ports db' = ports db.
Proof.
  induction pre as [|p pre IH]; intros db entry q post Hfirst.
  - destruct Hfirst as (_ & _ & [Hq | []]).
    destruct (delete_file_not_owned db _ q Hq) as (db1 & Hdel & Hch & Hf & Hp).
    exists db1. cbn [app EntryObj.entry_obj_unmap_from].
    rewrite Hdel, Hch, without_nil. auto.
  - pose proof Hfirst as (_ & Hown & _).
    destruct (delete_file_owned db _ p (Hown p (or_introl eq_refl)))
      as (db1 & Hdel & Hch & Hf & Hp).
    destruct (IH db1 entry q post (first_unowned_step _ _ _ _ _ _ Hfirst Hf))
      as (db' & Hrun & Hf' & Hp').
    exists db'. cbn [app EntryObj.entry_obj_unmap_from].
    rewrite Hdel, Hch, Hrun, Hf', Hf, without_cons.
    repeat split; congruence.
Qed.

Lemma not_owned_without (db db' : sqlite3) (id : Z) (done : list string)
    (p : string) :
  files db' = filter (without id done) (files db) ->
  In p done -> owned_by db' id p = false.
Proof.
  unfold owned_by. intros -> Hin.
  induction (files db) as [|f l IH]; simpl; [reflexivity|].
  unfold without at 1.
  destruct (port_id f =? id) eqn:Eid; cbn.
  - destruct (existsb (String.eqb (path f)) done) eqn:Ex; cbn.
    + exact IH.
    + rewrite Eid, IH. cbn. rewrite orb_false_r.
      destruct (String.eqb (path f) p) eqn:Ep; [|reflexivity].
      apply String.eqb_eq in Ep. subst p.
      assert (existsb (String.eqb (path f)) done = true).
      { apply existsb_exists. exists (path f).
        split; [assumption | apply String.eqb_refl]. }
      congruence.
  - rewrite Eid. cbn. exact IH.
Qed.

(** The Tcl command runs the same statements as [reg_entry_unmap], with
    the rowid converted to [int]. *)
Lemma entry_obj_unmap_from_db (paths : list string) :
  forall (db : sqlite3) (entry : reg_entry) (i : Z) (err : reg_error),
  fst (EntryObj.entry_obj_unmap_from db entry paths)
  = fst (fst (reg_entry_unmap_from db
                (mkEntry (EntryObj.to_int (rowid entry))) paths i err)).
Proof.
  induction paths as [|p paths IH]; intros db entry i err.
  - reflexivity.
  - cbn [EntryObj.entry_obj_unmap_from reg_entry_unmap_from rowid].
    unfold delete_file. cbv zeta.
    match goal with |- context [changes ?d =? 0] => destruct (changes d =? 0) end.
    + reflexivity.
    + apply IH.
Qed.

(** The behaviour of [unmap] on a batch whose first path not owned by the
    entry is [q]: the call stops at [q] and fails, the Tcl command with a
    message that names [q], [reg_entry_unmap] with the number of paths
    unmapped before it; the paths before [q] are unbound and stay so. *)
Theorem unmap_stops_at_first_unowned (db : sqlite3) (entry : reg_entry)
    (pre : list string) (q : string) (post : list string) (err : reg_error) :
  first_unowned db (rowid entry) pre q ->
  exists db',
    fst (reg_entry_unmap db entry (pre ++ q :: post) err)
    = (db', Z.of_nat (List.length pre))
    /\ files db' = filter (without (rowid entry) pre) (files db)
    /\ ports db' = ports db
    /\ (forall p, In p pre -> owned_by db' (rowid entry) p = false)
    /\ (EntryObj.to_int (rowid entry) = rowid entry ->
        forall (interp : Util.Tcl_Interp) (cmd sub : string),
          Util.db interp = db ->
          EntryObj.entry_obj_unmap interp entry (cmd :: sub :: pre ++ q :: post)
          = (Util.set_db interp db',
             Util.mkReply Util.TCL_ERROR
               (Util.String_result (q ++ " is not mapped to this entry"))
               None)).
Proof.
  intros Hfirst.
  destruct (reg_entry_unmap_from_spec pre db entry q post 0 err Hfirst)
    as (db' & Hrun & Hf & Hp).
  exists db'. unfold reg_entry_unmap. rewrite Hrun. cbn [fst].
  refine (conj eq_refl (conj Hf (conj Hp (conj _ _)))).
  - intros p Hin. exact (not_owned_without db db' _ pre p Hf Hin).
  - intros Hint interp cmd sub Hdb. subst db.
    unfold EntryObj.entry_obj_unmap. cbn [skipn].
    pose proof (entry_obj_unmap_from_db (pre ++ q :: post) (Util.db interp)
                  entry 0 err) as E.
    rewrite Hint in E. destruct entry as [id]. cbn [rowid] in *.
    rewrite Hrun in E. cbn [fst] in E.
    rewrite <- Hint in Hfirst.
    destruct (entry_obj_unmap_from_spec pre (Util.db interp) (mkEntry id)
                q post Hfirst) as (db2 & Hrun2 & _).
    rewrite Hrun2 in *. cbn [fst] in E. now subst db2.
Qed.

(** The specification's example: entry 1 owns only "/usr/bin/x". *)
Lemma unmap_stops_at_first_unowned_witness :
  first_unowned db_x_owned 1 ["/usr/bin/x"] "/not/mapped"
  /\ exists db',
       fst (reg_entry_unmap db_x_owned (mkEntry 1)
              ["/usr/bin/x"; "/not/mapped"] no_error) = (db', 1)
       /\ files db' = []
       /\ EntryObj.entry_obj_unmap (session db_x_owned) (mkEntry 1)
            ["registry::entry0"; "unmap"; "/usr/bin/x"; "/not/mapped"]
          = (session db',
             Util.mkReply Util.TCL_ERROR
               (Util.String_result "/not/mapped is not mapped to this entry")
               None).
Proof.
  assert (Hfirst : first_unowned db_x_owned 1 ["/usr/bin/x"] "/not/mapped").
  { repeat split.
    - repeat constructor. intros [].
    - intros p [<- | []]. reflexivity.
    - left. reflexivity. }
  split; [exact Hfirst|].
  destruct (unmap_stops_at_first_unowned db_x_owned (mkEntry 1)
              ["/usr/bin/x"] "/not/mapped" [] no_error Hfirst)
    as (db' & Hrun & Hf & _ & _ & Htcl).
  exists db'. split; [exact Hrun|]. split; [exact Hf|].
  exact (Htcl eq_refl (session db_x_owned) "registry::entry0" "unmap" eq_refl).
Defined.

(** C7.  What [reg_entry_unmap] reports where the claim expects the
    not-owned error: on the specification's example the binding of
    "/usr/bin/x" is removed and the call stops at "/not/mapped", but the
    code "registry::not-owned" is overwritten by the message, the
    description is never assigned, and [registry_failed] cannot report
    the error. *)
Theorem unmap_error_code_overwritten :
  exists db',
    reg_entry_unmap db_x_owned (mkEntry 1) ["/usr/bin/x"; "/not/mapped"]
      no_error
    = (db', 1,
       mkError (Some "this entry does not own the given file") None)
    /\ files db' = []
    /\ Entry.registry_failed
         (mkError (Some "this entry does not own the given file") None)
       = Undefined.
Proof.
  eexists. repeat split.
Qed.

End FileMapFacts.

(* ================================================================= *)
(** * Properties of the entry store *)

Module EntryStoreFacts.

Import Sqlite CEntry Spec.

(** *** Deletion *)










(** *** Creation *)

Lemma binary_eq_refl (x : string) : binary_eq (Some x) (Some x) = true.
Proof. apply String.eqb_refl. Qed.

Lemma version_eq_refl (x : string) : version_eq (Some x) (Some x) = true.
Proof.
  unfold version_eq, Vercomp.sql_version.
  now rewrite VercompFacts.rpm_vercomp_refl.
Qed.

Lemma next_rowid_bound (ids : list Z) (id : Z) :
  In id ids -> id < next_rowid ids.
Proof.
  unfold next_rowid. induction ids as [|x ids IH]; simpl; intros H.
  - destruct H.
  - destruct H as [-> | H]; [lia|]. apply IH in H. lia.
Qed.

Lemma next_rowid_fresh (db : sqlite3) :
  has_entry db (next_rowid (map Sqlite.rowid (ports db))) = false.
Proof.
  unfold has_entry.
  destruct (existsb _ (ports db)) eqn:E; [|reflexivity].
  apply existsb_exists in E as (p & Hin & Hp). apply Z.eqb_eq in Hp.
  pose proof (next_rowid_bound (map Sqlite.rowid (ports db)) (Sqlite.rowid p)
                (in_map _ _ _ Hin)). lia.
Qed.

(** The row of a create has no url, so it has the url key of no row. *)
Lemma new_port_url_key (db : sqlite3) (old : port) (id : Z)
    (name version revision variants epoch : string) :
  same_url_key db (new_port id name version revision variants epoch) old
  = false.
Proof. reflexivity. Qed.







(** What the engine of [db_x_owned] does with the identical tuple: the
    version of entry 1 in its index entry is followed by the revision "0"
    and by the byte "U", [sql_version] reads "7.1.0000U" against
    "7.1.000" and returns 1, and the second vim 7.1.000 0 {} 0 becomes
    entry 2. *)
Lemma create_accepts_identical_tuple :
  Vercomp.sql_version 7 (stored_version db_x_owned Autoindex_1
                           (new_port 1 "vim" "7.1.000" "0" "" "0"))
                      7 "7.1.000" = Some 1
  /\ exists db',
       reg_entry_create db_x_owned "vim" "7.1.000" "0" "" "0" no_error
       = (db', Some (mkEntry 2), no_error)
       /\ ports db' = [new_port 1 "vim" "7.1.000" "0" "" "0";
                       new_port 2 "vim" "7.1.000" "0" "" "0"].
Proof.
  split; [reflexivity|]. eexists. split; reflexivity.
Qed.

End EntryStoreFacts.

(* ================================================================= *)
(** * Properties of search and of the entry objects *)

Module SessionFacts.

Import Sqlite CEntry Util Entry Spec.

(** *** Search *)

Lemma eval_where_eq (db : sqlite3) (p : port) (conds : list (string * string)) :
  forallb (fun c => is_column (fst c)) conds = true ->
  eval_where db p (map (fun c => (fst c, OpEq, snd c)) conds)
  = Some (forallb (satisfies p) conds).
Proof.
  induction conds as [|[key lit] conds IH]; cbn [map forallb eval_where fst snd].
  - reflexivity.
  - intros H. apply andb_true_iff in H as [Hkey Hrest].
    unfold eval_cond, satisfies. cbn [fst snd].
    destruct (column key p) as [[v|]|] eqn:Ecol.
    + destruct (column_eq key (Some v) lit); [now apply IH | reflexivity].
    + reflexivity.
    + exfalso. unfold column in Ecol. unfold is_column in Hkey.
      cbn [existsb] in Hkey.
      repeat (destruct (String.eqb key _); [discriminate Ecol|]).
      discriminate Hkey.
Qed.

(** The order of the engine rearranges the rows and loses none. *)
Lemma place_perm (rank : port -> Z) (p : port) (l : list port) :
  Permutation (place rank p l) (p :: l).
Proof.
  induction l as [|q l IH]; cbn [place].
  - apply Permutation_refl.
  - destruct (rank p <=? rank q); [apply Permutation_refl|].
    apply (perm_trans (perm_skip q IH)). apply perm_swap.
Qed.

Lemma in_order_perm (rank : port -> Z) (l : list port) :
  Permutation (in_order rank l) l.
Proof.
  induction l as [|p l IH]; cbn [in_order fold_right].
  - apply perm_nil.
  - apply (perm_trans (place_perm rank p _)). now apply perm_skip.
Qed.

Lemma in_order_length (rank : port -> Z) (l : list port) :
  List.length (in_order rank l) = List.length l.
Proof. apply Permutation_length, in_order_perm. Qed.

(** The statement of an exact search selects the rows that satisfy every
    condition. *)
Lemma select_rows_conjunction (db : sqlite3) (conds : list (string * string))
    (l : list port) :
  forallb (fun c => is_column (fst c)) conds = true ->
  select_rows db l (map (fun c => (fst c, OpEq, snd c)) conds)
  = Some (filter (fun p => forallb (satisfies p) conds) l).
Proof.
  intros Hkeys.
  induction l as [|p l IH]; cbn [select_rows filter].
  - reflexivity.
  - rewrite eval_where_eq by assumption. rewrite IH.
    destruct (forallb (satisfies p) conds); reflexivity.
Qed.

(** It yields them in the order of the engine. *)
Lemma select_rowid_exact (db : sqlite3) (conds : list (string * string)) :
  forallb (fun c => is_column (fst c)) conds = true ->
  select_rowid db (map (fun c => (fst c, OpEq, snd c)) conds)
  = Some (map Sqlite.rowid
            (in_order (scan db (map (fun c => (fst c, OpEq, snd c)) conds))
               (filter (fun p => forallb (satisfies p) conds) (ports db)))).
Proof.
  intros Hkeys. unfold select_rowid.
  assert (E : forallb (fun c : string * operator * string => is_column (fst (fst c)))
                (map (fun c : string * string => (fst c, OpEq, snd c)) conds)
              = true).
  { rewrite forallb_forall in *. intros c Hin.
    apply in_map_iff in Hin as (c0 & <- & Hin). cbn. now apply Hkeys. }
  rewrite E, select_rows_conjunction by exact Hkeys. reflexivity.
Qed.


(** Up to ten rows fit in the first allocation of [reg_all_objects]. *)
Lemma reg_all_objects_rows_small (ids : list Z) :
  forall (results : list (option reg_entry)) (count : Z),
  0 <= count -> count + Z.of_nat (List.length ids) <= 10 ->
  reg_all_objects_rows ids results count 10
  = ((results ++ map (fun id => Some (mkEntry id)) ids)%list,
     count + Z.of_nat (List.length ids)).
Proof.
  induction ids as [|id ids IH]; intros results count H0 Hle.
  - cbn. now rewrite app_nil_r, Z.add_0_r.
  - cbn [reg_all_objects_rows List.length map] in *.
    unfold reg_listcat.
    destruct (Z.eqb_spec count 10) as [E|E]; [lia|].
    rewrite IH by lia. rewrite <- app_assoc. cbn [app]. f_equal. lia.
Qed.

(** The statement of a search without predicates yields every row. *)
Lemma select_rowid_all (db : sqlite3) :
  select_rowid db []
  = Some (map Sqlite.rowid (in_order (scan db []) (ports db))).
Proof.
  pose proof (select_rowid_exact db [] eq_refl) as E.
  cbn [map forallb] in E. rewrite E.
  assert (Hall : filter (fun _ : port => true) (ports db) = ports db).
  { apply FileMapFacts.filter_all. now apply forallb_forall. }
  now rewrite Hall.
Qed.

(** A search without predicates in a registry of at most ten entries
    returns every entry, in the order of the engine. *)
Lemma reg_entry_search_all (db : sqlite3) (err : reg_error) :
  (List.length (ports db) <= 10)%nat ->
  reg_entry_search db [] [] 0 0 err
  = Defined (Z.of_nat (List.length (ports db)),
             map (fun p => Some (mkEntry (Sqlite.rowid p)))
                 (in_order (scan db []) (ports db)), err).
Proof.
  intros Hle. unfold reg_entry_search.
  cbn [reg_strategy_op Z.eqb].
  change (reg_strcat "" 0 32 "SELECT rowid FROM registry.ports")
    with (Some ("SELECT rowid FROM registry.ports", 32, 64)).
  cbn [Z.to_nat reg_entry_search_build].
  unfold reg_all_objects. cbn [conditions].
  rewrite select_rowid_all.
  rewrite reg_all_objects_rows_small;
    rewrite ?length_map, ?in_order_length; try lia.
  cbn [app]. rewrite Z.add_0_l, map_map. reflexivity.
Qed.

(** C6.  What [entry_search] does where the claim expects the conjunction
    of all predicates: with the two predicates name=vim and state=active
    the loop that fills the arrays copies the first pair only, the second
    slot of each array is never assigned, and the search that reads it is
    undefined.  Given both pairs, [reg_entry_search] returns exactly the
    one entry that satisfies both. *)
Theorem search_second_predicate_unassigned :
  fill_keys ["registry::entry"; "search"; "name"; "vim"; "state"; "active"]
            2 3 0 [None; None] [None; None]
  = ([Some "name"; None], [Some "vim"; None])
  /\ entry_search (session db_five)
       ["registry::entry"; "search"; "name"; "vim"; "state"; "active"]
     = Undefined
  /\ reg_entry_search db_five [Some "name"; Some "state"]
       [Some "vim"; Some "active"] 2 0 no_error
     = Defined (1, [Some (mkEntry 3)], no_error)
  /\ matching db_five [("name", "vim"); ("state", "active")] = [3].
Proof.
  repeat split; vm_compute; reflexivity.
Qed.

(** With one predicate, and with none, [entry_search] answers as
    specified on the registry of the tests. *)
Lemma search_one_predicate :
  exists interp,
    entry_search (session db_five) ["registry::entry"; "search"; "state"; "active"]
    = Defined (interp,
               mkReply TCL_OK
                 (List_result ["registry::entry0"; "registry::entry1"]) None)
    /\ Tcl_GetCommandInfo interp "registry::entry0"
       = Some (Entry_obj_cmd (mkEntry 3))
    /\ Tcl_GetCommandInfo interp "registry::entry1"
       = Some (Entry_obj_cmd (mkEntry 4)).
Proof.
  eexists. repeat split; vm_compute; reflexivity.
Qed.

Lemma search_no_predicate :
  exists interp,
    entry_search (session db_five) ["registry::entry"; "search"]
    = Defined (interp,
               mkReply TCL_OK
                 (List_result ["registry::entry0"; "registry::entry1";
                               "registry::entry2"; "registry::entry3";
                               "registry::entry4"]) None).
Proof.
  eexists. vm_compute. reflexivity.
Qed.

(** The eleventh row of a result makes [reg_listcat] move the array, and
    the move loses all but the first of the ten entries collected so
    far. *)
Lemma reg_all_objects_eleven_rows :
  reg_all_objects_rows [1; 2; 3; 4; 5; 6; 7; 8; 9; 10; 11] [] 0 10
  = ([Some (mkEntry 1); None; None; None; None; None; None; None; None; None;
      Some (mkEntry 11)], 11).
Proof.
  vm_compute. reflexivity.
Qed.

(** *** Entry objects *)

(** C9.  What the session does where the claim expects one handle per
    entry identity: [entry_create] exposes the new entry 1 as
    "registry::entry0" without recording the pair, so the search that
    follows finds no record for entry 1, makes the second command
    "registry::entry1" for it and records that one; both commands stand
    for entry 1. *)
Theorem create_then_search_two_handles :
  exists interp1 interp2,
    entry_create (session empty_db)
      ["registry::entry"; "create"; "vim"; "7.1.000"; "0"; "multibyte +"; "0"]
    = Defined (interp1, mkReply TCL_OK (String_result "registry::entry0") None)
    /\ entry_procs (db interp1) = []
    /\ entry_search interp1 ["registry::entry"; "search"]
       = Defined (interp2,
                  mkReply TCL_OK (List_result ["registry::entry1"]) None)
    /\ Tcl_GetCommandInfo interp2 "registry::entry0"
       = Some (Entry_obj_cmd (mkEntry 1))
    /\ Tcl_GetCommandInfo interp2 "registry::entry1"
       = Some (Entry_obj_cmd (mkEntry 1))
    /\ select_proc (db interp2) 1 = Some "registry::entry1".
Proof.
  do 2 eexists. repeat split; vm_compute; reflexivity.
Qed.

(** An entry that [entry_to_obj] has on record is exposed under the
    recorded name, and nothing changes. *)
Lemma entry_to_obj_recorded (interp : Tcl_Interp) (entry : reg_entry)
    (name : string) (err : reg_error) :
  select_proc (db interp) (rowid entry) = Some name ->
  entry_to_obj interp entry err = Defined (interp, Some name, err).
Proof.
  intros H. unfold entry_to_obj, registry_db. cbn [andb]. now rewrite H.
Qed.

(** Two searches in a row expose an entry under one name. *)
Lemma search_twice_one_handle :
  exists interp1 interp2,
    entry_search (session db_x_owned) ["registry::entry"; "search"]
    = Defined (interp1,
               mkReply TCL_OK (List_result ["registry::entry0"]) None)
    /\ entry_search interp1 ["registry::entry"; "search"]
       = Defined (interp2,
                  mkReply TCL_OK (List_result ["registry::entry0"]) None)
    /\ commands interp2 = commands interp1.
Proof.
  do 2 eexists. repeat split; vm_compute; reflexivity.
Qed.

(** *** Closing *)

(** Whatever its arguments, [entry_close] leaves the connection as it
    was. *)
Lemma entry_close_from_db (procs : list string) :
  forall (interp interp' : Tcl_Interp) (r : reply),
  entry_close_from interp procs = Defined (interp', r) ->
  db interp' = db interp /\ attached interp' = attached interp.
Proof.
  induction procs as [|proc procs IH]; intros interp interp' r H.
  - cbn in H. inversion H; subst. auto.
  - cbn [entry_close_from] in H.
    destruct (get_entry interp proc no_error) as [[e|] error].
    + apply IH in H. exact H.
    + destruct (registry_failed error); inversion H; subst. auto.
Qed.

(** Closing a valid entry handle succeeds, removes the command of that
    handle and no other, and leaves the connection untouched: the Entries
    and FileOwnership tables after the close are the tables before it.
    The statement of a later search still selects the row of the entry. *)
Lemma close_leaves_storage (interp : Tcl_Interp) (cmd sub proc : string)
    (entry : reg_entry) :
  Tcl_GetCommandInfo interp proc = Some (Entry_obj_cmd entry) ->
  exists interp',
    entry_close interp [cmd; sub; proc]
    = Defined (interp', mkReply TCL_OK (String_result "") None)
    /\ Tcl_GetCommandInfo interp' proc = None
    /\ (forall other, other <> proc ->
        Tcl_GetCommandInfo interp' other = Tcl_GetCommandInfo interp other)
    /\ db interp' = db interp
    /\ ports (db interp') = ports (db interp)
    /\ files (db interp') = files (db interp)
    /\ (has_entry (db interp) (rowid entry) = true ->
        exists ids,
          select_rowid (db interp') [] = Some ids /\ In (rowid entry) ids).
Proof.
  intros Hcmd. exists (Tcl_DeleteCommand interp proc).
  unfold entry_close. cbn [skipn entry_close_from].
  unfold get_entry, get_object. rewrite Hcmd.
  refine (conj eq_refl (conj _ (conj _ (conj eq_refl
           (conj eq_refl (conj eq_refl _)))))).
  - unfold Tcl_GetCommandInfo, Tcl_DeleteCommand. cbn [commands set_commands].
    now rewrite HostFacts.find_command_deleted.
  - intros other Hne.
    unfold Tcl_GetCommandInfo, Tcl_DeleteCommand. cbn [commands set_commands].
    now rewrite HostFacts.find_command_other.
  - intros Hhas. cbn [Tcl_DeleteCommand set_commands db].
    rewrite select_rowid_all. eexists. split; [reflexivity|].
    unfold has_entry in Hhas. apply existsb_exists in Hhas as (p & Hin & Hp).
    apply Z.eqb_eq in Hp. rewrite <- Hp. apply in_map.
    apply (Permutation_in _ (Permutation_sym (in_order_perm _ _))).
    exact Hin.
Qed.

(** C10.  What the session does where the claim expects the closed entry
    to be found again: a search exposes entry 1 as "registry::entry0" and
    records the pair; the close of "registry::entry0" succeeds, removes
    that command and leaves the connection, the record included, as it
    was; the search that follows finds the record and answers with the
    name "registry::entry0", which is no command any more, so that the
    entry it was asked for cannot be reached through the answer: closing
    the name again is refused. *)
Theorem search_after_close_recorded_name :
  exists interp1 interp2 interp3,
    entry_search (session db_x_owned) ["registry::entry"; "search"]
    = Defined (interp1,
               mkReply TCL_OK (List_result ["registry::entry0"]) None)
    /\ Tcl_GetCommandInfo interp1 "registry::entry0"
       = Some (Entry_obj_cmd (mkEntry 1))
    /\ entry_close interp1 ["registry::entry"; "close"; "registry::entry0"]
       = Defined (interp2, mkReply TCL_OK (String_result "") None)
    /\ db interp2 = db interp1
    /\ select_proc (db interp2) 1 = Some "registry::entry0"
    /\ entry_search interp2 ["registry::entry"; "search"]
       = Defined (interp3,
                  mkReply TCL_OK (List_result ["registry::entry0"]) None)
    /\ Tcl_GetCommandInfo interp3 "registry::entry0" = None
    /\ exists r,
         entry_close interp3 ["registry::entry"; "close"; "registry::entry0"]
         = Defined (interp3, r)
         /\ reply_status r = TCL_ERROR.
Proof.
  do 3 eexists. repeat split; try (vm_compute; reflexivity).
  eexists. split; vm_compute; reflexivity.
Qed.

End SessionFacts.

(* ================================================================= *)
(** * Laws of the version comparator *)

Module VercompLaws.

Import Vercomp VercompFacts.

Lemma string_length_app (s t : string) :
  String.length (s ++ t) = (String.length s + String.length t)%nat.
Proof. induction s as [|c s IH]; simpl; [reflexivity | now rewrite IH]. Qed.

Lemma append_assoc (s t u : string) : (s ++ t) ++ u = s ++ t ++ u.
Proof. induction s as [|c s IH]; simpl; [reflexivity | now rewrite IH]. Qed.

Lemma lexcmp_same (s : string) : lexcmp s s = None.
Proof.
  induction s as [|c s IH]; simpl; [reflexivity|].
  now rewrite Ascii.eqb_refl.
Qed.

Lemma isalnum_false (c : ascii) :
  isalnum c = false -> isalpha c = false /\ isdigit c = false.
Proof. unfold isalnum. intros H. now apply orb_false_iff in H. Qed.

(** Scanning a segment stops at a byte of another class, so what follows
    such a byte does not matter. *)
Lemma skip_nonalnum_app_alnum (X T : string) :
  skip_nonalnum X <> EmptyString ->
  skip_nonalnum (X ++ T) = skip_nonalnum X ++ T.
Proof.
  induction X as [|c X IH]; simpl; intros H; [contradiction|].
  destruct (isalnum c); [reflexivity | now apply IH].
Qed.

Lemma scan_alpha_app_other (X T : string) :
  isalpha (deref T) = false ->
  scan_alpha (X ++ T) = (fst (scan_alpha X), snd (scan_alpha X) ++ T).
Proof.
  intros HT. induction X as [|c X IH]; simpl.
  - destruct T as [|t T]; [reflexivity|]. simpl in *. now rewrite HT.
  - destruct (isalpha c); [|reflexivity].
    rewrite IH. now destruct (scan_alpha X).
Qed.

Lemma scan_digits_app_other (X T : string) (n : Z) :
  isdigit (deref T) = false ->
  scan_digits (X ++ T) n
  = (fst (fst (scan_digits X n)), snd (fst (scan_digits X n)) ++ T,
     snd (scan_digits X n)).
Proof.
  intros HT. revert n. induction X as [|c X IH]; intros n; simpl.
  - destruct T as [|t T]; [reflexivity|]. simpl in *. now rewrite HT.
  - destruct (isdigit c); [|reflexivity].
    rewrite IH. now destruct (scan_digits X (n + 1)) as [[seg e] m].
Qed.

(** One pass of the loop body over a common prefix [X] that is followed,
    in each string, by the end or by a separator: the pass returns
    nothing and leaves both pointers inside [X], at the same place. *)
Lemma loop_body_common (X T1 T2 : string) :
  X <> EmptyString -> ends_alnum X = true ->
  isalnum (deref T1) = false -> isalnum (deref T2) = false ->
  exists e,
    loop_body (X ++ T1) (X ++ T2) = inr (e ++ T1, e ++ T2)
    /\ ends_alnum e = true
    /\ (String.length e < String.length X)%nat.
Proof.
  intros Hne Hends H1 H2.
  apply isalnum_false in H1 as [Ha1 Hd1].
  apply isalnum_false in H2 as [Ha2 Hd2].
  pose proof (ends_alnum_head X Hends Hne) as Hhead.
  pose proof (ends_alnum_skip X Hends) as Hends'.
  pose proof (skip_nonalnum_length X) as Hlen.
  assert (Hskip : skip_nonalnum X <> EmptyString).
  { intros E. rewrite E in Hhead. discriminate Hhead. }
  unfold loop_body. rewrite !skip_nonalnum_app_alnum by exact Hskip.
  destruct (skip_nonalnum X) as [|c X']; [contradiction|].
  cbn [append deref] in *.
  replace (negb (isdigit c) && isdigit c) with false
    by (destruct (isdigit c); reflexivity).
  unfold isalnum in Hhead.
  destruct (isalpha c) eqn:Ac.
  - assert (Dc : isdigit c = false).
    { destruct (isdigit c) eqn:E; [|reflexivity].
      apply isdigit_isalpha in E. congruence. }
    rewrite Dc. cbn [andb orb].
    change (String c (X' ++ T1)) with (String c X' ++ T1).
    change (String c (X' ++ T2)) with (String c X' ++ T2).
    rewrite !scan_alpha_app_other by assumption.
    pose proof (ends_alnum_scan_alpha (String c X') Hends') as He.
    pose proof (scan_alpha_length X') as Hl.
    cbn [scan_alpha] in *. rewrite Ac in *.
    destruct (scan_alpha X') as [seg e]. cbn [fst snd] in *.
    rewrite lexcmp_same. exists e.
    cbn [String.length] in *. repeat split; [exact He | lia].
  - cbn [orb] in Hhead. rewrite Hhead. cbn [andb orb].
    change (String c (X' ++ T1)) with (String c X' ++ T1).
    change (String c (X' ++ T2)) with (String c X' ++ T2).
    rewrite !scan_digits_app_other by assumption.
    pose proof (ends_alnum_scan_digits (String c X') 0 Hends') as He.
    pose proof (scan_digits_length X' (0 + 1)) as Hl.
    cbn [scan_digits] in *. rewrite Hhead in *.
    destruct (scan_digits X' (0 + 1)) as [[seg e] m]. cbn [fst snd] in *.
    destruct (skip_zeros (String c seg) m) as [seg' m'].
    rewrite Z.gtb_ltb, Z.ltb_irrefl, lexcmp_same.
    exists e. cbn [String.length] in *. repeat split; [exact He | lia].
Qed.

(** The loop walks over a common prefix without deciding. *)
Lemma vercomp_loop_common (fuel : nat) :
  forall X T1 T2 : string,
  ends_alnum X = true ->
  isalnum (deref T1) = false -> isalnum (deref T2) = false ->
  (String.length (X ++ T1) < fuel)%nat ->
  vercomp_loop fuel (X ++ T1) (X ++ T2) = vercomp_loop fuel T1 T2.
Proof.
  induction fuel as [|fuel IH]; intros X T1 T2 Hends H1 H2 Hlen; [lia|].
  destruct X as [|x X0]; [reflexivity|].
  destruct (loop_body_common (String x X0) T1 T2) as (e & Hbody & He & Hle);
    try assumption; try discriminate.
  rewrite string_length_app in Hlen.
  change (vercomp_loop (S fuel) (String x X0 ++ T1) (String x X0 ++ T2))
    with (match loop_body (String x X0 ++ T1) (String x X0 ++ T2) with
          | inl r => Some r
          | inr (a, b) => vercomp_loop fuel a b
          end).
  rewrite Hbody, IH; try assumption.
  - rewrite (vercomp_loop_enough fuel), (vercomp_loop_enough (S fuel))
      by (cbn [String.length] in *; lia).
    reflexivity.
  - rewrite string_length_app. cbn [String.length] in *. lia.
Qed.

(** A string compared with itself by the loop. *)
Lemma loop_body_same (Y : string) :
  exists e, loop_body Y Y = inr (e, e)
            /\ (String.length e <= String.length Y)%nat.
Proof.
  unfold loop_body. pose proof (skip_nonalnum_length Y) as Hlen.
  set (p := skip_nonalnum Y) in *.
  replace (negb (isdigit (deref p)) && isdigit (deref p)) with false
    by (destruct (isdigit (deref p)); reflexivity).
  replace (isdigit (deref p) && isalpha (deref p)
           || isalpha (deref p) && isdigit (deref p)) with false.
  2:{ destruct (isdigit (deref p)) eqn:E.
      - now rewrite (isdigit_isalpha _ E).
      - now rewrite andb_false_r. }
  destruct (isalpha (deref p)).
  - pose proof (scan_alpha_length p) as Hl.
    destruct (scan_alpha p) as [seg e]. rewrite lexcmp_same.
    exists e. split; [reflexivity | cbn [snd] in Hl; lia].
  - pose proof (scan_digits_length p 0) as Hl.
    destruct (scan_digits p 0) as [[seg e] m].
    destruct (skip_zeros seg m) as [seg' m'].
    rewrite Z.gtb_ltb, Z.ltb_irrefl, lexcmp_same.
    exists e. split; [reflexivity | cbn [fst snd] in Hl; lia].
Qed.

Lemma vercomp_loop_same (fuel : nat) :
  forall Y : string,
  (String.length Y < fuel)%nat -> vercomp_loop fuel Y Y = Some 0.
Proof.
  induction fuel as [|fuel IH]; intros Y Hlen; [lia|].
  cbn [vercomp_loop]. destruct Y as [|y Y0]; [reflexivity|].
  cbn [at_end orb].
  destruct (loop_body_same (String y Y0)) as (e & Hbody & Hle).
  assert (Hlt : (String.length e < String.length (String y Y0))%nat).
  { apply (loop_body_length (String y Y0) (String y Y0) e e);
      [discriminate | exact Hbody]. }
  rewrite Hbody. apply IH. lia.
Qed.

(** Appending anything that begins with a separator to a version that
    does not end in one gives a greater version. *)
Theorem longer_version_is_greater (A ext : string) :
  ends_alnum A = true ->
  ext <> EmptyString -> isalnum (deref ext) = false ->
  rpm_vercomp A (A ++ ext) = Some (-1)
  /\ rpm_vercomp (A ++ ext) A = Some 1.
Proof.
  intros Hends Hne Hsep.
  assert (Hext : at_end ext = false) by (destruct ext; [contradiction | reflexivity]).
  unfold rpm_vercomp.
  rewrite (String.eqb_sym (A ++ ext) A), eqb_app_nonempty by exact Hne.
  split.
  - pose proof (vercomp_loop_common (S (String.length A)) A "" ext
                  Hends eq_refl Hsep) as H.
    rewrite append_empty in H. rewrite H by lia.
    cbn [vercomp_loop at_end orb]. unfold after_loop. cbn [at_end andb negb].
    now rewrite Hext.
  - pose proof (vercomp_loop_common (S (String.length (A ++ ext))) A ext ""
                  Hends Hsep eq_refl) as H.
    rewrite append_empty in H. rewrite H by lia.
    cbn [vercomp_loop]. rewrite Hext. cbn [at_end orb].
    unfold after_loop. rewrite Hext. reflexivity.
Qed.

Lemma longer_version_is_greater_witness :
  (ends_alnum "1.0" = true /\ ".0" <> EmptyString
   /\ isalnum (deref ".0") = false)
  /\ rpm_vercomp "1.0" "1.0.0" = Some (-1)
  /\ rpm_vercomp "1.0.0" "1.0" = Some 1.
Proof.
  split; [repeat split; discriminate|].
  apply (longer_version_is_greater "1.0" ".0");
    [reflexivity | discriminate | reflexivity].
Defined.

(** Which separators stand between two parts of a version, and how many,
    does not matter. *)
Theorem separators_do_not_matter (X s1 s2 B : string) :
  ends_alnum X = true ->
  all_of (fun c => negb (isalnum c)) s1 = true -> s1 <> EmptyString ->
  all_of (fun c => negb (isalnum c)) s2 = true -> s2 <> EmptyString ->
  rpm_vercomp (X ++ s1 ++ B) (X ++ s2 ++ B) = Some 0.
Proof.
  intros Hends Hs1 Hn1 Hs2 Hn2.
  assert (Hd1 : isalnum (deref (s1 ++ B)) = false).
  { destruct s1 as [|c s1]; [contradiction|]. cbn in *.
    apply andb_true_iff in Hs1 as [Hc _]. now apply negb_true_iff in Hc. }
  assert (Hd2 : isalnum (deref (s2 ++ B)) = false).
  { destruct s2 as [|c s2]; [contradiction|]. cbn in *.
    apply andb_true_iff in Hs2 as [Hc _]. now apply negb_true_iff in Hc. }
  unfold rpm_vercomp.
  destruct (String.eqb (X ++ s1 ++ B) (X ++ s2 ++ B)); [reflexivity|].
  rewrite vercomp_loop_common by (assumption || lia).
  cbn [vercomp_loop]. rewrite !at_end_app.
  replace (at_end s1) with false by (destruct s1; [contradiction | reflexivity]).
  replace (at_end s2) with false by (destruct s2; [contradiction | reflexivity]).
  cbn [andb orb].
  assert (Hbody : loop_body (s1 ++ B) (s2 ++ B) = loop_body B B).
  { unfold loop_body. now rewrite !skip_nonalnum_app by assumption. }
  rewrite Hbody.
  destruct (loop_body_same B) as (e & -> & Hle).
  apply vercomp_loop_same. rewrite !string_length_app.
  assert (0 < String.length s1)%nat
    by (destruct s1; [contradiction | cbn; lia]).
  lia.
Qed.

Lemma separators_do_not_matter_witness :
  (ends_alnum "1" = true
   /\ all_of (fun c => negb (isalnum c)) "." = true /\ "." <> EmptyString
   /\ all_of (fun c => negb (isalnum c)) "-_" = true /\ "-_" <> EmptyString)
  /\ rpm_vercomp "1.2rc1" "1-_2rc1" = Some 0.
Proof.
  split; [repeat split; discriminate|].
  apply (separators_do_not_matter "1" "." "-_" "2rc1");
    [reflexivity | reflexivity | discriminate | reflexivity | discriminate].
Defined.

(** At the same place of two versions, a numeric segment makes its
    version greater than an alphabetic segment does. *)
Theorem numeric_beats_alphabetic (X sa sb A B : string) :
  ends_alnum X = true ->
  all_of (fun c => negb (isalnum c)) sa = true ->
  all_of (fun c => negb (isalnum c)) sb = true ->
  X = EmptyString \/ (sa <> EmptyString /\ sb <> EmptyString) ->
  isdigit (deref A) = true -> isalpha (deref B) = true ->
  rpm_vercomp (X ++ sa ++ A) (X ++ sb ++ B) = Some 1
  /\ rpm_vercomp (X ++ sb ++ B) (X ++ sa ++ A) = Some (-1).
Proof.
  intros Hends Hsa Hsb Hsep HA HB.
  assert (HdB : isdigit (deref B) = false).
  { destruct (isdigit (deref B)) eqn:E; [|reflexivity].
    apply isdigit_isalpha in E. congruence. }
  assert (HskA : skip_nonalnum (sa ++ A) = A).
  { rewrite skip_nonalnum_app by assumption.
    apply skip_nonalnum_fix. now apply isdigit_isalnum. }
  assert (HskB : skip_nonalnum (sb ++ B) = B).
  { rewrite skip_nonalnum_app by assumption.
    apply skip_nonalnum_fix. now apply isalpha_isalnum. }
  assert (HneA : at_end (sa ++ A) = false).
  { rewrite at_end_app. destruct A; [discriminate HA|].
    now rewrite andb_false_r. }
  assert (HneB : at_end (sb ++ B) = false).
  { rewrite at_end_app. destruct B; [discriminate HB|].
    now rewrite andb_false_r. }
  assert (Hneq : String.eqb (X ++ sa ++ A) (X ++ sb ++ B) = false).
  { apply String.eqb_neq. intros E. apply HostFacts.append_inj in E.
    assert (E' : A = B) by (rewrite <- HskA, <- HskB; now rewrite E).
    subst B. congruence. }
  assert (Hab : vercomp_loop (S (String.length (X ++ sa ++ A)))
                  (sa ++ A) (sb ++ B) = Some 1).
  { cbn [vercomp_loop]. rewrite HneA, HneB. cbn [orb].
    unfold loop_body. rewrite HskA, HskB, HdB, HA. reflexivity. }
  assert (Hba : vercomp_loop (S (String.length (X ++ sb ++ B)))
                  (sb ++ B) (sa ++ A) = Some (-1)).
  { cbn [vercomp_loop]. rewrite HneA, HneB. cbn [orb].
    unfold loop_body. rewrite HskA, HskB, HdB, HA, HB. reflexivity. }
  unfold rpm_vercomp.
  rewrite (String.eqb_sym (X ++ sb ++ B)), Hneq.
  destruct Hsep as [-> | [Hna Hnb]].
  - cbn [append] in *. split; assumption.
  - assert (Hd1 : isalnum (deref (sa ++ A)) = false).
    { destruct sa as [|c sa]; [contradiction|]. cbn in *.
      apply andb_true_iff in Hsa as [Hc _]. now apply negb_true_iff in Hc. }
    assert (Hd2 : isalnum (deref (sb ++ B)) = false).
    { destruct sb as [|c sb]; [contradiction|]. cbn in *.
      apply andb_true_iff in Hsb as [Hc _]. now apply negb_true_iff in Hc. }
    rewrite !vercomp_loop_common by (assumption || lia).
    split; assumption.
Qed.

Lemma numeric_beats_alphabetic_witness :
  (ends_alnum "1" = true
   /\ all_of (fun c => negb (isalnum c)) "." = true
   /\ ("1" = EmptyString \/ ("." <> EmptyString /\ "." <> EmptyString))
   /\ isdigit (deref "0") = true /\ isalpha (deref "beta") = true)
  /\ rpm_vercomp "1.0" "1.beta" = Some 1
  /\ rpm_vercomp "1.beta" "1.0" = Some (-1).
Proof.
  assert (H : "1" = EmptyString \/ ("." <> EmptyString /\ "." <> EmptyString))
    by (right; split; discriminate).
  split; [repeat split; assumption|].
  exact (numeric_beats_alphabetic "1" "." "." "0" "beta" eq_refl eq_refl
           eq_refl H eq_refl eq_refl).
Defined.

(** The alphabetic rule at work: a version that is an alphabetic prefix of
    another compares equal with it. *)
Lemma alpha_prefix_compares_equal_witness :
  (all_of isalpha "rc" = true /\ all_of isalpha "x" = true)
  /\ rpm_vercomp "rc" "rcx" = Some 0 /\ rpm_vercomp "rcx" "rc" = Some 0.
Proof.
  split; [split; reflexivity|].
  apply (alpha_prefix_compares_equal "rc" "x");
    [reflexivity | discriminate | reflexivity | discriminate].
Defined.

(** *** Numeric segments, for whole versions *)

(** [rpm_vercomp] is its loop: on two identical strings the loop returns
    the 0 that the [strcmp] shortcut returns. *)
Lemma rpm_vercomp_is_loop (a b : string) :
  rpm_vercomp a b = vercomp_loop (S (String.length a)) a b.
Proof.
  unfold rpm_vercomp. destruct (String.eqb_spec a b) as [->|_]; [|reflexivity].
  symmetry. apply vercomp_loop_same. lia.
Qed.

(** C1.  Two versions that agree up to a place where each has a numeric
    segment (after the same, or after any, separators): the leading zeros
    of the two digit runs are stripped; the version whose remaining run is
    the longer is the greater, whatever the digits are; runs of the same
    length are compared byte by byte and the first differing byte decides
    by its code; equal runs leave the decision to what follows them.  In
    particular [compare "7.1.000" "7.1.002"] and [compare "1.2.3" "1.2.10"]
    are both [Less]. *)
Theorem numeric_segments_compare (X sa sb da db ra rb : string) :
  ends_alnum X = true ->
  all_of (fun c => negb (isalnum c)) sa = true ->
  all_of (fun c => negb (isalnum c)) sb = true ->
  X = EmptyString \/ (sa <> EmptyString /\ sb <> EmptyString) ->
  all_of isdigit da = true -> da <> EmptyString ->
  all_of isdigit db = true -> db <> EmptyString ->
  isdigit (deref ra) = false -> isdigit (deref rb) = false ->
  rpm_vercomp (X ++ sa ++ da ++ ra) (X ++ sb ++ db ++ rb) =
    (let ta := strip_leading_zeros da in
     let tb := strip_leading_zeros db in
     if (String.length tb <? String.length ta)%nat then Some 1
     else if (String.length ta <? String.length tb)%nat then Some (-1)
     else match first_mismatch ta tb with
          | Some (x, y) => Some (code x - code y)
          | None => rpm_vercomp ra rb
          end)
  /\ compare "7.1.000" "7.1.002" = Some Less
  /\ compare "1.2.3" "1.2.10" = Some Less.
Proof.
  intros Hends Hsa Hsb Hsep Hda Hna Hdb Hnb Hra Hrb.
  split; [|split; reflexivity].
  rewrite rpm_vercomp_is_loop.
  assert (Hlen : (String.length ra
                  < String.length (X ++ sa ++ da ++ ra))%nat).
  { rewrite !string_length_app.
    destruct da; [contradiction | cbn [String.length]; lia]. }
  assert (Hcommon :
    vercomp_loop (S (String.length (X ++ sa ++ da ++ ra)))
      (X ++ sa ++ da ++ ra) (X ++ sb ++ db ++ rb)
    = vercomp_loop (S (String.length (X ++ sa ++ da ++ ra)))
        (sa ++ da ++ ra) (sb ++ db ++ rb)).
  { destruct Hsep as [-> | [Hnsa Hnsb]]; [reflexivity|].
    apply vercomp_loop_common; [exact Hends | | | lia].
    - destruct sa as [|c sa]; [contradiction|]. cbn in *.
      apply andb_true_iff in Hsa as [Hc _]. now apply negb_true_iff in Hc.
    - destruct sb as [|c sb]; [contradiction|]. cbn in *.
      apply andb_true_iff in Hsb as [Hc _]. now apply negb_true_iff in Hc. }
  rewrite Hcommon.
  rewrite (numeric_step _ sa sb da db ra rb) by assumption.
  cbv zeta.
  destruct (String.length (strip_leading_zeros db)
            <? String.length (strip_leading_zeros da))%nat; [reflexivity|].
  destruct (String.length (strip_leading_zeros da)
            <? String.length (strip_leading_zeros db))%nat; [reflexivity|].
  destruct (first_mismatch (strip_leading_zeros da) (strip_leading_zeros db))
    as [[x y]|]; [reflexivity|].
  rewrite rpm_vercomp_is_loop. now apply vercomp_loop_enough.
Qed.

(** The rule at work on "7.1.000" and "7.1.002", which agree up to their
    third segments: stripped of its zeros the first run is empty and the
    second is "2", so the second version is the greater; and on "1.2.3"
    and "1.2.10", where "10" is the longer run. *)
Lemma numeric_segments_compare_witness :
  (ends_alnum "7.1" = true
   /\ all_of (fun c => negb (isalnum c)) "." = true
   /\ all_of isdigit "000" = true /\ all_of isdigit "002" = true
   /\ isdigit (deref "") = false)
  /\ rpm_vercomp "7.1.000" "7.1.002" = Some (-1)
  /\ compare "7.1.000" "7.1.002" = Some Less
  /\ compare "1.2.3" "1.2.10" = Some Less.
Proof.
  split; [repeat split; reflexivity|].
  assert (H : "7.1" = EmptyString \/ ("." <> EmptyString /\ "." <> EmptyString))
    by (right; split; discriminate).
  exact (numeric_segments_compare "7.1" "." "." "000" "002" "" ""
           eq_refl eq_refl eq_refl H eq_refl ltac:(discriminate)
           eq_refl ltac:(discriminate) eq_refl eq_refl).
Defined.

End VercompLaws.

(* ================================================================= *)
(** * Laws of the search *)

Module SearchLaws.

Import Sqlite CEntry Util Entry Spec.

(** [%q] never shortens a text. *)
Lemma sql_quote_length (s : string) :
  (String.length s <= String.length (sql_quote s))%nat.
Proof.
  induction s as [|c s IH]; simpl; [lia|].
  destruct (Ascii.eqb c "'"%char); simpl; lia.
Qed.


(** The text of one condition of the query. *)
Lemma condition_length (kwd key op val : string) :
  String.length (kwd ++ key ++ op ++ "'" ++ sql_quote val ++ "'")
  = (String.length kwd + String.length key + String.length op
     + String.length (sql_quote val) + 2)%nat.
Proof.
  rewrite !VercompLaws.string_length_app. cbn [String.length]. lia.
Qed.





(** A condition that is too long for the doubled buffer is written past
    its end: a search whose first key and value have 86 bytes or more
    together has no defined result, whatever the registry holds. *)
Theorem search_long_value_overflows (db : sqlite3)
    (keys vals : list (option string)) (key val : string)
    (key_count strategy : Z) (err : reg_error) :
  0 <= strategy <= 2 -> 1 <= key_count ->
  nth_error keys 0 = Some (Some key) -> nth_error vals 0 = Some (Some val) ->
  (86 <= String.length key + String.length val)%nat ->
  reg_entry_search db keys vals key_count strategy err = Undefined
  /\ forall (interp : Tcl_Interp) (cmd sub : string),
       attached interp = true ->
       Tcl_GetIndexFromObj entry_props key <> None ->
       entry_search interp [cmd; sub; key; val] = Undefined.
Proof.
  intros Hs Hn Hkeys Hvals Hlong.
  assert (Hgen : forall (d : sqlite3) (ks vs : list (option string))
                        (n s : Z) (e : reg_error),
            0 <= s <= 2 -> 1 <= n ->
            nth_error ks 0 = Some (Some key) ->
            nth_error vs 0 = Some (Some val) ->
            reg_entry_search d ks vs n s e = Undefined).
  { clear - Hlong. intros d ks vs n s e Hs Hn Hks Hvs.
    assert (Hbuild : forall op : operator * string,
              (1 <= String.length (snd op))%nat ->
              forall m, reg_entry_search_build ks vs op (S m) 0 " WHERE "
                          (mkQuery "SELECT rowid FROM registry.ports" 32 64 [])
                        = Undefined).
    { intros op Hop m. cbn [reg_entry_search_build]. rewrite Hks, Hvs.
      cbn [query query_len query_space]. unfold reg_strcat.
      rewrite condition_length. pose proof (sql_quote_length val) as Hq.
      cbn [String.length].
      destruct (_ >=? 64) eqn:Hfull.
      - destruct (Z.leb_spec
                    (32 + Z.of_nat (7 + String.length key
                                    + String.length (snd op)
                                    + String.length (sql_quote val) + 2) + 1)
                    (64 * 2)) as [Hbad|_]; [lia | reflexivity].
      - rewrite Z.geb_leb in Hfull. apply Z.leb_gt in Hfull. lia. }
    unfold reg_entry_search, reg_strategy_op.
    destruct (Z.to_nat n) as [|m] eqn:Hkc; [lia|].
    change (reg_strcat "" 0 32 "SELECT rowid FROM registry.ports")
      with (Some ("SELECT rowid FROM registry.ports", 32, 64)).
    destruct (s =? 0) eqn:E0; [now rewrite Hbuild by (cbn; lia)|].
    destruct (s =? 1) eqn:E1; [now rewrite Hbuild by (cbn; lia)|].
    destruct (s =? 2) eqn:E2; [now rewrite Hbuild by (cbn; lia)|].
    lia. }
  split; [now apply Hgen|].
  intros interp cmd sub Hatt Hkey. unfold entry_search.
  cbn [List.length Nat.modulo Nat.divmod fst snd Nat.eqb Nat.div Nat.sub].
  unfold registry_db. rewrite Hatt. cbn [negb andb skipn first_bad_key].
  destruct (Tcl_GetIndexFromObj entry_props key); [|contradiction].
  cbn [fill_keys Nat.ltb Nat.leb repeat firstn skipn app Nat.mul Nat.add
       nth_error].
  rewrite Hgen; [reflexivity | lia | lia | reflexivity | reflexivity].
Qed.

Lemma search_long_value_overflows_witness :
  (86 <= String.length "name" + String.length
    "a-very-long-port-name-a-very-long-port-name-a-very-long-port-name-a-very-long-port")%nat
  /\ reg_entry_search db_five [Some "name"] [Some
    "a-very-long-port-name-a-very-long-port-name-a-very-long-port-name-a-very-long-port"]
    1 0 no_error = Undefined.
Proof.
  split; [cbn; lia|].
  apply (search_long_value_overflows db_five [Some "name"] [Some
    "a-very-long-port-name-a-very-long-port-name-a-very-long-port-name-a-very-long-port"]
    "name"
    "a-very-long-port-name-a-very-long-port-name-a-very-long-port-name-a-very-long-port"
    1 0 no_error); cbn; (lia || reflexivity).
Defined.

(** *** More than ten results *)

(** The array of results holds [count] elements, of [space] reserved. *)
Lemma reg_listcat_loses_second {A : Type} (results : list (option A))
    (count space : Z) (src : A) :
  Z.of_nat (List.length results) = count -> count <= space -> 10 <= space ->
  nth_error results 1 = Some None \/ (count = 10 /\ space = 10) ->
  let '(results', count', space') := reg_listcat results count space src in
  Z.of_nat (List.length results') = count' /\ count' <= space'
  /\ 10 <= space' /\ count' = count + 1
  /\ nth_error results' 1 = Some None.
Proof.
  intros Hlen Hle Hsp Hcase. unfold reg_listcat.
  destruct (Z.eqb_spec count space) as [E|E].
  - set (kept := Z.to_nat (count / sizeof_pointer)).
    assert (Hkept : (1 <= kept <= List.length results)%nat).
    { unfold kept, sizeof_pointer. split.
      - apply Nat2Z.inj_le. rewrite Z2Nat.id by (apply Z.div_pos; lia).
        apply Z.div_le_lower_bound; lia.
      - apply Nat2Z.inj_le. rewrite Z2Nat.id by (apply Z.div_pos; lia).
        rewrite Hlen. apply Z.div_le_upper_bound; lia. }
    assert (Hfirst : List.length (firstn kept results) = kept)
      by (rewrite length_firstn; lia).
    repeat split.
    + rewrite !length_app, Hfirst, repeat_length. cbn [List.length]. lia.
    + lia.
    + lia.
    + destruct (Nat.eq_dec kept 1) as [K|K].
      * rewrite nth_error_app2 by lia. rewrite Hfirst, K. cbn [Nat.sub].
        destruct (List.length results - 1)%nat as [|m] eqn:Hm; [lia|].
        reflexivity.
      * rewrite nth_error_app1 by lia. rewrite nth_error_firstn.
        destruct (Nat.ltb_spec 1 kept) as [_|Hbad]; [|lia].
        destruct Hcase as [H|[H1 H2]]; [exact H|].
        exfalso. apply K. unfold kept. rewrite H1. reflexivity.
  - destruct Hcase as [H|[H1 H2]]; [|lia].
    assert (Hlong : (1 < List.length results)%nat).
    { apply nth_error_Some. rewrite H. discriminate. }
    repeat split.
    + rewrite length_app. cbn [List.length]. lia.
    + lia.
    + lia.
    + now rewrite nth_error_app1 by lia.
Qed.

Lemma reg_all_objects_rows_lose_second (ids : list Z) :
  forall (results : list (option reg_entry)) (count space : Z),
  Z.of_nat (List.length results) = count -> count <= space -> 10 <= space ->
  nth_error results 1 = Some None
  \/ (space = 10 /\ 10 < count + Z.of_nat (List.length ids)) ->
  nth_error (fst (reg_all_objects_rows ids results count space)) 1 = Some None
  /\ snd (reg_all_objects_rows ids results count space)
     = count + Z.of_nat (List.length ids).
Proof.
  induction ids as [|id ids IH]; intros results count space Hlen Hle Hsp Hcase.
  - cbn. destruct Hcase as [H|[H1 H2]]; [|cbn in H2; lia].
    split; [exact H | lia].
  - cbn [reg_all_objects_rows List.length].
    destruct Hcase as [H|[H1 H2]].
    + pose proof (reg_listcat_loses_second results count space (mkEntry id)
                    Hlen Hle Hsp (or_introl H)) as Hstep.
      destruct (reg_listcat results count space (mkEntry id))
        as [[results' count'] space'].
      destruct Hstep as (Hl & Hc & Hs & Hn & Hlost).
      destruct (IH results' count' space' Hl Hc Hs (or_introl Hlost))
        as [IH1 IH2].
      split; [exact IH1 | lia].
    + destruct (Z.eq_dec count 10) as [E|E].
      * pose proof (reg_listcat_loses_second results count space (mkEntry id)
                      Hlen Hle Hsp (or_intror (conj E H1))) as Hstep.
        destruct (reg_listcat results count space (mkEntry id))
          as [[results' count'] space'].
        destruct Hstep as (Hl & Hc & Hs & Hn & Hlost).
        destruct (IH results' count' space' Hl Hc Hs (or_introl Hlost))
          as [IH1 IH2].
        split; [exact IH1 | lia].
      * unfold reg_listcat.
        destruct (Z.eqb_spec count space) as [E'|_]; [lia|].
        cbn [List.length] in H2.
        assert (Hl : Z.of_nat (List.length (results ++ [Some (mkEntry id)])%list)
                     = count + 1)
          by (rewrite length_app; cbn [List.length]; lia).
        assert (Hc : count + 1 <= space) by lia.
        assert (Hmore : 10 < count + 1 + Z.of_nat (List.length ids)) by lia.
        destruct (IH (results ++ [Some (mkEntry id)])%list (count + 1) space
                    Hl Hc Hsp (or_intror (conj H1 Hmore)))
          as [IH1 IH2].
        split; [exact IH1 | lia].
Qed.

(** When the array of results is enlarged, [memcpy] copies as many bytes
    as there are elements, so only the first of them survives: a search
    without conditions in a registry of more than ten entries returns an
    array whose second element was never assigned, and the command
    [registry::entry search], which reads it, has no defined result. *)
Theorem search_loses_results_beyond_ten (db : sqlite3) (err : reg_error) :
  (10 < List.length (ports db))%nat ->
  (exists entries,
     reg_entry_search db [] [] 0 0 err
     = Defined (Z.of_nat (List.length (ports db)), entries, err)
     /\ nth_error entries 1 = Some None)
  /\ forall (interp : Tcl_Interp) (cmd sub : string),
       attached interp = true -> Util.db interp = db ->
       entry_search interp [cmd; sub] = Undefined.
Proof.
  intros Hmany.
  assert (Hsearch : forall e,
            exists entries,
              reg_entry_search db [] [] 0 0 e
              = Defined (Z.of_nat (List.length (ports db)), entries, e)
              /\ nth_error entries 1 = Some None).
  { intros e. unfold reg_entry_search. cbn [reg_strategy_op Z.eqb].
    change (reg_strcat "" 0 32 "SELECT rowid FROM registry.ports")
      with (Some ("SELECT rowid FROM registry.ports", 32, 64)).
    cbn [Z.to_nat reg_entry_search_build].
    unfold reg_all_objects. cbn [conditions].
    rewrite SessionFacts.select_rowid_all.
    set (ids := map Sqlite.rowid (in_order (scan db []) (ports db))).
    assert (Hids : List.length ids = List.length (ports db)).
    { unfold ids. now rewrite length_map, SessionFacts.in_order_length. }
    destruct (reg_all_objects_rows_lose_second ids [] 0 10)
      as [H1 H2]; [reflexivity | lia | lia | right; split; [reflexivity | lia] |].
    destruct (reg_all_objects_rows ids [] 0 10)
      as [results count]. cbn [fst snd] in *.
    exists results. rewrite H2, Hids. split; [reflexivity | exact H1]. }
  split; [apply Hsearch|].
  intros interp cmd sub Hatt Hdb. unfold entry_search.
  cbn [List.length Nat.modulo Nat.divmod fst snd Nat.eqb Nat.div Nat.sub].
  unfold registry_db. rewrite Hatt, Hdb. cbn [negb andb skipn first_bad_key].
  cbn [fill_keys Nat.ltb Nat.leb repeat].
  change (Z.of_nat 0) with 0.
  destruct (Hsearch no_error) as (entries & -> & Hlost).
  destruct (Z.geb_spec (Z.of_nat (List.length (ports db))) 0) as [_|Hbad];
    [|lia].
  destruct entries as [|e0 [|e1 entries]]; try discriminate Hlost.
  cbn [nth_error] in Hlost. injection Hlost as ->.
  cbn [recast_entry_to_obj].
  destruct e0 as [e0|]; [|reflexivity].
  destruct (entry_to_obj interp e0 no_error) as [[[interp1 [obj|]] err1]|];
    reflexivity.
Qed.

Lemma search_loses_results_beyond_ten_witness :
  let db :=
    mkDb (map (fun id => new_port id "vim" "7.1" "0" (EntryObjCmd.lld id) "0")
              [1; 2; 3; 4; 5; 6; 7; 8; 9; 10; 11])
         [] [] 0 0 (fun _ _ => false) (fun _ _ => 0) heap by_state in
  (10 < List.length (ports db))%nat
  /\ entry_search (session db) ["registry::entry"; "search"] = Undefined.
Proof.
  intros db. split; [cbn; lia|].
  apply (proj2 (search_loses_results_beyond_ten db no_error
                  ltac:(cbn; lia)) (session db)); reflexivity.
Defined.

(** *** [reg_entry_installed] and [reg_entry_active] *)

(** Both functions pass their arguments to [reg_entry_search] with the
    number of keys and the strategy exchanged: no condition reaches the
    query, and the number of keys is taken for the strategy.  With a name
    or with nothing they return every entry of the registry, each once,
    whatever its state and name; with a name and a version they fail with
    the invalid-strategy error.  The two functions cannot be told apart. *)
Theorem installed_and_active_do_not_filter (db : sqlite3)
    (name version : CEntryQueries.nullable) (err : reg_error) :
  (List.length (ports db) <= 10)%nat ->
  CEntryQueries.reg_entry_installed db name version err
  = CEntryQueries.reg_entry_active db name version err
  /\ (name = None \/ version = None ->
      exists rows,
        CEntryQueries.reg_entry_installed db name version err
        = Defined (Z.of_nat (List.length (ports db)),
                   map (fun p => Some (mkEntry (Sqlite.rowid p))) rows,
                   err)
        /\ Permutation rows (ports db))
  /\ (name <> None -> version <> None ->
      CEntryQueries.reg_entry_installed db name version err
      = Defined (-1, [],
                 mkError (Some "registry::invalid-strategy")
                   (Some (Literal "invalid matching strategy specified")))).
Proof.
  intros Hten.
  assert (Hall : forall (keys vals : list (option string)) (s : Z),
            s = 1 \/ s = 2 ->
            reg_entry_search db keys vals 0 s err
            = Defined (Z.of_nat (List.length (ports db)),
                       map (fun p => Some (mkEntry (Sqlite.rowid p)))
                           (in_order (scan db []) (ports db)), err)).
  { intros keys vals s Hs.
    rewrite <- (SessionFacts.reg_entry_search_all db err Hten).
    unfold reg_entry_search.
    change (reg_strcat "" 0 32 "SELECT rowid FROM registry.ports")
      with (Some ("SELECT rowid FROM registry.ports", 32, 64)).
    destruct Hs as [-> | ->]; reflexivity. }
  split; [reflexivity|]. split.
  - intros Hnone. exists (in_order (scan db []) (ports db)).
    split; [|apply SessionFacts.in_order_perm].
    unfold CEntryQueries.reg_entry_installed.
    apply Hall. unfold CEntryQueries.installed_key_count.
    destruct name as [n|]; [|now left].
    destruct version as [v|]; [|now right].
    destruct Hnone; discriminate.
  - intros Hname Hversion.
    destruct name as [n|]; [|contradiction].
    destruct version as [v|]; [|contradiction].
    reflexivity.
Qed.

(** Asked for the installed zlib, on the registry of the tests, where
    zlib is entry 4 and active: all five entries. *)
Lemma installed_and_active_do_not_filter_witness :
  (List.length (ports db_five) <= 10)%nat
  /\ exists rows,
       CEntryQueries.reg_entry_installed db_five (Some "zlib") None no_error
       = Defined (5, map (fun p => Some (mkEntry (Sqlite.rowid p))) rows,
                  no_error)
       /\ Permutation rows (ports db_five).
Proof.
  assert (H : (List.length (ports db_five) <= 10)%nat) by (cbn; lia).
  split; [exact H|].
  exact (proj1 (proj2 (installed_and_active_do_not_filter db_five
                         (Some "zlib") None no_error H))
               (or_intror eq_refl)).
Defined.

(** *** More than one condition *)

(** The loop of [entry_search] that fills the arrays advances by two, so
    it never assigns the second slot. *)
Lemma fill_keys_skips_second (objv : list string) (key_count : nat) (n : nat) :
  forall (i : nat) (keys vals : list (option string)),
  i = 0%nat \/ (2 <= i)%nat ->
  nth_error keys 1 = Some None ->
  nth_error (fst (fill_keys objv key_count n i keys vals)) 1 = Some None.
Proof.
  induction n as [|n IH]; intros i keys vals Hi Hkeys; [exact Hkeys|].
  cbn [fill_keys]. destruct (i <? key_count)%nat; [|exact Hkeys].
  apply IH; [right; lia|].
  assert (Hlen : (1 < List.length keys)%nat).
  { apply nth_error_Some. rewrite Hkeys. discriminate. }
  destruct Hi as [->|Hi].
  - cbn [firstn app skipn nth_error].
    destruct keys as [|k0 keys]; [cbn in Hlen; lia|]. exact Hkeys.
  - rewrite nth_error_app1 by (rewrite length_firstn; lia).
    rewrite nth_error_firstn.
    destruct (Nat.ltb_spec 1 i) as [_|Hbad]; [exact Hkeys | lia].
Qed.

(** [registry::entry search] with two or more conditions reads a key that
    was never assigned: whatever the keys, the values and the registry,
    the command has no defined result. *)
Theorem search_with_two_conditions_is_undefined (interp : Tcl_Interp)
    (objv : list string) :
  attached interp = true ->
  (List.length objv mod 2 = 0)%nat -> (6 <= List.length objv)%nat ->
  first_bad_key (skipn 2 objv) = None ->
  entry_search interp objv = Undefined.
Proof.
  intros Hatt Heven Hlen Hkeys. unfold entry_search.
  rewrite Heven. cbn [Nat.eqb]. unfold registry_db. rewrite Hatt.
  cbn [andb negb]. rewrite Hkeys.
  set (key_count := (List.length objv / 2 - 1)%nat).
  assert (Hcount : (2 <= key_count)%nat).
  { unfold key_count.
    assert (3 <= List.length objv / 2)%nat
      by (apply Nat.div_le_lower_bound; lia).
    lia. }
  pose proof (fill_keys_skips_second objv key_count (S key_count) 0
                (repeat None key_count) (repeat None key_count)
                (or_introl eq_refl)) as Hsecond.
  destruct (fill_keys objv key_count (S key_count) 0
              (repeat None key_count) (repeat None key_count))
    as [keys vals]. cbn [fst] in Hsecond.
  assert (Hnone : nth_error keys 1 = Some None).
  { apply Hsecond. destruct key_count as [|[|m]]; try lia. reflexivity. }
  unfold reg_entry_search. cbn [reg_strategy_op Z.eqb].
  change (reg_strcat "" 0 32 "SELECT rowid FROM registry.ports")
    with (Some ("SELECT rowid FROM registry.ports", 32, 64)).
  rewrite Nat2Z.id.
  destruct key_count as [|[|m]]; try lia.
  cbn [reg_entry_search_build].
  destruct (nth_error keys 0) as [[key|]|]; try reflexivity.
  destruct (nth_error vals 0) as [[val|]|]; try reflexivity.
  destruct (reg_strcat _ _ _ _) as [[[text len] space]|]; [|reflexivity].
  rewrite Hnone. reflexivity.
Qed.

Lemma search_with_two_conditions_is_undefined_witness :
  first_bad_key ["name"; "vim"; "state"; "active"] = None
  /\ entry_search (session db_five)
       ["registry::entry"; "search"; "name"; "vim"; "state"; "active"]
     = Undefined.
Proof.
  split; [reflexivity|].
  apply (search_with_two_conditions_is_undefined (session db_five)
           ["registry::entry"; "search"; "name"; "vim"; "state"; "active"]);
    [reflexivity | reflexivity | cbn; lia | reflexivity].
Defined.
End SearchLaws.

(* ================================================================= *)
(** * Laws of the entry handles *)

Module HandleLaws.

Import Sqlite CEntry Util Entry EntryCmd EntryObjCmd Spec.

(** *** [unique_name] *)

Lemma unique_name_from_least (fuel : nat) :
  forall (interp : Tcl_Interp) (prefix : string) (i0 : nat) (name : string),
  unique_name_from fuel interp prefix i0 = Some name ->
  exists i,
    name = name_of prefix i /\ (i0 <= i)%nat
    /\ forall j, (i0 <= j < i)%nat ->
                 Tcl_GetCommandInfo interp (name_of prefix j) <> None.
Proof.
  induction fuel as [|fuel IH]; intros interp prefix i0 name H; [discriminate|].
  cbn [unique_name_from] in H.
  destruct (Tcl_GetCommandInfo interp (name_of prefix i0)) eqn:E.
  - apply IH in H as (i & Hname & Hle & Hall).
    exists i. repeat split; [exact Hname | lia |].
    intros j Hj. destruct (Nat.eq_dec j i0) as [->|Hne].
    + rewrite E. discriminate.
    + apply Hall. lia.
  - inversion H; subst. exists i0. repeat split; [lia|]. intros j Hj. lia.
Qed.

(** [unique_name] returns the prefix followed by the least number that
    gives a name no command has: the names with smaller numbers are all
    taken, whoever owns them. *)
Theorem unique_name_is_least_free (interp : Tcl_Interp) (prefix : string) :
  exists i,
    unique_name interp prefix = Some (name_of prefix i)
    /\ Tcl_GetCommandInfo interp (name_of prefix i) = None
    /\ (i <= List.length (commands interp))%nat
    /\ forall j, (j < i)%nat ->
                 Tcl_GetCommandInfo interp (name_of prefix j) <> None.
Proof.
  destruct (HostFacts.unique_name_total interp prefix) as (name & Hsome & Hfree).
  pose proof Hsome as Hleast. unfold unique_name in Hleast.
  apply unique_name_from_least in Hleast as (i & -> & _ & Hall).
  exists i. repeat split; [exact Hsome | exact Hfree | | intros j Hj; apply Hall; lia].
  (* The [i] names before it are the names of [i] different commands. *)
  assert (Hnd : NoDup (map (name_of prefix) (seq 0 i))).
  { apply Injective_map_NoDup; [|apply seq_NoDup].
    intros a b. apply HostFacts.name_of_inj. }
  assert (Hincl : incl (map (name_of prefix) (seq 0 i))
                       (map fst (commands interp))).
  { intros x Hx. apply in_map_iff in Hx as (j & <- & Hj).
    apply in_seq in Hj.
    specialize (Hall j ltac:(lia)). unfold Tcl_GetCommandInfo in Hall.
    destruct (find _ (commands interp)) as [c0|] eqn:F; [|contradiction].
    apply find_some in F as [Hin Heq]. apply String.eqb_eq in Heq.
    rewrite <- Heq. now apply in_map. }
  pose proof (NoDup_incl_length Hnd Hincl) as Hlen.
  rewrite !length_map, length_seq in Hlen. exact Hlen.
Qed.

(** *** [entry_create] and the handle it returns *)

(** What a successful [entry_create] has done. *)
Lemma entry_create_ok (interp interp' : Tcl_Interp)
    (cmd sub name version revision variants epoch handle : string) :
  entry_create interp [cmd; sub; name; version; revision; variants; epoch]
  = Defined (interp', mkReply TCL_OK (String_result handle) None) ->
  let id := next_rowid (map Sqlite.rowid (ports (db interp))) in
  attached interp = true
  /\ Tcl_GetCommandInfo interp handle = None
  /\ commands interp'
     = (filter (fun c => negb (String.eqb (fst c) handle)) (commands interp)
          ++ [(handle, Entry_obj_cmd (mkEntry id))])%list
  /\ attached interp' = true
  /\ ports (db interp')
     = (ports (db interp)
          ++ [new_port id name version revision variants epoch])%list
  /\ files (db interp') = files (db interp)
  /\ entry_procs (db interp') = entry_procs (db interp).
Proof.
  intros H id. unfold entry_create, registry_db in H. cbn [andb] in H.
  destruct (attached interp) eqn:Hatt; cbn [negb] in H; [|discriminate H].
  unfold reg_entry_create, insert_port in H.
  destruct (existsb _ (ports (db interp))) eqn:Hdup; [discriminate H|].
  cbn [last_insert_rowid set_ports Sqlite.rowid] in H.
  destruct (unique_name _ "registry::entry") as [nm|] eqn:Hname;
    [|discriminate H].
  assert (Hfree : Tcl_GetCommandInfo interp nm = None).
  { unfold unique_name in Hname.
    apply HostFacts.unique_name_from_some in Hname. exact Hname. }
  unfold set_entry, set_object in H.
  change (Tcl_GetCommandInfo (set_db interp ?d) nm)
    with (Tcl_GetCommandInfo interp nm) in H.
  rewrite Hfree in H. inversion H; subst; clear H.
  cbn. rewrite Hatt. repeat split; auto.
Qed.

(** The path [port_id]-less lookup of a row that was appended. *)
Lemma find_appended_row (l : list port) (row : port) :
  existsb (fun p => Sqlite.rowid p =? Sqlite.rowid row) l = false ->
  find (fun p => Sqlite.rowid p =? Sqlite.rowid row) (l ++ [row]) = Some row.
Proof.
  induction l as [|p l IH]; cbn [existsb find app]; intros H.
  - now rewrite Z.eqb_refl.
  - apply orb_false_iff in H as [H1 H2]. rewrite H1. now apply IH.
Qed.

(** The handle that [registry::entry create] returns reads back what was
    created: the five properties given, and the empty string for the
    properties that were not set. *)
Theorem create_then_read_properties (interp interp' : Tcl_Interp)
    (cmd sub name version revision variants epoch handle : string) :
  entry_create interp [cmd; sub; name; version; revision; variants; epoch]
  = Defined (interp', mkReply TCL_OK (String_result handle) None) ->
  exists entry,
    Tcl_GetCommandInfo interp' handle = Some (Entry_obj_cmd entry)
    /\ has_entry (db interp) (rowid entry) = false
    /\ (forall prop value,
          In (prop, value)
             [("name", name); ("version", version); ("revision", revision);
              ("variants", variants); ("epoch", epoch); ("portfile", "");
              ("url", ""); ("location", ""); ("date", ""); ("state", "")] ->
          entry_obj_cmd interp' entry [handle; prop]
          = (interp', mkReply TCL_OK (String_result value) None)).
Proof.
  intros H. apply entry_create_ok in H.
  destruct H as (Hatt & Hfree & Hcmds & Hatt' & Hports & Hfiles & Hprocs).
  set (id := next_rowid (map Sqlite.rowid (ports (db interp)))) in *.
  exists (mkEntry id). split; [|split].
  - unfold Tcl_GetCommandInfo. rewrite Hcmds.
    now rewrite HostFacts.find_command_created.
  - apply EntryStoreFacts.next_rowid_fresh.
  - intros prop value Hin.
    assert (Hrow : find (fun p => Sqlite.rowid p =? id) (ports (db interp'))
                   = Some (new_port id name version revision variants epoch)).
    { rewrite Hports.
      apply (find_appended_row (ports (db interp))
               (new_port id name version revision variants epoch)).
      apply EntryStoreFacts.next_rowid_fresh. }
    cbn [In] in Hin.
    repeat (destruct Hin as [Hin|Hin];
            [inversion Hin; subst prop value; clear Hin;
             unfold entry_obj_cmd, entry_obj_prop, Statements.select_column;
             cbn [rowid]; rewrite Hrow; reflexivity|]).
    destruct Hin.
Qed.

Lemma create_then_read_properties_witness :
  exists interp',
    entry_create (session empty_db)
      ["registry::entry"; "create"; "vim"; "7.1.000"; "0"; "multibyte +"; "0"]
    = Defined (interp',
               mkReply TCL_OK (String_result "registry::entry0") None)
    /\ exists entry,
         Tcl_GetCommandInfo interp' "registry::entry0"
         = Some (Entry_obj_cmd entry)
         /\ entry_obj_cmd interp' entry ["registry::entry0"; "variants"]
            = (interp', mkReply TCL_OK (String_result "multibyte +") None).
Proof.
  eexists. split; [vm_compute; reflexivity|].
  destruct (create_then_read_properties (session empty_db) _
              "registry::entry" "create" "vim" "7.1.000" "0" "multibyte +" "0"
              "registry::entry0" eq_refl) as (entry & Hcmd & _ & Hread).
  exists entry. split; [exact Hcmd|].
  apply Hread. cbn. auto.
Defined.

(** *** [entry_exists] and [entry_close] *)

Lemma entry_close_from_absent (procs : list string) :
  forall (interp interp' : Tcl_Interp) (r : reply) (x : string),
  entry_close_from interp procs = Defined (interp', r) ->
  Tcl_GetCommandInfo interp x = None ->
  Tcl_GetCommandInfo interp' x = None.
Proof.
  induction procs as [|proc procs IH]; intros interp interp' r x H Hx.
  - cbn in H. inversion H; subst. exact Hx.
  - cbn [entry_close_from] in H.
    destruct (get_entry interp proc no_error) as [[e|] error].
    + apply (IH _ _ _ x) in H; [exact H|].
      unfold Tcl_GetCommandInfo, Tcl_DeleteCommand in *.
      cbn [commands set_commands].
      destruct (String.eqb_spec x proc) as [->|Hne].
      * now rewrite HostFacts.find_command_deleted.
      * now rewrite HostFacts.find_command_other.
    + destruct (registry_failed error); inversion H; subst. exact Hx.
Qed.

Lemma entry_close_from_deleted (procs : list string) :
  forall (interp interp' : Tcl_Interp) (res : result),
  entry_close_from interp procs = Defined (interp', mkReply TCL_OK res None) ->
  forall x, In x procs -> Tcl_GetCommandInfo interp' x = None.
Proof.
  induction procs as [|proc procs IH]; intros interp interp' res H x Hin;
    [destruct Hin|].
  cbn [entry_close_from] in H.
  destruct (get_entry interp proc no_error) as [[e|] error] eqn:Hget.
  - destruct Hin as [<-|Hin].
    + apply (entry_close_from_absent _ _ _ _ proc) in H; [exact H|].
      unfold Tcl_GetCommandInfo, Tcl_DeleteCommand.
      cbn [commands set_commands].
      now rewrite HostFacts.find_command_deleted.
    + eapply IH; eassumption.
  - unfold get_entry, get_object in Hget.
    destruct (Tcl_GetCommandInfo interp proc) as [[e|]|];
      inversion Hget; subst; cbn in H; discriminate H.
Qed.

(** The life of a handle: [registry::entry exists] answers 1 for the
    handle that [create] returned; [close] of it succeeds and leaves the
    registry as it is; after that [exists] answers 0 and the name is free
    again. *)
Theorem created_handle_exists_until_closed (interp interp' : Tcl_Interp)
    (cmd sub name version revision variants epoch handle : string) :
  entry_create interp [cmd; sub; name; version; revision; variants; epoch]
  = Defined (interp', mkReply TCL_OK (String_result handle) None) ->
  forall ex cl : string,
  entry_exists interp [cmd; ex; handle]
  = (interp, mkReply TCL_OK (String_result "0") None)
  /\ entry_exists interp' [cmd; ex; handle]
     = (interp', mkReply TCL_OK (String_result "1") None)
  /\ exists interp'',
       entry_close interp' [cmd; cl; handle]
       = Defined (interp'', mkReply TCL_OK (String_result "") None)
       /\ db interp'' = db interp'
       /\ entry_exists interp'' [cmd; ex; handle]
          = (interp'', mkReply TCL_OK (String_result "0") None)
       /\ Tcl_GetCommandInfo interp'' handle = None.
Proof.
  intros H ex cl. apply entry_create_ok in H.
  destruct H as (Hatt & Hfree & Hcmds & Hatt' & Hports & Hfiles & Hprocs).
  set (id := next_rowid (map Sqlite.rowid (ports (db interp)))) in *.
  assert (Hcmd : Tcl_GetCommandInfo interp' handle
                 = Some (Entry_obj_cmd (mkEntry id))).
  { unfold Tcl_GetCommandInfo. rewrite Hcmds.
    now rewrite HostFacts.find_command_created. }
  assert (Hgone : Tcl_GetCommandInfo (Tcl_DeleteCommand interp' handle) handle
                  = None).
  { unfold Tcl_GetCommandInfo, Tcl_DeleteCommand. cbn [commands set_commands].
    now rewrite HostFacts.find_command_deleted. }
  split; [|split].
  - unfold entry_exists, get_entry, get_object. now rewrite Hfree.
  - unfold entry_exists, get_entry, get_object. now rewrite Hcmd.
  - exists (Tcl_DeleteCommand interp' handle).
    unfold entry_close. cbn [skipn entry_close_from].
    unfold entry_exists, get_entry, get_object. rewrite Hcmd, Hgone.
    repeat split; reflexivity.
Qed.

Lemma created_handle_exists_until_closed_witness :
  exists interp' interp'',
    entry_create (session empty_db)
      ["registry::entry"; "create"; "vim"; "7.1.000"; "0"; "multibyte +"; "0"]
    = Defined (interp',
               mkReply TCL_OK (String_result "registry::entry0") None)
    /\ entry_exists interp' ["registry::entry"; "exists"; "registry::entry0"]
       = (interp', mkReply TCL_OK (String_result "1") None)
    /\ entry_close interp' ["registry::entry"; "close"; "registry::entry0"]
       = Defined (interp'', mkReply TCL_OK (String_result "") None)
    /\ entry_exists interp'' ["registry::entry"; "exists"; "registry::entry0"]
       = (interp'', mkReply TCL_OK (String_result "0") None).
Proof.
  destruct (created_handle_exists_until_closed (session empty_db) _
              "registry::entry" "create" "vim" "7.1.000" "0" "multibyte +" "0"
              "registry::entry0" eq_refl "exists" "close")
    as (_ & Hone & interp'' & Hclose & _ & Hzero & _).
  eexists. exists interp''.
  split; [vm_compute; reflexivity|].
  split; [|split]; [vm_compute; reflexivity | exact Hclose | exact Hzero].
Defined.

(** *** Searching again *)

Lemma recast_entry_to_obj_recorded (entries : list reg_entry) :
  forall (names : list string) (interp : Tcl_Interp) (err : reg_error),
  map (fun e => select_proc (db interp) (rowid e)) entries = map Some names ->
  recast_entry_to_obj interp (map Some entries) err
  = Defined (interp, Some names, err).
Proof.
  induction entries as [|e entries IH]; intros names interp err H.
  - destruct names; [reflexivity | discriminate H].
  - destruct names as [|nm names]; [discriminate H|].
    cbn [map] in H. injection H as He Hrest.
    cbn [map recast_entry_to_obj].
    rewrite (SessionFacts.entry_to_obj_recorded interp e nm err He).
    now rewrite (IH names interp err Hrest).
Qed.

(** [registry::entry search] answers from the names recorded in
    [entry_procs] and never looks whether they are still commands: when
    every entry has a recorded name, the search changes nothing and
    returns these names, in the order in which the engine yields the
    entries, and it returns the same names after any of them has been
    closed, although a closed name is no command any more. *)
Theorem search_returns_recorded_names (interp : Tcl_Interp)
    (cmd sub : string) (names : list string) :
  attached interp = true ->
  (List.length (ports (db interp)) <= 10)%nat ->
  map (fun p => select_proc (db interp) (Sqlite.rowid p))
      (in_order (scan (db interp) []) (ports (db interp)))
  = map Some names ->
  entry_search interp [cmd; sub]
  = Defined (interp, mkReply TCL_OK (List_result names) None)
  /\ forall (sub' : string) (closed : list string) (interp' : Tcl_Interp)
            (res : result),
       entry_close interp (cmd :: sub' :: closed)
       = Defined (interp', mkReply TCL_OK res None) ->
       entry_search interp' [cmd; sub]
       = Defined (interp', mkReply TCL_OK (List_result names) None)
       /\ forall x, In x closed -> Tcl_GetCommandInfo interp' x = None.
Proof.
  assert (Hsearch : forall i : Tcl_Interp,
            attached i = true ->
            (List.length (ports (db i)) <= 10)%nat ->
            map (fun p => select_proc (db i) (Sqlite.rowid p))
                (in_order (scan (db i) []) (ports (db i)))
            = map Some names ->
            entry_search i [cmd; sub]
            = Defined (i, mkReply TCL_OK (List_result names) None)).
  { intros i Hatt Hten Hrec. unfold entry_search.
    cbn [List.length Nat.modulo Nat.divmod fst snd Nat.eqb Nat.div Nat.sub].
    unfold registry_db. rewrite Hatt. cbn [negb andb skipn first_bad_key].
    cbn [fill_keys Nat.ltb Nat.leb repeat].
    change (Z.of_nat 0) with 0.
    rewrite (SessionFacts.reg_entry_search_all (db i) no_error Hten).
    destruct (Z.geb_spec (Z.of_nat (List.length (ports (db i)))) 0)
      as [_|Hbad]; [|lia].
    rewrite <- (map_map (fun p => mkEntry (Sqlite.rowid p)) Some).
    rewrite (recast_entry_to_obj_recorded _ names); [reflexivity|].
    now rewrite map_map. }
  intros Hatt Hten Hrec. split; [now apply Hsearch|].
  intros sub' closed interp' res Hclose. unfold entry_close in Hclose.
  cbn [skipn] in Hclose.
  destruct (SessionFacts.entry_close_from_db _ _ _ _ Hclose) as [Hdb Hatt'].
  split.
  - apply Hsearch; rewrite ?Hdb; congruence.
  - now apply (entry_close_from_deleted closed interp interp' res).
Qed.

Lemma search_returns_recorded_names_witness :
  let interp :=
    mkInterp [("registry::entry0", Entry_obj_cmd (mkEntry 1))]
      (mkDb (ports db_x_owned) [] [mkProc 1 1 "registry::entry0"] 0 0
            (fun _ _ => false) (fun _ _ => 0) heap by_state)
      true in
  (attached interp = true /\ (List.length (ports (db interp)) <= 10)%nat)
  /\ exists interp',
       entry_close interp ["registry::entry"; "close"; "registry::entry0"]
       = Defined (interp', mkReply TCL_OK (String_result "") None)
       /\ entry_search interp' ["registry::entry"; "search"]
          = Defined (interp',
                     mkReply TCL_OK (List_result ["registry::entry0"]) None)
       /\ Tcl_GetCommandInfo interp' "registry::entry0" = None.
Proof.
  intros interp.
  assert (Hten : (List.length (ports (db interp)) <= 10)%nat) by (cbn; lia).
  split; [split; [reflexivity | exact Hten]|].
  eexists. split; [vm_compute; reflexivity|].
  destruct (proj2 (search_returns_recorded_names interp "registry::entry"
                     "search" ["registry::entry0"] eq_refl Hten eq_refl)
              "close" ["registry::entry0"] _ (String_result "") eq_refl)
    as [Hsearch Hgone].
  split; [exact Hsearch | apply Hgone; now left].
Defined.

(** *** [entry_delete] *)


Lemma recast_obj_to_entry_stops (pre : list string) :
  forall (interp : Tcl_Interp) (bad : string) (post : list string)
         (err : reg_error),
  (forall p, In p pre ->
     exists e, Tcl_GetCommandInfo interp p = Some (Entry_obj_cmd e)) ->
  (forall e, Tcl_GetCommandInfo interp bad <> Some (Entry_obj_cmd e)) ->
  recast_obj_to_entry interp (pre ++ bad :: post) err
  = (None, mkError (Some "registry::not-found")
                   (Some (Could_not_find "entry" bad))).
Proof.
  induction pre as [|p pre IH]; intros interp bad post err Hall Hbad.
  - cbn [app recast_obj_to_entry]. unfold get_entry, get_object.
    destruct (Tcl_GetCommandInfo interp bad) as [[e|]|]; try reflexivity.
    now destruct (Hbad e).
  - destruct (Hall p (or_introl eq_refl)) as (e & He).
    cbn [app recast_obj_to_entry]. unfold get_entry, get_object.
    rewrite He.
    change (get_object interp) with (get_object interp).
    now rewrite (IH interp bad post err (fun q Hq => Hall q (or_intror Hq)) Hbad).
Qed.






(** [registry::entry delete] resolves every name before it deletes
    anything: when one of the names is no entry handle the command fails
    with the not-found error for that name and the session is unchanged.
    Without any name there is nothing to resolve and nothing to delete,
    and the command reports an error that was never assigned. *)
Theorem delete_resolves_names_first (interp : Tcl_Interp) (cmd sub : string) :
  attached interp = true ->
  entry_delete interp [cmd; sub] = Undefined
  /\ forall (pre : list string) (bad : string) (post : list string),
       (forall p, In p pre ->
          exists e, Tcl_GetCommandInfo interp p = Some (Entry_obj_cmd e)) ->
       (forall e, Tcl_GetCommandInfo interp bad <> Some (Entry_obj_cmd e)) ->
       entry_delete interp (cmd :: sub :: pre ++ bad :: post)
       = Defined (interp,
                  mkReply TCL_ERROR
                    (Error_text (Could_not_find "entry" bad))
                    (Some "registry::not-found")).
Proof.
  intros Hatt. split.
  - unfold entry_delete, registry_db. rewrite Hatt. reflexivity.
  - intros pre bad post Hpre Hbad. unfold entry_delete, registry_db.
    rewrite Hatt. cbn [andb negb skipn].
    now rewrite (recast_obj_to_entry_stops pre interp bad post no_error Hpre Hbad).
Qed.

Lemma delete_resolves_names_first_witness :
  attached session_entry0 = true
  /\ entry_delete session_entry0 ["registry::entry"; "delete"] = Undefined
  /\ entry_delete session_entry0
       ["registry::entry"; "delete"; "registry::entry0"; "registry::entry9"]
     = Defined (session_entry0,
                mkReply TCL_ERROR
                  (Error_text (Could_not_find "entry" "registry::entry9"))
                  (Some "registry::not-found")).
Proof.
  split; [reflexivity|].
  destruct (delete_resolves_names_first session_entry0 "registry::entry"
              "delete" eq_refl) as [Hnone Hbad].
  split; [exact Hnone|].
  apply (Hbad ["registry::entry0"] "registry::entry9" []).
  - intros p [<-|[]]. now exists (mkEntry 1).
  - intros e. discriminate.
Defined.

End HandleLaws.

(* ================================================================= *)
(** * Laws of the file map *)

Module FileMapLaws.

Import Sqlite CEntry Spec Statements CEntryQueries.

Lemma insert_file_ok (db db1 : sqlite3) (id : Z) (p : string) :
  insert_file db id p = (db1, Step_DONE) ->
  owned db p = false
  /\ files db1
     = (files db ++ [mkFile (next_rowid (map file_rowid (files db))) id p None])%list
  /\ ports db1 = ports db.
Proof.
  unfold insert_file, owned.
  destruct (existsb _ (files db)) eqn:E; intros H; inversion H; subst.
  cbn. auto.
Qed.

Lemma owned_app (db db1 : sqlite3) (news : list file) (p : string) :
  files db1 = (files db ++ news)%list ->
  owned db1 p = owned db p || existsb (String.eqb p) (map path news).
Proof.
  unfold owned. intros ->. rewrite existsb_app. f_equal.
  induction news as [|f news IH]; cbn [map existsb]; [reflexivity|].
  now rewrite IH, (String.eqb_sym p).
Qed.

Lemma existsb_eqb_in (p : string) (l : list string) :
  existsb (String.eqb p) l = true <-> In p l.
Proof.
  rewrite existsb_exists. split.
  - intros (x & Hin & E). apply String.eqb_eq in E. now subst.
  - intros Hin. exists p. split; [exact Hin | apply String.eqb_refl].
Qed.

(** What a call of [reg_entry_map] that mapped the whole batch has done:
    each path was free and is now a new row of the entry, in the order of
    the batch. *)
Lemma reg_entry_map_from_all (batch : list string) :
  forall (db : sqlite3) (entry : reg_entry) (i : Z) (err : reg_error)
         (db' : sqlite3) (err' : reg_error),
  reg_entry_map_from db entry batch i err
  = (db', i + Z.of_nat (List.length batch), err') ->
  exists news,
    files db' = (files db ++ news)%list
    /\ map path news = batch
    /\ (forall f, In f news -> port_id f = rowid entry)
    /\ (forall p, In p batch -> owned db p = false)
    /\ NoDup batch
    /\ err' = err /\ ports db' = ports db.
Proof.
  induction batch as [|p batch IH]; intros db entry i err db' err' H.
  - cbn in H. inversion H; subst. exists []. rewrite app_nil_r.
    repeat split; auto; try constructor; intros ? [].
  - cbn [reg_entry_map_from List.length] in H.
    destruct (insert_file db (rowid entry) p) as [db1 [|c]] eqn:Hins.
    + apply insert_file_ok in Hins as (Hfree & Hfiles1 & Hports1).
      replace (i + Z.of_nat (S (List.length batch)))
        with (i + 1 + Z.of_nat (List.length batch)) in H by lia.
      apply IH in H as (news & Hfiles & Hpaths & Hids & Hfree' & Hnd & He & Hp).
      assert (Hold : forall q, In q batch -> owned db q = false /\ q <> p).
      { intros q Hq. specialize (Hfree' q Hq).
        rewrite (owned_app db db1 _ q Hfiles1) in Hfree'.
        apply orb_false_iff in Hfree' as [H1 H2]. split; [exact H1|].
        cbn in H2. rewrite orb_false_r in H2. now apply String.eqb_neq in H2. }
      exists (mkFile (next_rowid (map file_rowid (files db))) (rowid entry) p None
                :: news).
      repeat split.
      * rewrite Hfiles, Hfiles1, <- app_assoc. reflexivity.
      * cbn [map path]. now rewrite Hpaths.
      * intros f [<-|Hf]; [reflexivity | now apply Hids].
      * intros q [<-|Hq]; [exact Hfree | now apply Hold].
      * constructor; [|exact Hnd]. intros Hin. now destruct (Hold p Hin).
      * exact He.
      * congruence.
    + exfalso.
      destruct c; inversion H; lia.
Qed.

Lemma find_path_app (l news : list file) (p : string) :
  find (fun f => String.eqb (path f) p) (l ++ news)
  = match find (fun f => String.eqb (path f) p) l with
    | Some f => Some f
    | None => find (fun f => String.eqb (path f) p) news
    end.
Proof.
  induction l as [|f l IH]; cbn [app find]; [reflexivity|].
  now destruct (String.eqb (path f) p).
Qed.

Lemma find_path_none (l : list file) (p : string) :
  existsb (fun f => String.eqb (path f) p) l = false ->
  find (fun f => String.eqb (path f) p) l = None.
Proof.
  induction l as [|f l IH]; cbn [existsb find]; intros H; [reflexivity|].
  apply orb_false_iff in H as [H1 H2]. rewrite H1. now apply IH.
Qed.

Lemma find_path_absent (news : list file) (p : string) :
  ~ In p (map path news) ->
  find (fun f => String.eqb (path f) p) news = None.
Proof.
  intros Hnot. apply find_path_none.
  destruct (existsb _ news) eqn:E; [|reflexivity].
  apply existsb_exists in E as (f & Hin & Heq). apply String.eqb_eq in Heq.
  exfalso. apply Hnot. rewrite <- Heq. now apply in_map.
Qed.

Lemma find_path_present (news : list file) (p : string) (id : Z) :
  In p (map path news) -> (forall f, In f news -> port_id f = id) ->
  option_map port_id (find (fun f => String.eqb (path f) p) news) = Some id.
Proof.
  intros Hin Hids.
  destruct (find (fun f => String.eqb (path f) p) news) as [f|] eqn:E.
  - apply find_some in E as [Hf _]. cbn. now rewrite (Hids f Hf).
  - exfalso. apply in_map_iff in Hin as (f & Hp & Hf).
    apply (find_none _ _ E) in Hf. rewrite Hp, String.eqb_refl in Hf.
    discriminate Hf.
Qed.

Lemma filter_port_id_all (news : list file) (id : Z) :
  (forall f, In f news -> port_id f = id) ->
  filter (fun f => port_id f =? id) news = news.
Proof.
  intros H. apply FileMapFacts.filter_all. apply forallb_forall.
  intros f Hf. rewrite (H f Hf). apply Z.eqb_refl.
Qed.

Lemma filter_port_id_none (news : list file) (id other : Z) :
  (forall f, In f news -> port_id f = id) -> other <> id ->
  filter (fun f => port_id f =? other) news = [].
Proof.
  intros H Hne. induction news as [|f news IH]; [reflexivity|].
  cbn [filter]. rewrite (H f (or_introl eq_refl)).
  destruct (Z.eqb_spec id other) as [E|_]; [congruence|].
  apply IH. intros g Hg. apply H. now right.
Qed.

(** Mapping and looking up.  After [reg_entry_map] has mapped a whole
    batch, [reg_entry_owner] finds the entry for every path of the batch
    and finds for every other path what it found before, and the rows of
    the entry in the file map are those it had, followed by the batch. *)
Theorem map_then_owner (db db' : sqlite3) (entry : reg_entry)
    (batch : list string) (err err' : reg_error) :
  reg_entry_map db entry batch err
  = (db', Z.of_nat (List.length batch), err') ->
  (forall p e, In p batch ->
     reg_entry_owner db p e = (1, None, e)
     /\ reg_entry_owner db' p e = (1, Some entry, e))
  /\ (forall q e, ~ In q batch ->
        reg_entry_owner db' q e = reg_entry_owner db q e)
  /\ select_path db' (rowid entry) = (select_path db (rowid entry) ++ batch)%list
  /\ (forall other, rowid other <> rowid entry ->
        select_path db' (rowid other) = select_path db (rowid other)).
Proof.
  intros H. unfold reg_entry_map in H.
  apply (reg_entry_map_from_all batch db entry 0 err db' err') in H.
  destruct H as (news & Hfiles & Hpaths & Hids & Hfree & Hnd & He & Hp).
  split; [|split; [|split]].
  - intros p e Hin. unfold reg_entry_owner, select_port_id.
    rewrite Hfiles, find_path_app.
    rewrite (find_path_none (files db) p (Hfree p Hin)). split; [reflexivity|].
    rewrite (find_path_present news p (rowid entry)); [|now rewrite Hpaths|exact Hids].
    now destruct entry.
  - intros q e Hnot. unfold reg_entry_owner, select_port_id.
    rewrite Hfiles, find_path_app.
    destruct (find (fun f => String.eqb (path f) q) (files db)); [reflexivity|].
    rewrite find_path_absent; [reflexivity | now rewrite Hpaths].
  - unfold select_path. rewrite Hfiles, filter_app, map_app.
    now rewrite (filter_port_id_all news (rowid entry) Hids), Hpaths.
  - intros other Hne. unfold select_path.
    rewrite Hfiles, filter_app.
    rewrite (filter_port_id_none news (rowid entry) (rowid other) Hids Hne).
    now rewrite app_nil_r.
Qed.

Lemma map_then_owner_witness :
  exists db',
    reg_entry_map db_y_owned (mkEntry 1) ["/usr/bin/x"; "/usr/bin/vi"] no_error
    = (db', 2, no_error)
    /\ reg_entry_owner db' "/usr/bin/vi" no_error
       = (1, Some (mkEntry 1), no_error)
    /\ reg_entry_owner db' "/usr/bin/y" no_error
       = (1, Some (mkEntry 2), no_error)
    /\ select_path db' 1 = ["/usr/bin/x"; "/usr/bin/vi"].
Proof.
  eexists. split; [vm_compute; reflexivity|].
  destruct (map_then_owner db_y_owned _ (mkEntry 1)
              ["/usr/bin/x"; "/usr/bin/vi"] no_error no_error eq_refl)
    as (Hin & Hout & Hsel & _).
  split; [|split].
  - apply Hin. cbn. auto.
  - rewrite Hout; [reflexivity|].
    intros [E|[E|[]]]; discriminate E.
  - exact Hsel.
Defined.

(** *** [reg_entry_files] *)

Lemma reg_entry_files_loop_none (fuel : nat) :
  forall (all rest : list string) (result : list (option string))
         (count space : Z),
  reg_entry_files_loop fuel all rest result count space = None.
Proof.
  induction fuel as [|fuel IH]; intros all rest result count space;
    cbn [reg_entry_files_loop]; [reflexivity|].
  destruct rest as [|element rest]; [apply IH|].
  destruct (reg_listcat result count space element) as [[result' count'] space'].
  apply IH.
Qed.

(** [reg_entry_files] does not return: no case of the [switch] inside its
    [while (1)] leaves the loop but the one for an error of the engine, so
    however many times the statement is stepped the loop has not ended,
    whatever the entry and whatever files it owns. *)
Theorem reg_entry_files_never_returns (fuel : nat) (db : sqlite3)
    (entry : reg_entry) (err : reg_error) :
  reg_entry_files fuel db entry err = None.
Proof.
  unfold reg_entry_files. now rewrite reg_entry_files_loop_none.
Qed.

(** *** Unmapping *)

Lemma reg_entry_unmap_from_all (batch : list string) :
  forall (db : sqlite3) (entry : reg_entry) (i : Z) (err : reg_error),
  NoDup batch ->
  (forall p, In p batch -> owned_by db (rowid entry) p = true) ->
  exists db',
    reg_entry_unmap_from db entry batch i err
    = (db', i + Z.of_nat (List.length batch), err)
    /\ files db' = filter (without (rowid entry) batch) (files db)
    /\ ports db' = ports db.
Proof.
  induction batch as [|p batch IH]; intros db entry i err Hnd Hown.
  - exists db. cbn. rewrite FileMapFacts.without_nil, Z.add_0_r. auto.
  - inversion Hnd as [|? ? Hnotin Hnd']; subst.
    destruct (FileMapFacts.delete_file_owned db (rowid entry) p
                (Hown p (or_introl eq_refl)))
      as (db1 & Hdel & Hch & Hfiles1 & Hports1).
    destruct (IH db1 entry (i + 1) err Hnd') as (db' & Hrest & Hfiles & Hports).
    { intros q Hq.
      rewrite (FileMapFacts.owned_by_after_delete db db1 _ p q Hfiles1).
      destruct (String.eqb_spec p q) as [->|_]; [contradiction|].
      apply Hown. now right. }
    exists db'. cbn [reg_entry_unmap_from List.length].
    rewrite Hdel, Hch, Hrest. repeat split.
    + f_equal. f_equal. lia.
    + rewrite Hfiles, Hfiles1. apply FileMapFacts.without_cons.
    + congruence.
Qed.

(** Unmapping undoes mapping: the batch that [reg_entry_map] has mapped
    is unmapped as a whole by [reg_entry_unmap], and the file map is then
    what it was before the two calls. *)
Theorem map_then_unmap_restores (db db' : sqlite3) (entry : reg_entry)
    (batch : list string) (err err' : reg_error) :
  reg_entry_map db entry batch err
  = (db', Z.of_nat (List.length batch), err') ->
  forall e, exists db'',
    reg_entry_unmap db' entry batch e
    = (db'', Z.of_nat (List.length batch), e)
    /\ files db'' = files db
    /\ ports db'' = ports db.
Proof.
  intros H e. unfold reg_entry_map in H.
  apply (reg_entry_map_from_all batch db entry 0 err db' err') in H.
  destruct H as (news & Hfiles & Hpaths & Hids & Hfree & Hnd & He & Hp).
  destruct (reg_entry_unmap_from_all batch db' entry 0 e Hnd)
    as (db'' & Hun & Hfiles'' & Hports'').
  { intros p Hin. unfold owned_by. rewrite Hfiles, existsb_app.
    apply orb_true_iff. right. apply existsb_exists.
    rewrite <- Hpaths in Hin. apply in_map_iff in Hin as (f & Hf & Hin).
    exists f. split; [exact Hin|].
    now rewrite (Hids f Hin), Z.eqb_refl, Hf, String.eqb_refl. }
  exists db''. unfold reg_entry_unmap. rewrite Hun. repeat split.
  - rewrite Hfiles'', Hfiles, filter_app.
    assert (Hold : filter (without (rowid entry) batch) (files db) = files db).
    { apply FileMapFacts.filter_all. apply forallb_forall. intros f Hf.
      unfold without.
      destruct (existsb (String.eqb (path f)) batch) eqn:E;
        [|now rewrite andb_false_r].
      apply existsb_eqb_in in E. specialize (Hfree _ E).
      unfold owned in Hfree.
      assert (Hex : existsb (fun g => String.eqb (path g) (path f)) (files db)
                    = true).
      { apply existsb_exists. exists f. split; [exact Hf|].
        apply String.eqb_refl. }
      congruence. }
    assert (Hnew : filter (without (rowid entry) batch) news = []).
    { rewrite <- Hpaths. clear - Hids.
      assert (Hall : forall f, In f news ->
                without (rowid entry) (map path news) f = false).
      { intros f Hf. unfold without. rewrite (Hids f Hf), Z.eqb_refl.
        cbn [andb]. apply negb_false_iff. apply existsb_eqb_in.
        now apply in_map. }
      revert Hall. generalize (without (rowid entry) (map path news)).
      intros g Hall. induction news as [|f news IH]; [reflexivity|].
      cbn [filter]. rewrite (Hall f (or_introl eq_refl)).
      apply IH.
      - intros h Hh. apply Hids. now right.
      - intros h Hh. apply Hall. now right. }
    now rewrite Hold, Hnew, app_nil_r.
  - congruence.
Qed.

Lemma map_then_unmap_restores_witness :
  exists db' db'',
    reg_entry_map db_y_owned (mkEntry 1) ["/usr/bin/x"; "/usr/bin/vi"] no_error
    = (db', 2, no_error)
    /\ reg_entry_unmap db' (mkEntry 1) ["/usr/bin/x"; "/usr/bin/vi"] no_error
       = (db'', 2, no_error)
    /\ files db'' = files db_y_owned.
Proof.
  eexists.
  destruct (map_then_unmap_restores db_y_owned _ (mkEntry 1)
              ["/usr/bin/x"; "/usr/bin/vi"] no_error no_error eq_refl no_error)
    as (db'' & Hun & Hfiles & _).
  exists db''. split; [vm_compute; reflexivity|].
  split; [exact Hun | exact Hfiles].
Defined.

(** *** One owner for each path *)

Lemma NoDup_map_filter {A B : Type} (f : A -> B) (g : A -> bool) (l : list A) :
  NoDup (map f l) -> NoDup (map f (filter g l)).
Proof.
  induction l as [|x l IH]; cbn [map filter]; intros H; [constructor|].
  inversion H as [|? ? Hnotin Hnd]; subst.
  destruct (g x); [|now apply IH].
  cbn [map]. constructor; [|now apply IH].
  intros Hin. apply Hnotin. apply in_map_iff in Hin as (y & Hy & Hin).
  apply filter_In in Hin as [Hin _]. rewrite <- Hy. now apply in_map.
Qed.

Lemma insert_file_unique (db db1 : sqlite3) (id : Z) (p : string)
    (r : step_result) :
  insert_file db id p = (db1, r) ->
  NoDup (map path (files db)) -> NoDup (map path (files db1)).
Proof.
  unfold insert_file. destruct (existsb _ (files db)) eqn:E; intros H Hnd;
    inversion H; subst; [exact Hnd|].
  cbn [files set_files]. rewrite map_app. cbn [map path].
  apply NoDup_app; [exact Hnd | repeat constructor; intros [] |].
  intros x Hx [<-|[]]. apply in_map_iff in Hx as (f & Hf & Hin).
  assert (Hex : existsb (fun g => String.eqb (path g) (path f)) (files db)
                = true).
  { apply existsb_exists. exists f. split; [exact Hin | apply String.eqb_refl]. }
  rewrite Hf in *. congruence.
Qed.

Lemma delete_file_unique (db db1 : sqlite3) (id : Z) (p : string)
    (r : step_result) :
  delete_file db id p = (db1, r) ->
  NoDup (map path (files db)) -> NoDup (map path (files db1)).
Proof.
  unfold delete_file. intros H Hnd. inversion H; subst.
  cbn [files set_files]. now apply NoDup_map_filter.
Qed.

Lemma reg_entry_map_from_unique (batch : list string) :
  forall (db : sqlite3) (entry : reg_entry) (i : Z) (err : reg_error),
  NoDup (map path (files db)) ->
  NoDup (map path (files (fst (fst (reg_entry_map_from db entry batch i err))))).
Proof.
  induction batch as [|p batch IH]; intros db entry i err Hnd; [exact Hnd|].
  cbn [reg_entry_map_from].
  destruct (insert_file db (rowid entry) p) as [db1 r] eqn:Hins.
  apply insert_file_unique in Hins; [|exact Hnd].
  destruct r as [|[]]; cbn [fst]; try exact Hins. now apply IH.
Qed.

Lemma reg_entry_unmap_from_unique (batch : list string) :
  forall (db : sqlite3) (entry : reg_entry) (i : Z) (err : reg_error),
  NoDup (map path (files db)) ->
  NoDup (map path (files (fst (fst (reg_entry_unmap_from db entry batch i err))))).
Proof.
  induction batch as [|p batch IH]; intros db entry i err Hnd; [exact Hnd|].
  cbn [reg_entry_unmap_from].
  destruct (delete_file db (rowid entry) p) as [db1 r] eqn:Hdel.
  apply delete_file_unique in Hdel; [|exact Hnd].
  destruct r; cbn [fst]; try exact Hdel.
  destruct (changes db1 =? 0); cbn [fst]; [exact Hdel | now apply IH].
Qed.

(** No path is ever given a second owner: when the paths of the file map
    are distinct, they are distinct after any call of [reg_entry_map] or
    [reg_entry_unmap] and after the commands [map] and [unmap] of an
    entry, whether the call succeeds or stops on the way. *)
Theorem file_map_keeps_paths_distinct (db : sqlite3) (entry : reg_entry)
    (batch : list string) (err : reg_error) :
  NoDup (map path (files db)) ->
  NoDup (map path (files (fst (fst (reg_entry_map db entry batch err)))))
  /\ NoDup (map path (files (fst (fst (reg_entry_unmap db entry batch err)))))
  /\ forall (interp : Util.Tcl_Interp) (cmd sub : string),
       Util.db interp = db ->
       NoDup (map path (files (Util.db
                (fst (EntryObj.entry_obj_map interp entry
                        (cmd :: sub :: batch))))))
       /\ NoDup (map path (files (Util.db
                   (fst (EntryObj.entry_obj_unmap interp entry
                           (cmd :: sub :: batch)))))).
Proof.
  intros Hnd. split; [|split].
  - now apply reg_entry_map_from_unique.
  - now apply reg_entry_unmap_from_unique.
  - intros interp cmd sub Hdb. split.
    + unfold EntryObj.entry_obj_map. cbn [skipn].
      pose proof (FileMapFacts.entry_obj_map_from_db batch (Util.db interp)
                    entry 0 err) as E.
      destruct (EntryObj.entry_obj_map_from (Util.db interp) entry batch)
        as [db1 r]. cbn [fst Util.db Util.set_db] in *. rewrite E, Hdb.
      now apply reg_entry_map_from_unique.
    + unfold EntryObj.entry_obj_unmap. cbn [skipn].
      pose proof (FileMapFacts.entry_obj_unmap_from_db batch (Util.db interp)
                    entry 0 err) as E.
      destruct (EntryObj.entry_obj_unmap_from (Util.db interp) entry batch)
        as [db1 r]. cbn [fst Util.db Util.set_db] in *. rewrite E, Hdb.
      now apply reg_entry_unmap_from_unique.
Qed.

Lemma file_map_keeps_paths_distinct_witness :
  NoDup (map path (files db_y_owned))
  /\ NoDup (map path (files (fst (fst
              (reg_entry_map db_y_owned (mkEntry 1)
                 ["/usr/bin/x"; "/usr/bin/y"; "/usr/bin/x"] no_error))))).
Proof.
  assert (H : NoDup (map path (files db_y_owned))).
  { cbn. repeat constructor. intros []. }
  split; [exact H|].
  exact (proj1 (file_map_keeps_paths_distinct db_y_owned (mkEntry 1)
                  ["/usr/bin/x"; "/usr/bin/y"; "/usr/bin/x"] no_error H)).
Defined.

(** *** The commands [map] and [files] of an entry *)

Lemma select_path_mapped (db db' : sqlite3) (entry : reg_entry)
    (batch : list string) (i : Z) (err err' : reg_error) :
  reg_entry_map_from db entry batch i err
  = (db', i + Z.of_nat (List.length batch), err') ->
  select_path db' (rowid entry) = (select_path db (rowid entry) ++ batch)%list.
Proof.
  intros H. apply reg_entry_map_from_all in H.
  destruct H as (news & Hfiles & Hpaths & Hids & _).
  unfold select_path. rewrite Hfiles, filter_app, map_app.
  now rewrite (filter_port_id_all news (rowid entry) Hids), Hpaths.
Qed.

(** After [${entry} map file ...] has succeeded, [${entry} files] lists
    the files the entry had, followed by the files of the command, for an
    entry whose identity fits the [int] that [map] binds it as. *)
Theorem map_command_then_files_command (interp interp' : Util.Tcl_Interp)
    (entry : reg_entry) (handle : string) (batch : list string)
    (res : Util.result) (code : option string) :
  EntryObj.to_int (rowid entry) = rowid entry ->
  EntryObjCmd.entry_obj_cmd interp entry (handle :: "map" :: batch)
  = (interp', Util.mkReply Util.TCL_OK res code) ->
  EntryObjCmd.entry_obj_cmd interp entry [handle; "files"]
  = (interp,
     Util.mkReply Util.TCL_OK
       (Util.List_result (select_path (Util.db interp) (rowid entry))) None)
  /\ EntryObjCmd.entry_obj_cmd interp' entry [handle; "files"]
     = (interp',
        Util.mkReply Util.TCL_OK
          (Util.List_result
             (select_path (Util.db interp) (rowid entry) ++ batch)) None)
  /\ Util.commands interp' = Util.commands interp
  /\ ports (Util.db interp') = ports (Util.db interp).
Proof.
  intros Hint H. unfold EntryObjCmd.entry_obj_cmd in *.
  change (Util.Tcl_GetIndexFromObj EntryObjCmd.entry_cmds "map")
    with (Some 10%nat) in H.
  change (Util.Tcl_GetIndexFromObj EntryObjCmd.entry_cmds "files")
    with (Some 12%nat).
  cbn [Nat.ltb Nat.leb Nat.eqb] in *.
  unfold EntryObj.entry_obj_map in H. cbn [skipn] in H.
  pose proof (FileMapFacts.entry_obj_map_from_db batch (Util.db interp) entry
                0 no_error) as Hdb.
  pose proof (FileMapFacts.entry_obj_map_from_status batch (Util.db interp)
                entry 0 no_error) as Hst.
  rewrite Hint in Hdb, Hst.
  replace (mkEntry (rowid entry)) with entry in Hdb, Hst by now destruct entry.
  destruct (EntryObj.entry_obj_map_from (Util.db interp) entry batch)
    as [db1 r].
  inversion H; subst interp' r; clear H. cbn [fst snd Util.reply_status] in *.
  destruct (reg_entry_map_from (Util.db interp) entry batch 0 no_error)
    as [[db2 n] e2] eqn:Hmap. cbn [fst snd] in *. subst db2.
  destruct (Z.ltb_spec n (0 + Z.of_nat (List.length batch))) as [Hlt|Hge];
    [discriminate Hst|].
  destruct (FileMapFacts.reg_entry_map_from_spec batch _ _ _ _ _ _ _ Hmap)
    as (k & Hk & Hn & _ & Hports & _).
  assert (En : n = 0 + Z.of_nat (List.length batch)) by lia.
  rewrite En in Hmap. apply select_path_mapped in Hmap.
  unfold EntryObjCmd.entry_obj_files. cbn [Util.db Util.set_db].
  rewrite Hmap. repeat split. exact Hports.
Qed.

Lemma map_command_then_files_command_witness :
  exists interp',
    EntryObjCmd.entry_obj_cmd session_entry0 (mkEntry 1)
      ["registry::entry0"; "map"; "/usr/bin/vi"; "/usr/bin/view"]
    = (interp', Util.mkReply Util.TCL_OK (Util.String_result "") None)
    /\ EntryObjCmd.entry_obj_cmd interp' (mkEntry 1) ["registry::entry0"; "files"]
       = (interp',
          Util.mkReply Util.TCL_OK
            (Util.List_result ["/usr/bin/x"; "/usr/bin/vi"; "/usr/bin/view"])
            None).
Proof.
  eexists. split; [vm_compute; reflexivity|].
  exact (proj1 (proj2
           (map_command_then_files_command session_entry0 _ (mkEntry 1)
              "registry::entry0" ["/usr/bin/vi"; "/usr/bin/view"]
              (Util.String_result "") None eq_refl eq_refl))).
Defined.

End FileMapLaws.

(* ================================================================= *)
(** * Laws of the properties of an entry *)

Module PropertyLaws.

Import Sqlite CEntry Util Spec Statements EntryObjCmd.

Lemma is_column_props (key : string) :
  is_column key = true -> In key Entry.entry_props.
Proof.
  unfold is_column, Entry.entry_props. intros H.
  apply existsb_exists in H as (x & Hin & E). apply String.eqb_eq in E.
  now subst x.
Qed.

(** A column name is a command of the entry and a property, by exact
    match. *)
Lemma column_is_command (prop : string) :
  is_column prop = true ->
  exists i, Tcl_GetIndexFromObj entry_cmds prop = Some i
            /\ (i <? 10)%nat = true
            /\ Tcl_GetIndexFromObj Entry.entry_props prop = Some i.
Proof.
  intros H. apply is_column_props in H. unfold Entry.entry_props in H.
  cbn [In] in H.
  repeat (destruct H as [<-|H]; [eexists; repeat split; reflexivity|]).
  destruct H.
Qed.

Lemma set_column_rowid (key v : string) (p : port) :
  Sqlite.rowid (set_column key v p) = Sqlite.rowid p.
Proof.
  unfold set_column.
  repeat (match goal with
          | |- context [String.eqb key ?s] => destruct (String.eqb key s)
          end; [reflexivity|]).
  reflexivity.
Qed.

Lemma column_set_column (prop v : string) (p : port) :
  is_column prop = true ->
  column prop (set_column prop v p) = Some (Some v).
Proof.
  intros H. apply is_column_props in H. unfold Entry.entry_props in H.
  cbn [In] in H.
  repeat (destruct H as [<-|H]; [reflexivity|]).
  destruct H.
Qed.

Lemma column_set_other (prop key v : string) (p : port) :
  key <> prop ->
  column key (set_column prop v p) = column key p.
Proof.
  intros Hne. unfold set_column.
  repeat (match goal with
          | |- context [String.eqb prop ?s] =>
              destruct (String.eqb_spec prop s) as [->|_]
          end;
          [unfold column;
           repeat (match goal with
                   | |- context [String.eqb key ?s] =>
                       destruct (String.eqb_spec key s) as [->|_]
                   end;
                   [solve [reflexivity | congruence]|]);
           reflexivity|]).
  reflexivity.
Qed.

Lemma find_rowid_map (l : list port) (id : Z) (upd : port -> port) :
  (forall p, Sqlite.rowid (upd p) = Sqlite.rowid p) ->
  find (fun p => Sqlite.rowid p =? id) (map upd l)
  = option_map upd (find (fun p => Sqlite.rowid p =? id) l).
Proof.
  intros Hupd. induction l as [|p l IH]; cbn [map find]; [reflexivity|].
  rewrite Hupd. destruct (Sqlite.rowid p =? id); [reflexivity | exact IH].
Qed.

Lemma has_entry_find (db : sqlite3) (id : Z) :
  has_entry db id = true ->
  exists p, find (fun p => Sqlite.rowid p =? id) (ports db) = Some p
            /\ Sqlite.rowid p = id.
Proof.
  unfold has_entry. intros H.
  destruct (find (fun p => Sqlite.rowid p =? id) (ports db)) as [p|] eqn:E.
  - exists p. split; [reflexivity|].
    apply find_some in E as [_ E]. now apply Z.eqb_eq in E.
  - apply existsb_exists in H as (p & Hin & Hp).
    apply (find_none _ _ E) in Hin. congruence.
Qed.

Lemma has_entry_find_none (db : sqlite3) (id : Z) :
  has_entry db id = false ->
  find (fun p => Sqlite.rowid p =? id) (ports db) = None.
Proof.
  unfold has_entry. induction (ports db) as [|p l IH]; cbn [existsb find];
    intros H; [reflexivity|].
  apply orb_false_iff in H as [H1 H2]. rewrite H1. now apply IH.
Qed.

(** The rows after an UPDATE that was carried out. *)
Lemma update_column_done (db db' : sqlite3) (key : string) (id : Z)
    (value : string) :
  update_column db key id value = (db', Step_DONE) ->
  ports db'
  = map (fun p => if Sqlite.rowid p =? id then set_column key value p else p)
        (ports db)
  /\ files db' = files db /\ entry_procs db' = entry_procs db.
Proof.
  unfold update_column. destruct (is_column key); [|discriminate].
  destruct (existsb _ (ports db)); [discriminate|].
  destruct (existsb _ (ports db)); [discriminate|].
  intros H. inversion H; subst. cbn. auto.
Qed.

Lemma select_column_updated (db db' : sqlite3) (prop key : string)
    (id id' : Z) (value : string) :
  update_column db prop id value = (db', Step_DONE) ->
  id' <> id \/ key <> prop ->
  select_column db' key id' = select_column db key id'.
Proof.
  intros H Hframe. apply update_column_done in H as (Hports & _).
  unfold select_column. rewrite Hports.
  rewrite (find_rowid_map (ports db) id'
             (fun p => if Sqlite.rowid p =? id then set_column prop value p
                       else p)).
  2:{ intros p. destruct (Sqlite.rowid p =? id);
        [apply set_column_rowid | reflexivity]. }
  destruct (find (fun p => Sqlite.rowid p =? id') (ports db)) as [p|] eqn:E;
    cbn [option_map]; [|reflexivity].
  apply find_some in E as [_ E]. apply Z.eqb_eq in E.
  destruct (Z.eqb_spec (Sqlite.rowid p) id) as [Eid|_]; [|reflexivity].
  destruct Hframe as [Hne|Hne]; [congruence|].
  now rewrite (column_set_other prop key value p Hne).
Qed.

(** Writing a property and reading it.  When [${entry} prop value] has
    succeeded for an entry whose row exists, [${entry} prop] returns the
    value; every other property of the entry and every property of every
    other entry reads as before, and neither the file map nor the
    commands have changed. *)
Theorem property_set_then_get (interp interp' : Tcl_Interp)
    (entry : reg_entry) (handle prop value : string) :
  is_column prop = true ->
  has_entry (db interp) (rowid entry) = true ->
  entry_obj_cmd interp entry [handle; prop; value]
  = (interp', mkReply TCL_OK (String_result "") None) ->
  entry_obj_cmd interp' entry [handle; prop]
  = (interp', mkReply TCL_OK (String_result value) None)
  /\ (forall (other : reg_entry) (h key : string),
        rowid other <> rowid entry \/ key <> prop ->
        snd (entry_obj_cmd interp' other [h; key])
        = snd (entry_obj_cmd interp other [h; key]))
  /\ files (db interp') = files (db interp)
  /\ commands interp' = commands interp.
Proof.
  intros Hcol Hrow H.
  destruct (column_is_command prop Hcol) as (i & Hcmd & Hi & Hprop).
  unfold entry_obj_cmd in H. rewrite Hcmd, Hi in H.
  unfold entry_obj_prop in H. rewrite Hprop in H.
  destruct (update_column (db interp) prop (rowid entry) value)
    as [db' [|c]] eqn:Hup; inversion H; subst interp'; clear H.
  pose proof (update_column_done _ _ _ _ _ Hup) as (Hports & Hfiles & _).
  split; [|split; [|split]].
  - unfold entry_obj_cmd. rewrite Hcmd, Hi.
    unfold entry_obj_prop. rewrite Hprop.
    unfold select_column. cbn [db set_db]. rewrite Hports.
    rewrite (find_rowid_map (ports (db interp)) (rowid entry)
               (fun p => if Sqlite.rowid p =? rowid entry
                         then set_column prop value p else p)).
    2:{ intros p. destruct (Sqlite.rowid p =? rowid entry);
          [apply set_column_rowid | reflexivity]. }
    destruct (has_entry_find _ _ Hrow) as (p & -> & Hp).
    cbn [option_map]. rewrite Hp, Z.eqb_refl.
    now rewrite (column_set_column prop value p Hcol).
  - intros other h key Hframe. unfold entry_obj_cmd.
    destruct (Tcl_GetIndexFromObj entry_cmds key) as [j|]; [|reflexivity].
    destruct (j <? 10)%nat.
    + unfold entry_obj_prop.
      destruct (Tcl_GetIndexFromObj Entry.entry_props key); [|reflexivity].
      cbn [db set_db].
      rewrite (select_column_updated _ _ _ key _ (rowid other) _ Hup Hframe).
      now destruct (select_column (db interp) key (rowid other)).
    + destruct (j =? 10)%nat; [reflexivity|].
      destruct (j =? 11)%nat; [reflexivity|].
      unfold entry_obj_files, select_path. cbn [db set_db snd].
      now rewrite Hfiles.
  - exact Hfiles.
  - reflexivity.
Qed.

Lemma property_set_then_get_witness :
  exists interp',
    entry_obj_cmd session_entry0 (mkEntry 1)
      ["registry::entry0"; "state"; "active"]
    = (interp', mkReply TCL_OK (String_result "") None)
    /\ entry_obj_cmd interp' (mkEntry 1) ["registry::entry0"; "state"]
       = (interp', mkReply TCL_OK (String_result "active") None).
Proof.
  eexists. split; [vm_compute; reflexivity|].
  exact (proj1 (property_set_then_get session_entry0 _ (mkEntry 1)
                  "registry::entry0" "state" "active" eq_refl eq_refl eq_refl)).
Defined.

Lemma existsb_rowid_and (l : list port) (id : Z) (g : port -> bool) :
  existsb (fun p => Sqlite.rowid p =? id) l = false ->
  existsb (fun p => (Sqlite.rowid p =? id) && g p) l = false.
Proof.
  induction l as [|p l IH]; cbn [existsb]; intros H; [reflexivity|].
  apply orb_false_iff in H as [H1 H2]. rewrite H1. cbn [andb orb].
  now apply IH.
Qed.

Lemma map_rowid_absent (l : list port) (id : Z) (upd : port -> port) :
  existsb (fun p => Sqlite.rowid p =? id) l = false ->
  map (fun p => if Sqlite.rowid p =? id then upd p else p) l = l.
Proof.
  induction l as [|p l IH]; cbn [existsb map]; intros H; [reflexivity|].
  apply orb_false_iff in H as [H1 H2]. rewrite H1. f_equal. now apply IH.
Qed.

(** A handle can outlive the row of its entry (two handles of one entry,
    the entry deleted through the other one).  Reading a property through
    such a handle fails, but writing one reports success, and writes
    nothing. *)
Theorem property_of_deleted_entry (interp : Tcl_Interp) (entry : reg_entry)
    (handle prop value : string) :
  is_column prop = true ->
  has_entry (db interp) (rowid entry) = false ->
  entry_obj_cmd interp entry [handle; prop]
  = (interp,
     mkReply TCL_ERROR
       (Sqlite_result (Some (select_query prop (rowid entry)))) None)
  /\ exists interp',
       entry_obj_cmd interp entry [handle; prop; value]
       = (interp', mkReply TCL_OK (String_result "") None)
       /\ ports (db interp') = ports (db interp)
       /\ files (db interp') = files (db interp)
       /\ commands interp' = commands interp.
Proof.
  intros Hcol Hrow.
  destruct (column_is_command prop Hcol) as (i & Hcmd & Hi & Hprop).
  pose proof (has_entry_find_none _ _ Hrow) as Hfind.
  unfold entry_obj_cmd. rewrite Hcmd, Hi.
  unfold entry_obj_prop. rewrite Hprop. split.
  - unfold select_column. now rewrite Hfind, Hcol.
  - unfold update_column. rewrite Hcol.
    rewrite !(existsb_rowid_and _ _ _ Hrow). eexists. split; [reflexivity|].
    cbn [db set_db ports set_ports files commands]. repeat split.
    now apply map_rowid_absent.
Qed.

Lemma property_of_deleted_entry_witness :
  (is_column "state" = true /\ has_entry (db session_entry0) 7 = false)
  /\ exists interp',
       entry_obj_cmd session_entry0 (mkEntry 7)
         ["registry::entry1"; "state"; "active"]
       = (interp', mkReply TCL_OK (String_result "") None)
       /\ ports (db interp') = ports db_x_owned.
Proof.
  split; [split; reflexivity|].
  destruct (proj2 (property_of_deleted_entry session_entry0 (mkEntry 7)
                     "registry::entry1" "state" "active" eq_refl eq_refl))
    as (interp' & Hset & Hports & _).
  exists interp'. split; [exact Hset | exact Hports].
Defined.

(** The lookup of the property accepts a unique abbreviation, but the
    query is built from the word as it was typed: an abbreviated property
    is accepted as a command and then fails in the storage engine, for
    reading and for writing, and nothing is changed. *)
Theorem abbreviated_property_fails (interp : Tcl_Interp) (entry : reg_entry)
    (handle prop value : string) (i j : nat) :
  Tcl_GetIndexFromObj entry_cmds prop = Some i -> (i < 10)%nat ->
  Tcl_GetIndexFromObj Entry.entry_props prop = Some j ->
  is_column prop = false ->
  entry_obj_cmd interp entry [handle; prop]
  = (interp,
     mkReply TCL_ERROR
       (Sqlite_result (Some (select_query prop (rowid entry)))) None)
  /\ entry_obj_cmd interp entry [handle; prop; value]
     = (interp,
        mkReply TCL_ERROR
          (Sqlite_result (Some (update_query prop value (rowid entry)))) None).
Proof.
  intros Hcmd Hi Hprop Hcol.
  apply Nat.ltb_lt in Hi.
  assert (Hnone : forall p, column prop p = None).
  { intros p. unfold is_column in Hcol. cbn [existsb] in Hcol.
    unfold column.
    repeat (apply orb_false_iff in Hcol; destruct Hcol as [E Hcol];
            rewrite E; clear E).
    reflexivity. }
  unfold entry_obj_cmd. rewrite Hcmd, Hi.
  unfold entry_obj_prop. rewrite Hprop.
  unfold select_column, update_column. rewrite Hcol. split.
  - destruct (find _ (ports (db interp))) as [p|]; [|reflexivity].
    now rewrite Hnone.
  - now rewrite HostFacts.set_db_same.
Qed.

Lemma abbreviated_property_fails_witness :
  (Tcl_GetIndexFromObj entry_cmds "na" = Some 0%nat
   /\ Tcl_GetIndexFromObj Entry.entry_props "na" = Some 0%nat
   /\ is_column "na" = false)
  /\ entry_obj_cmd session_entry0 (mkEntry 1) ["registry::entry0"; "na"]
     = (session_entry0,
        mkReply TCL_ERROR
          (Sqlite_result
             (Some "SELECT na FROM registry.ports WHERE rowid='1'")) None).
Proof.
  split; [repeat split; reflexivity|].
  exact (proj1 (abbreviated_property_fails session_entry0 (mkEntry 1)
                  "registry::entry0" "na" "" 0 0 eq_refl ltac:(lia)
                  eq_refl eq_refl)).
Defined.

(** *** Writing a property of the key *)

Lemma existsb_rowid_found (l : list port) (p : port) (g : port -> bool) :
  In p l -> g p = true ->
  existsb (fun q => (Sqlite.rowid q =? Sqlite.rowid p) && g q) l = true.
Proof.
  intros Hin Hg. apply existsb_exists. exists p.
  split; [exact Hin|]. now rewrite Z.eqb_refl, Hg.
Qed.

(** The name, the epoch, the version, the revision and the variants of an
    entry are columns of indexes that hold the version and the revision
    without terminator.  Writing one of them through the handle makes the
    engine look up the index entries of the row; when it does not find
    them the write fails in the storage engine and the session is
    unchanged. *)
Theorem property_write_needs_index_entries (interp : Tcl_Interp)
    (entry : reg_entry) (handle prop value : string) (mine : port) :
  is_column prop = true ->
  In mine (ports (db interp)) -> Sqlite.rowid mine = rowid entry ->
  stale (db interp) prop mine = true ->
  entry_obj_cmd interp entry [handle; prop; value]
  = (interp,
     mkReply TCL_ERROR
       (Sqlite_result (Some (update_query prop value (rowid entry)))) None).
Proof.
  intros Hcol Hmine Hid Hstale.
  destruct (column_is_command prop Hcol) as (i & Hcmd & Hi & Hprop).
  unfold entry_obj_cmd. rewrite Hcmd, Hi.
  unfold entry_obj_prop. rewrite Hprop.
  unfold update_column. rewrite Hcol, <- Hid.
  rewrite (existsb_rowid_found _ mine (stale (db interp) prop) Hmine Hstale).
  now rewrite HostFacts.set_db_same.
Qed.

(** Entry 1 of [db_x_owned] cannot be renamed: its version in the index
    entries reads "7.1.0000U" against "7.1.000". *)
Lemma property_write_needs_index_entries_witness :
  (is_column "name" = true
   /\ stale (db session_entry0) "name" (new_port 1 "vim" "7.1.000" "0" "" "0")
      = true)
  /\ entry_obj_cmd session_entry0 (mkEntry 1) ["registry::entry0"; "name"; "vi"]
     = (session_entry0,
        mkReply TCL_ERROR
          (Sqlite_result
             (Some "UPDATE registry.ports SET name='vi' WHERE rowid='1'"))
          None).
Proof.
  split; [split; reflexivity|].
  apply (property_write_needs_index_entries session_entry0 (mkEntry 1)
           "registry::entry0" "name" "vi"
           (new_port 1 "vim" "7.1.000" "0" "" "0"));
    [reflexivity | now left | reflexivity | reflexivity].
Defined.

End PropertyLaws.

(* ================================================================= *)
(** * Laws of the commands of [registry::entry] *)

Module CommandLaws.

Import Sqlite CEntry Util Entry EntryCmd Spec Flags.

(** *** [reg_entry_delete] on a batch *)







(** *** A session without a registry *)

(** Without an attached registry the commands that use it ([create],
    [delete] and [search]) fail with "registry is not open" and change
    nothing. *)
Theorem detached_session_is_refused (interp : Tcl_Interp) (cmd : string) :
  attached interp = false ->
  (forall name version revision variants epoch,
     entry_cmd interp [cmd; "create"; name; version; revision; variants; epoch]
     = Defined (interp, not_open))
  /\ (forall procs,
        entry_cmd interp (cmd :: "delete" :: procs)
        = Defined (interp, not_open))
  /\ (forall args,
        (List.length args mod 2 = 0)%nat ->
        entry_cmd interp (cmd :: "search" :: args)
        = Defined (interp, not_open)).
Proof.
  intros Hatt. unfold entry_cmd.
  change (Tcl_GetIndexFromObj entry_cmds "create") with (Some 0%nat).
  change (Tcl_GetIndexFromObj entry_cmds "delete") with (Some 1%nat).
  change (Tcl_GetIndexFromObj entry_cmds "search") with (Some 3%nat).
  split; [|split].
  - intros. unfold entry_create, registry_db. now rewrite Hatt.
  - intros. unfold entry_delete, registry_db. now rewrite Hatt.
  - intros args Heven. unfold entry_search, registry_db. rewrite Hatt.
    cbn [List.length].
    replace (S (S (List.length args))) with (List.length args + 1 * 2)%nat
      by lia.
    rewrite Nat.Div0.mod_add, Heven. reflexivity.
Qed.

Lemma detached_session_is_refused_witness :
  attached (mkInterp [] empty_db false) = false
  /\ entry_cmd (mkInterp [] empty_db false)
       ["registry::entry"; "search"; "name"; "vim"]
     = Defined (mkInterp [] empty_db false, not_open).
Proof.
  split; [reflexivity|].
  exact (proj2 (proj2 (detached_session_is_refused (mkInterp [] empty_db false)
                         "registry::entry" eq_refl))
               ["name"; "vim"] eq_refl).
Defined.

(** *** [parse_flags] *)

Lemma parse_flags_from_spec (END_FLAGS : Z) (options : list option_spec)
    (args : list string) :
  forall (i : nat) (flags : Z) (st : status) (i' : nat) (flags' : Z),
  parse_flags_from END_FLAGS options args i flags = (st, i', flags') ->
  (i <= i' <= i + List.length args)%nat
  /\ (forall k, (k < i' - i)%nat -> not_a_flag (nth k args "") = false)
  /\ (st = TCL_OK -> (i' < i + List.length args)%nat ->
      not_a_flag (nth (i' - i) args "") = true
      \/ ((i < i')%nat
          /\ exists index,
               Tcl_GetIndexFromObj (map option options)
                 (nth (i' - i - 1) args "") = Some index
               /\ flag (nth index options (mkOption "" 0)) = END_FLAGS))
  /\ (st = TCL_ERROR ->
      (i' < i + List.length args)%nat
      /\ not_a_flag (nth (i' - i) args "") = false
      /\ Tcl_GetIndexFromObj (map option options) (nth (i' - i) args "")
         = None).
Proof.
  induction args as [|arg args IH]; intros i flags st i' flags' H.
  - cbn in H. inversion H; subst. cbn [List.length].
    split; [lia|]. split; [intros k Hk; lia|].
    split; [intros _ Hlt; lia | discriminate].
  - cbn [parse_flags_from] in H. cbn [List.length].
    destruct (not_a_flag arg) eqn:Hflag.
    + inversion H; subst. rewrite Nat.sub_diag. cbn [nth].
      split; [lia|]. split; [intros k Hk; lia|].
      split; [intros _ _; now left | discriminate].
    + destruct (Tcl_GetIndexFromObj (map option options) arg) as [index|]
        eqn:Hidx.
      * destruct (flag (nth index options (mkOption "" 0)) =? END_FLAGS)
          eqn:Hend.
        -- inversion H; subst.
           replace (S i - i)%nat with 1%nat by lia.
           split; [lia|]. split; [|split; [|discriminate]].
           ++ intros k Hk. assert (k = 0)%nat as -> by lia. exact Hflag.
           ++ intros _ _. right. split; [lia|]. cbn [Nat.sub nth].
              exists index. split; [exact Hidx | now apply Z.eqb_eq].
        -- apply IH in H as (Hb & Hall & Hok & Herr).
           assert (Hs : (i' - i = S (i' - S i))%nat) by lia.
           split; [lia|]. split; [|split].
           ++ intros k Hk. destruct k as [|k]; [exact Hflag|].
              cbn [nth]. apply Hall. lia.
           ++ intros Hst Hlt. rewrite Hs. cbn [nth].
              assert (Hlt' : (i' < S i + List.length args)%nat) by lia.
              destruct (Hok Hst Hlt') as [Hstop|(Hlt'' & index' & Hi' & Hf')].
              ** now left.
              ** right. split; [lia|]. exists index'. split; [|exact Hf'].
                 replace (S (i' - S i) - 1)%nat with (S (i' - S i - 1)) by lia.
                 exact Hi'.
           ++ intros Hst. destruct (Herr Hst) as (H1 & H2 & H3).
              rewrite Hs. cbn [nth]. split; [lia|]. split; assumption.
      * inversion H; subst. rewrite Nat.sub_diag. cbn [nth].
        split; [lia|]. split; [intros k Hk; lia|].
        split; [discriminate|]. intros _. split; [lia|]. split; assumption.
Qed.

Lemma nth_skipn_add {A : Type} (l : list A) (n k : nat) (d : A) :
  nth k (skipn n l) d = nth (n + k) l d.
Proof.
  revert l. induction n as [|n IH]; intros l; [reflexivity|].
  destruct l as [|x l]; cbn [skipn Nat.add nth]; [now destruct k | apply IH].
Qed.

(** [parse_flags] consumes exactly the leading flags.  When it returns
    TCL_OK with the new start, every argument from the old start up to
    the new one begins with ['-'], and unless the arguments are used up
    the parser has stopped for a reason: the argument at the new start
    does not begin with ['-'], or the argument before it is an option
    whose flag is END_FLAGS. *)
Theorem parse_flags_consumes_leading_flags (END_FLAGS : Z)
    (objv : list string) (start : nat) (options : list option_spec)
    (start' : nat) (flags : Z) :
  (start <= List.length objv)%nat ->
  parse_flags END_FLAGS objv start options = (TCL_OK, start', flags) ->
  (start <= start' <= List.length objv)%nat
  /\ (forall k, (start <= k < start')%nat ->
        not_a_flag (nth k objv "") = false)
  /\ ((start' < List.length objv)%nat ->
      not_a_flag (nth start' objv "") = true
      \/ ((start < start')%nat
          /\ exists index,
               Tcl_GetIndexFromObj (map option options)
                 (nth (start' - 1) objv "") = Some index
               /\ flag (nth index options (mkOption "" 0)) = END_FLAGS)).
Proof.
  intros Hstart H. unfold parse_flags in H.
  destruct (parse_flags_from END_FLAGS options (skipn start objv) start 0)
    as [[st i'] fl] eqn:Hrun.
  destruct st; inversion H; subst; clear H.
  apply parse_flags_from_spec in Hrun as (Hb & Hall & Hok & _).
  rewrite length_skipn in Hb, Hok.
  split; [lia|]. split.
  - intros k Hk. assert (Hk' : (k - start < start' - start)%nat) by lia.
    specialize (Hall (k - start)%nat Hk').
    rewrite nth_skipn_add in Hall.
    now replace (start + (k - start))%nat with k in Hall by lia.
  - intros Hlt.
    assert (Hlt0 : (start' < start + (List.length objv - start))%nat) by lia.
    destruct (Hok eq_refl Hlt0) as [Hstop|(Hlt' & index & Hi & Hf)].
    + left. rewrite nth_skipn_add in Hstop.
      now replace (start + (start' - start))%nat with start' in Hstop by lia.
    + right. split; [exact Hlt'|]. exists index. split; [|exact Hf].
      rewrite nth_skipn_add in Hi.
      now replace (start + (start' - start - 1))%nat with (start' - 1)%nat
        in Hi by lia.
Qed.

Lemma parse_flags_consumes_leading_flags_witness :
  parse_flags 0
    ["registry::entry"; "search"; "-glob"; "--"; "-name"; "vim"] 2
    [mkOption "-glob" 1; mkOption "-regexp" 2; mkOption "--" 0]
  = (TCL_OK, 4%nat, 1)
  /\ not_a_flag "-glob" = false.
Proof.
  split; [reflexivity|].
  apply (proj1 (proj2 (parse_flags_consumes_leading_flags 0
           ["registry::entry"; "search"; "-glob"; "--"; "-name"; "vim"] 2
           [mkOption "-glob" 1; mkOption "-regexp" 2; mkOption "--" 0]
           4 1 ltac:(cbn; lia) eq_refl)) 2%nat).
  lia.
Defined.

End CommandLaws.
